(** * DatabaseOrdinary: the default database engine

    A shallow embedding of [dbms/src/Databases/DatabaseOrdinary.cpp]: the
    catalog that keeps one [.sql] descriptor per table in a metadata
    directory, rebuilds the table map from that directory when it is
    constructed, and afterwards serves create / attach / detach / remove.

    Conventions of the embedding.
    - A member function is a computation in the monad [M]: it threads the
      [World] (table map, file system, AST objects, call logs) and ends in
      a value, a thrown exception, or undefined behaviour.
    - Every [std::lock_guard] region is one atomic step; the operations
      after construction are modelled for one calling thread.
    - The thread pool of the constructor is a scheduler: a list of task
      indices that says which task loads its next table; every
      interleaving of whole [loadTable] calls is one such list.
    - Logging ([LOG_INFO], [LOG_ERROR], the progress stopwatch) has no
      effect on the state and is left out. *)

From Stdlib Require Import Ascii.
From stdpp Require Import base option list sorting gmap strings.

(** ** Exceptions *)

(** The error codes this translation unit names ([namespace ErrorCodes]),
    [NOT_IMPLEMENTED] of [renameTable], the code of the file buffers, and
    [ZERO], the code 0 of a [DB::Exception] that is built without one. *)
Inductive ErrorCode :=
  | TABLE_ALREADY_EXISTS
  | UNKNOWN_TABLE
  | TABLE_METADATA_DOESNT_EXIST
  | CANNOT_CREATE_TABLE_FROM_METADATA
  | INCORRECT_FILE_NAME
  | NOT_IMPLEMENTED
  | CANNOT_OPEN_FILE
  | ZERO.

(** What a [throw] can carry here: [DB::Exception] (message and code), the
    exceptions of [Poco::File], and [std::out_of_range] of [string::at]. *)
Inductive exception :=
  | Exception (message : string) (code : ErrorCode)
  | PocoException (message : string)
  | out_of_range.

#[global] Instance ErrorCode_eq_dec : EqDecision ErrorCode.
Proof. solve_decision. Defined.

#[global] Instance exception_eq_dec : EqDecision exception.
Proof. solve_decision. Defined.

(** Outcome of a call: a value, an exception on its way up the stack, or
    undefined behaviour (a dangling pointer, a singular iterator). *)
Inductive Res (A : Type) :=
  | Ok (a : A)
  | Throw (e : exception)
  | Undefined.

Arguments Ok {A} a.
Arguments Throw {A} e.
Arguments Undefined {A}.

(** ** Data *)

(** [StoragePtr] is [std::shared_ptr<IStorage>]: null, or the identity of
    a live table object. *)
Inductive StoragePtr :=
  | nullptr
  | Storage (id : nat).

#[global] Instance StoragePtr_eq_dec : EqDecision StoragePtr.
Proof. solve_decision. Defined.

(** The fields of [ASTCreateQuery] this file reads or writes; [select] is
    the optional SELECT subtree (null when absent), [definition] stands
    for the rest of the statement (columns and storage). *)
Record ASTCreateQuery := {
  attach : bool;
  if_not_exists : bool;
  is_populate : bool;
  database : string;
  table : string;
  as_database : string;
  as_table : string;
  select : option string;
  definition : string;
}.

(** [ASTPtr]: the address of an AST object in the store [asts]. *)
Definition ASTPtr := nat.

(** The metadata files: (full path, content) in the order in which a
    directory iterator meets them, and the paths on which every
    file-system call fails with an I/O error. *)
Record FileSystem := {
  files : list (string * string);
  faulty : gset string;
}.

(** [Tables] is [std::map<String, StoragePtr>]. *)
Abbreviation Tables := (gmap string StoragePtr).

(** Everything a member function can touch: the member [tables] of the
    database, the files, the AST objects behind the [ASTPtr]s; and two
    logs that only record calls, for the statements about them: the
    storages whose [shutdown()] was called and the file names
    [loadTable] was called with, both in call order. *)
Record World := {
  tables : Tables;
  fs : FileSystem;
  asts : list ASTCreateQuery;
  shutdown_calls : list StoragePtr;
  load_calls : list string;
}.

Definition set_tables (t : Tables) (w : World) : World :=
  {| tables := t; fs := fs w; asts := asts w;
     shutdown_calls := shutdown_calls w; load_calls := load_calls w |}.

Definition set_fs (f : FileSystem) (w : World) : World :=
  {| tables := tables w; fs := f; asts := asts w;
     shutdown_calls := shutdown_calls w; load_calls := load_calls w |}.

Definition set_files (l : list (string * string)) (w : World) : World :=
  set_fs {| files := l; faulty := faulty (fs w) |} w.

Definition set_asts (a : list ASTCreateQuery) (w : World) : World :=
  {| tables := tables w; fs := fs w; asts := a;
     shutdown_calls := shutdown_calls w; load_calls := load_calls w |}.

Definition log_shutdown (t : StoragePtr) (w : World) : World :=
  {| tables := tables w; fs := fs w; asts := asts w;
     shutdown_calls := shutdown_calls w ++ [t]; load_calls := load_calls w |}.

Definition log_load (file_name : string) (w : World) : World :=
  {| tables := tables w; fs := fs w; asts := asts w;
     shutdown_calls := shutdown_calls w; load_calls := load_calls w ++ [file_name] |}.

(** ** The monad of member functions *)

Definition M (A : Type) : Type := World → Res A * World.

Definition ret {A} (a : A) : M A := λ w, (Ok a, w).

Definition throw {A} (e : exception) : M A := λ w, (Throw e, w).

Definition undefined {A} : M A := λ w, (Undefined, w).

Definition bind {A B} (m : M A) (k : A → M B) : M B :=
  λ w, match m w with
       | (Ok a, w') => k a w'
       | (Throw e, w') => (Throw e, w')
       | (Undefined, w') => (Undefined, w')
       end.

(** [try { body } catch (...) { handler; }] *)
Definition try_catch {A} (body : M A) (handler : exception → M A) : M A :=
  λ w, match body w with
       | (Throw e, w') => handler e w'
       | r => r
       end.

Definition get_world : M World := λ w, (Ok w, w).

Definition modify (f : World → World) : M unit := λ w, (Ok tt, f w).

Declare Scope cpp_scope.
Delimit Scope cpp_scope with cpp.
Notation "'let*' x ':=' m 'in' k" := (bind m (λ x, k))
  (at level 10, x pattern, m at level 100, k at level 200) : cpp_scope.
Notation "'do' m 'in' k" := (bind m (λ _, k))
  (at level 10, m at level 100, k at level 200) : cpp_scope.
Local Open Scope cpp_scope.

(** ** Strings *)

Definition newline : string := String (ascii_of_nat 10) "".

(** [static bool endsWith(const String & s, const char * suffix)] *)
Definition endsWith (s suffix : string) : bool :=
  (String.length suffix <=? String.length s)%nat
  && String.eqb
       (String.substring (String.length s - String.length suffix)
                         (String.length suffix) s)
       suffix.

(** [s.at(0)] *)
Definition at0 (s : string) : M ascii :=
  match s with
  | EmptyString => throw out_of_range
  | String c _ => ret c
  end.

(** [0 == file_name.compare(0, strlen("%2Einner%2E"), "%2Einner%2E")] *)
Definition is_inner (file_name : string) : bool :=
  String.eqb (String.substring 0 (String.length "%2Einner%2E") file_name)
             "%2Einner%2E".

(** [operator<] of [std::string]: bytes compared as unsigned values. *)
Definition string_le (s1 s2 : string) : Prop := String.leb s1 s2 = true.

#[global] Instance string_le_dec : RelDecision string_le.
Proof. intros s1 s2. unfold string_le. apply _. Defined.

(** [std::sort(file_names.begin(), file_names.end())] *)
Definition sort_names (file_names : list string) : list string :=
  merge_sort string_le file_names.

(** ** File system calls *)

Definition file_exists (p : string) (f : FileSystem) : bool :=
  existsb (λ e, String.eqb (fst e) p) (files f).

Definition file_content (p : string) (f : FileSystem) : option string :=
  snd <$> find (λ e, String.eqb (fst e) p) (files f).

Definition is_faulty (p : string) (f : FileSystem) : bool :=
  bool_decide (p ∈ faulty f).

(** [ReadBufferFromFile in(p, ...); copyData(in, out);] *)
Definition read_file (p : string) : M string :=
  let* w := get_world in
  if is_faulty p (fs w) then throw (Exception ("Cannot open file " +:+ p) CANNOT_OPEN_FILE)
  else match file_content p (fs w) with
       | Some s => ret s
       | None => throw (Exception ("Cannot open file " +:+ p) CANNOT_OPEN_FILE)
       end.

(** [WriteBufferFromFile out(p, size, O_WRONLY | O_CREAT | O_EXCL);
    writeString(s, out); out.next(); out.sync(); out.close();] *)
Definition write_file_excl (p s : string) : M unit :=
  let* w := get_world in
  if is_faulty p (fs w) || file_exists p (fs w)
  then throw (Exception ("Cannot open file " +:+ p) CANNOT_OPEN_FILE)
  else modify (set_files (files (fs w) ++ [(p, s)])).

(** [Poco::File(p).remove()] *)
Definition File_remove (p : string) : M unit :=
  let* w := get_world in
  if is_faulty p (fs w) || negb (file_exists p (fs w))
  then throw (PocoException ("Cannot remove " +:+ p))
  else modify (set_files (filter (λ e, fst e ≠ p) (files (fs w)))).

(** [Poco::File(src).renameTo(dst)]: [rename(2)], which replaces [dst]. *)
Definition File_renameTo (src dst : string) : M unit :=
  let* w := get_world in
  if is_faulty src (fs w) || is_faulty dst (fs w) || negb (file_exists src (fs w))
  then throw (PocoException ("Cannot rename " +:+ src))
  else modify (set_files
         (map (λ e, if String.eqb (fst e) src then (dst, snd e) else e)
              (filter (λ e, fst e ≠ dst) (files (fs w))))).

(** The names a [Poco::DirectoryIterator] over [dir] yields: what stands
    directly under [dir], in directory order. A file deeper down shows
    the subdirectory it lies in, which the iterator yields once. *)
Definition entry_name (dir : string) (e : string * string) : option string :=
  let prefix := dir +:+ "/" in
  if String.prefix prefix (fst e)
  then let nm := String.substring (String.length prefix)
                   (String.length (fst e) - String.length prefix) (fst e) in
       match String.index 0 "/" nm with
       | Some i => Some (String.substring 0 i nm)
       | None => Some nm
       end
  else None.

Definition directory_entries (dir : string) (f : FileSystem) : list string :=
  remove_dups (omap (entry_name dir) (files f)).

(** ** AST objects behind [ASTPtr] *)

(** [*p]; a pointer to no object is undefined behaviour. *)
Definition deref (p : ASTPtr) : M ASTCreateQuery :=
  λ w, match asts w !! p with
       | Some a => (Ok a, w)
       | None => (Undefined, w)
       end.

(** A new object; its address is the next free one. *)
Definition new_ast (a : ASTCreateQuery) : M ASTPtr :=
  λ w, (Ok (length (asts w)), set_asts (asts w ++ [a]) w).

(** An assignment through the reference [*p]. *)
Definition update_ast (p : ASTPtr) (f : ASTCreateQuery → ASTCreateQuery) : M unit :=
  let* a := deref p in
  modify (λ w, set_asts (<[p := f a]> (asts w)) w).

(** [query->clone()] *)
Definition clone (query : ASTPtr) : M ASTPtr :=
  let* a := deref query in
  new_ast a.

Definition set_attach (b : bool) (a : ASTCreateQuery) : ASTCreateQuery :=
  {| attach := b; if_not_exists := if_not_exists a; is_populate := is_populate a;
     database := database a; table := table a; as_database := as_database a;
     as_table := as_table a; select := select a; definition := definition a |}.

Definition set_if_not_exists (b : bool) (a : ASTCreateQuery) : ASTCreateQuery :=
  {| attach := attach a; if_not_exists := b; is_populate := is_populate a;
     database := database a; table := table a; as_database := as_database a;
     as_table := as_table a; select := select a; definition := definition a |}.

Definition set_is_populate (b : bool) (a : ASTCreateQuery) : ASTCreateQuery :=
  {| attach := attach a; if_not_exists := if_not_exists a; is_populate := b;
     database := database a; table := table a; as_database := as_database a;
     as_table := as_table a; select := select a; definition := definition a |}.

Definition set_database (s : string) (a : ASTCreateQuery) : ASTCreateQuery :=
  {| attach := attach a; if_not_exists := if_not_exists a; is_populate := is_populate a;
     database := s; table := table a; as_database := as_database a;
     as_table := as_table a; select := select a; definition := definition a |}.

Definition set_as_database (s : string) (a : ASTCreateQuery) : ASTCreateQuery :=
  {| attach := attach a; if_not_exists := if_not_exists a; is_populate := is_populate a;
     database := database a; table := table a; as_database := s;
     as_table := as_table a; select := select a; definition := definition a |}.

Definition set_as_table (s : string) (a : ASTCreateQuery) : ASTCreateQuery :=
  {| attach := attach a; if_not_exists := if_not_exists a; is_populate := is_populate a;
     database := database a; table := table a; as_database := as_database a;
     as_table := s; select := select a; definition := definition a |}.

Definition set_select (s : option string) (a : ASTCreateQuery) : ASTCreateQuery :=
  {| attach := attach a; if_not_exists := if_not_exists a; is_populate := is_populate a;
     database := database a; table := table a; as_database := as_database a;
     as_table := as_table a; select := s; definition := definition a |}.

Definition set_table (s : string) (a : ASTCreateQuery) : ASTCreateQuery :=
  {| attach := attach a; if_not_exists := if_not_exists a; is_populate := is_populate a;
     database := database a; table := s; as_database := as_database a;
     as_table := as_table a; select := select a; definition := definition a |}.

(** ** Collaborators *)

(** What the file calls and does not define: the file-name escaping, the
    parser and the formatter of CREATE statements, the interpreter that
    builds a table from an ATTACH statement and registers it, and the
    two texts an exception can print. *)
Record Environment := {
  escapeForFileName : string → string;
  parseQuery : string → string → exception + ASTCreateQuery;
  formatAST : ASTCreateQuery → string;
  executeLoadExisting :
    ASTCreateQuery → Tables → FileSystem → option exception * (Tables * FileSystem);
  displayText : exception → string;
  getStackTrace : exception → string;
}.

(** ** The iterator over a copy of the table map *)

(** A [Tables::iterator]: singular when default-constructed, otherwise a
    position in the map's key order ([end()] is the number of entries). *)
Inductive MapIterator :=
  | singular
  | position (i : nat).

(** The entries of a [std::map], in the order of its keys. *)
Definition key_le (a b : string * StoragePtr) : Prop := string_le (fst a) (fst b).

#[global] Instance key_le_dec : RelDecision key_le.
Proof. intros a b. unfold key_le. apply _. Defined.

Definition entries (m : Tables) : list (string * StoragePtr) :=
  merge_sort key_le (map_to_list m).

Module DatabaseOrdinaryIterator.

Record t := {
  tables : Tables;
  it : MapIterator;
}.

(** [DatabaseOrdinaryIterator(Tables & tables_) : tables(tables_) {}] *)
Definition make (tables_ : Tables) : t :=
  {| tables := tables_; it := singular |}.

(** [++it] *)
Definition next (self : t) : Res t :=
  match it self with
  | singular => Undefined
  | position i =>
      if (i <? length (entries (tables self)))%nat
      then Ok {| tables := tables self; it := position (S i) |}
      else Undefined
  end.

(** [it != tables.end()] *)
Definition isValid (self : t) : Res bool :=
  match it self with
  | singular => Undefined
  | position i => Ok (negb (i =? length (entries (tables self)))%nat)
  end.

(** [it->first] *)
Definition name (self : t) : Res string :=
  match it self with
  | singular => Undefined
  | position i =>
      match entries (tables self) !! i with
      | Some e => Ok (fst e)
      | None => Undefined
      end
  end.

(** [it->second] *)
Definition table (self : t) : Res StoragePtr :=
  match it self with
  | singular => Undefined
  | position i =>
      match entries (tables self) !! i with
      | Some e => Ok (snd e)
      | None => Undefined
      end
  end.

(** What a consumer sees: the loop
    [for (; it->isValid(); it->next()) use(it->name(), it->table());]
    run for at most [fuel] rounds. *)
Fixpoint yielded (fuel : nat) (self : t) : Res (list (string * StoragePtr)) :=
  match fuel with
  | O => Ok []
  | S fuel' =>
      match isValid self with
      | Ok false => Ok []
      | Ok true =>
          match name self, table self, next self with
          | Ok n, Ok h, Ok self' =>
              match yielded fuel' self' with
              | Ok l => Ok ((n, h) :: l)
              | r => r
              end
          | _, _, _ => Undefined
          end
      | Throw e => Throw e
      | Undefined => Undefined
      end
  end.

End DatabaseOrdinaryIterator.

(** ** The translation unit *)

Definition PRINT_MESSAGE_EACH_N_TABLES : nat := 256.
Definition PRINT_MESSAGE_EACH_N_SECONDS : nat := 5.
Definition METADATA_FILE_BUFFER_SIZE : N := 32768%N.
Definition TABLES_PARALLEL_LOAD_BUNCH_SIZE : nat := 100.

(** The shared state of a [std::packaged_task<void()>]: not yet run to
    its end, ended with a value, or ended with a stored exception. *)
Inductive future :=
  | not_ready
  | has_value
  | has_exception (e : exception).

#[global] Instance future_eq_dec : EqDecision future.
Proof. solve_decision. Defined.

(** One bunch: the iterator [it] of the loop in [task_function], its
    bound, and the shared state. Iterators are indices into [tables]. *)
Record Task := {
  task_it : nat;
  task_end : nat;
  task_state : future;
}.

Section DatabaseOrdinary.

Context (env : Environment).

(** The members [name] and [path] of the database object. *)
Context (name path : string).

(** [catch (const Exception & e)]: a handler for [DB::Exception] only. *)
Definition try_catch_Exception {A} (body : M A) (handler : exception → M A) : M A :=
  λ w, match body w with
       | (Throw (Exception msg code), w') => handler (Exception msg code) w'
       | r => r
       end.

(** [interpreter.executeLoadExisting()] on the table map and the files. *)
Definition interpret (a : ASTCreateQuery) : M unit :=
  λ w, match executeLoadExisting env a (tables w) (fs w) with
       | (None, (t, f)) => (Ok tt, set_fs f (set_tables t w))
       | (Some e, (t, f)) => (Throw e, set_fs f (set_tables t w))
       end.

Definition executeCreateQuery (query database file_name : string) : M unit :=
  match parseQuery env query ("in file " +:+ file_name) with
  | inl e => throw e
  | inr parsed =>
      let* ast := new_ast parsed in
      do update_ast ast (set_attach true) in
      do update_ast ast (set_database database) in
      let* ast_create_query := deref ast in
      interpret ast_create_query
  end.

Definition loadTable (path database table_escaped : string) : M unit :=
  do modify (log_load table_escaped) in
  let path_to_metadata := path +:+ "/" +:+ table_escaped in
  let* s := read_file path_to_metadata in
  if String.eqb s ""
  then File_remove path_to_metadata
  else
    try_catch_Exception
      (executeCreateQuery s database path_to_metadata)
      (λ e, throw (Exception
               ("Cannot create table from metadata file " +:+ path_to_metadata
                +:+ ", error: " +:+ displayText env e
                +:+ ", stack trace:" +:+ newline +:+ getStackTrace env e)
               CANNOT_CREATE_TABLE_FROM_METADATA)).

(** *** The constructor *)

(** The loop over the directory iterator. *)
Fixpoint scan_directory (dir_entries file_names : list string) : M (list string) :=
  match dir_entries with
  | [] => ret file_names
  | dir_it_name :: rest =>
      let* c := at0 dir_it_name in
      if Ascii.eqb c "."%char then scan_directory rest file_names
      else if endsWith dir_it_name ".sql.bak" then scan_directory rest file_names
      else if endsWith dir_it_name ".sql.tmp" then
        do File_remove (path +:+ "/" +:+ dir_it_name) in
        scan_directory rest file_names
      else if endsWith dir_it_name ".sql" then
        scan_directory rest (file_names ++ [dir_it_name])
      else
        throw (Exception
                 ("Incorrect file extension: " +:+ dir_it_name
                  +:+ " in metadata directory " +:+ path)
                 INCORRECT_FILE_NAME)
  end.

(** The loop that fills [tables_to_load_first] and [tables]. *)
Definition split_tables (file_names : list string) : list string * list string :=
  foldl (λ acc file_name,
           if is_inner file_name
           then (fst acc ++ [file_name], snd acc)
           else (fst acc, snd acc ++ [file_name]))
        ([], []) file_names.

(** [for (const auto & table : tables_to_load_first) loadTable(...)] *)
Fixpoint load_first (tables_to_load_first : list string) : M unit :=
  match tables_to_load_first with
  | [] => ret tt
  | table :: rest =>
      do loadTable path name table in
      load_first rest
  end.

(** One round of the loop in [task_function], or its exit; an exception
    of [loadTable] ends the task and is kept in the shared state. *)
Definition task_step (tables : list string) (t : Task) : M Task :=
  match task_state t with
  | not_ready =>
      if (task_it t =? task_end t)%nat
      then ret {| task_it := task_it t; task_end := task_end t; task_state := has_value |}
      else
        match tables !! task_it t with
        | None => undefined
        | Some table =>
            λ w, match loadTable path name table w with
                 | (Ok _, w') =>
                     (Ok {| task_it := S (task_it t); task_end := task_end t;
                            task_state := not_ready |}, w')
                 | (Throw e, w') =>
                     (Ok {| task_it := task_it t; task_end := task_end t;
                            task_state := has_exception e |}, w')
                 | (Undefined, w') => (Undefined, w')
                 end
        end
  | _ => ret t
  end.

Fixpoint task_steps (n : nat) (tables : list string) (t : Task) : M Task :=
  match n with
  | O => ret t
  | S n' =>
      let* t' := task_step tables t in
      task_steps n' tables t'
  end.

(** [tasks[i]()]: the task runs until its shared state is set. *)
Definition task_call (tables : list string) (t : Task) : M Task :=
  task_steps (S (task_end t - task_it t)) tables t.

(** The tasks of the loop [for (size_t i = 0; i < num_bunches; ++i)]. *)
Definition make_tasks (total_tables : nat) : list Task :=
  let bunch_size := TABLES_PARALLEL_LOAD_BUNCH_SIZE in
  let num_bunches := (total_tables + bunch_size - 1) `div` bunch_size in
  map (λ i, {| task_it := i * bunch_size;
               task_end := if (i + 1 =? num_bunches)%nat
                           then total_tables
                           else (i + 1) * bunch_size;
               task_state := not_ready |})
      (seq 0 num_bunches).

(** Every task called in index order: the loop body [tasks[i]()] when
    there is no pool, and what [thread_pool->wait()] waits for when
    there is one (a task whose state is set does nothing more). *)
Fixpoint call_all (tables : list string) (tasks : list Task) : M (list Task) :=
  match tasks with
  | [] => ret []
  | t :: rest =>
      let* t' := task_call tables t in
      let* rest' := call_all tables rest in
      ret (t' :: rest')
  end.

(** The pool's workers: task [i] of the schedule makes one step. *)
Fixpoint pool_run (schedule : list nat) (tables : list string) (tasks : list Task)
  : M (list Task) :=
  match schedule with
  | [] => ret tasks
  | i :: schedule' =>
      match tasks !! i with
      | None => pool_run schedule' tables tasks
      | Some t =>
          let* t' := task_step tables t in
          pool_run schedule' tables (<[i := t']> tasks)
      end
  end.

(** Scheduling and running the tasks, up to the return of [wait()]. *)
Definition run_tasks (thread_pool : option (list nat)) (tables : list string)
    (tasks : list Task) : M (list Task) :=
  match thread_pool with
  | None => call_all tables tasks
  | Some schedule =>
      let* tasks' := pool_run schedule tables tasks in
      call_all tables tasks'
  end.

(** [for (auto & task : tasks) task.get_future().get();] *)
Fixpoint get_futures (tasks : list Task) : M unit :=
  match tasks with
  | [] => ret tt
  | task :: rest =>
      match task_state task with
      | has_value => get_futures rest
      | has_exception e => throw e
      | not_ready => undefined
      end
  end.

(** [DatabaseOrdinary::DatabaseOrdinary(name_, path_, context, thread_pool)];
    a null [thread_pool] is [None]. The member [tables] of the new object
    starts empty. *)
Definition DatabaseOrdinary (thread_pool : option (list nat)) : M unit :=
  do modify (set_tables ∅) in
  let* w := get_world in
  let* file_names := scan_directory (directory_entries path (fs w)) [] in
  let file_names := sort_names file_names in
  let '(tables_to_load_first, tables) := split_tables file_names in
  let total_tables := length tables in
  do load_first tables_to_load_first in
  let* tasks := run_tasks thread_pool tables (make_tasks total_tables) in
  get_futures tasks.

(** *** Reads *)

Definition isTableExist (table_name : string) : M bool :=
  let* w := get_world in
  ret (bool_decide (is_Some (tables w !! table_name))).

Definition tryGetTable (table_name : string) : M StoragePtr :=
  let* w := get_world in
  match tables w !! table_name with
  | None => ret nullptr
  | Some t => ret t
  end.

Definition getIterator : M DatabaseOrdinaryIterator.t :=
  let* w := get_world in
  ret (DatabaseOrdinaryIterator.make (tables w)).

Definition empty : M bool :=
  let* w := get_world in
  ret (bool_decide (tables w = ∅)).

(** *** Writes *)

(** [tables.emplace(table_name, table).second] *)
Definition emplace (table_name : string) (table : StoragePtr) : M bool :=
  let* w := get_world in
  match tables w !! table_name with
  | Some _ => ret false
  | None =>
      do modify (set_tables (<[table_name := table]> (tables w))) in
      ret true
  end.

Definition attachTable (table_name : string) (table : StoragePtr) : M unit :=
  let* inserted := emplace table_name table in
  if negb inserted
  then throw (Exception ("Table " +:+ name +:+ "." +:+ table_name +:+ " already exists.")
                        TABLE_ALREADY_EXISTS)
  else ret tt.

Definition createTable (table_name : string) (table : StoragePtr)
    (query : ASTPtr) (engine : string) : M unit :=
  let* query_clone := clone query in
  let create := query_clone in
  let* w := get_world in
  if bool_decide (is_Some (tables w !! table_name))
  then throw (Exception ("Table " +:+ name +:+ "." +:+ table_name +:+ " already exists.")
                        TABLE_ALREADY_EXISTS)
  else
    do update_ast create (set_attach true) in
    do update_ast create (set_database "") in
    do update_ast create (set_as_database "") in
    do update_ast create (set_as_table "") in
    do update_ast create (set_if_not_exists false) in
    do update_ast create (set_is_populate false) in
    do (if negb (String.eqb engine "View") && negb (String.eqb engine "MaterializedView")
        then update_ast create (set_select None)
        else ret tt) in
    let* sanitized := deref create in
    let statement := formatAST env sanitized +:+ newline in
    let table_name_escaped := escapeForFileName env table_name in
    let table_metadata_tmp_path := path +:+ "/" +:+ table_name_escaped +:+ ".sql.tmp" in
    let table_metadata_path := path +:+ "/" +:+ table_name_escaped in
    do write_file_excl table_metadata_tmp_path statement in
    try_catch
      (let* inserted := emplace table_name table in
       do (if negb inserted
           then throw (Exception
                         ("Table " +:+ name +:+ "." +:+ table_name +:+ " already exists.")
                         TABLE_ALREADY_EXISTS)
           else ret tt) in
       File_renameTo table_metadata_tmp_path table_metadata_path)
      (λ e,
         do File_remove table_metadata_tmp_path in
         throw e).

Definition detachTable (table_name : string) : M StoragePtr :=
  let* w := get_world in
  match tables w !! table_name with
  | None =>
      throw (Exception ("Table " +:+ name +:+ "." +:+ table_name +:+ " doesn't exist.")
                       TABLE_ALREADY_EXISTS)
  | Some res =>
      do modify (set_tables (delete table_name (tables w))) in
      ret res
  end.

Definition removeTable (table_name : string) : M StoragePtr :=
  let* res := detachTable table_name in
  let table_name_escaped := escapeForFileName env table_name in
  let table_metadata_path := path +:+ "/" +:+ table_name_escaped in
  do try_catch
       (File_remove table_metadata_path)
       (λ e,
          do attachTable table_name res in
          throw e) in
  ret res.

(** [table.second->shutdown()] *)
Definition call_shutdown (t : StoragePtr) : M unit :=
  match t with
  | nullptr => undefined
  | Storage _ => modify (log_shutdown t)
  end.

Fixpoint shutdown_each (l : list (string * StoragePtr)) : M unit :=
  match l with
  | [] => ret tt
  | table :: rest =>
      do call_shutdown (snd table) in
      shutdown_each rest
  end.

Definition shutdown : M unit :=
  let* w := get_world in
  do shutdown_each (entries (tables w)) in
  modify (set_tables ∅).

End DatabaseOrdinary.

(** ** Reading a definition back *)

Section getCreateQuery.

Context (env : Environment).

(** The members [name] and [path] of the database object. *)
Context (name path : string).

(** [static ASTPtr getCreateQueryImpl(const String & path, const String & table_name)] *)
Definition getCreateQueryImpl (path table_name : string) : M ASTPtr :=
  let table_name_escaped := escapeForFileName env table_name in
  let table_metadata_path := path +:+ "/" +:+ table_name_escaped in
  let* query := read_file table_metadata_path in
  match parseQuery env query ("in file " +:+ table_metadata_path) with
  | inl e => throw e
  | inr parsed => new_ast parsed
  end.

Definition getCreateQuery (table_name : string) : M ASTPtr :=
  let* ast := getCreateQueryImpl path table_name in
  let ast_create_query := ast in
  do update_ast ast_create_query (set_attach false) in
  do update_ast ast_create_query (set_database name) in
  ret ast.

End getCreateQuery.

(** ** Renaming a table *)

(** What [renameTable] calls on the table object; neither is defined in
    this translation unit. *)
Record StorageCalls := {
  IStorage_rename : StoragePtr → string → string → string → option exception;
  IStorage_getName : StoragePtr → string;
}.

(** [Exception{e}] for a caught [const Poco::Exception & e]: a
    [DB::Exception] with the text of [e] as its message and no code. *)
Definition Exception_from_Poco (env : Environment) (e : exception) : exception :=
  Exception (displayText env e) ZERO.

(** The argument [IDatabase & to_database]: a database of another
    engine, this very object, or another [DatabaseOrdinary] object with
    its members [name], [path] and [tables]. *)
Inductive IDatabase :=
  | other_engine
  | this_database
  | ordinary (to_name to_path : string) (to_tables : Tables).

(** [catch (const Poco::Exception &)] catches [DB::Exception] as well,
    which derives from it. *)
Definition is_Poco_Exception (e : exception) : bool :=
  match e with
  | Exception _ _ | PocoException _ => true
  | out_of_range => false
  end.

Section renameTable.

Context (env : Environment) (calls : StorageCalls).

(** The members [name] and [path] of the database object. *)
Context (name path : string).

(** [typeid_cast<DatabaseOrdinary *>(&to_database)]: the members [name]
    and [path] behind the pointer, [None] for the null pointer. *)
Definition to_database_concrete (to_database : IDatabase) : option (string * string) :=
  match to_database with
  | other_engine => None
  | this_database => Some (name, path)
  | ordinary to_name to_path _ => Some (to_name, to_path)
  end.

(** [to_database_concrete->createTable(...)]: the member function run
    on the member [tables] of that object, which is the map of this
    database when the object is this one. *)
Definition to_database_createTable (to_database : IDatabase) (table_name : string)
    (table : StoragePtr) (query : ASTPtr) (engine : string)
  : World → Res unit * (World * IDatabase) :=
  λ w, match to_database with
       | other_engine => (Undefined, (w, to_database))
       | this_database =>
           let '(r, w') := createTable env name path table_name table query engine w in
           (r, (w', this_database))
       | ordinary to_name to_path to_tables =>
           let '(r, w') := createTable env to_name to_path table_name table query engine
                             (set_tables to_tables w) in
           (r, (set_tables (tables w) w', ordinary to_name to_path (tables w')))
       end.

(** The statements of [renameTable] between the cast and the call of
    [createTable]: the lookup, the notification of the table, and the
    definition read back with the new name. *)
Definition renameTable_prepare (table_name to_name to_table_name : string)
  : M (StoragePtr * ASTPtr) :=
  let* table := tryGetTable table_name in
  match table with
  | nullptr =>
      throw (Exception ("Table " +:+ name +:+ "." +:+ table_name +:+ " doesn't exist.")
                       TABLE_ALREADY_EXISTS)
  | Storage _ =>
      do (match IStorage_rename calls table
                  (path +:+ "data/" +:+ escapeForFileName env to_name +:+ "/")
                  to_name to_table_name with
          | None => ret tt
          | Some e =>
              if is_Poco_Exception e then throw (Exception_from_Poco env e) else throw e
          end) in
      let* ast := getCreateQueryImpl env path table_name in
      let ast_create_query := ast in
      do update_ast ast_create_query (set_table to_table_name) in
      ret (table, ast)
  end.

(** [renameTable]: the world and the object behind [to_database] after
    the call. *)
Definition renameTable (table_name : string) (to_database : IDatabase)
    (to_table_name : string) : World → Res unit * (World * IDatabase) :=
  λ w,
    match to_database_concrete to_database with
    | None =>
        (Throw (Exception
                  "Moving tables between databases of different engines is not supported"
                  NOT_IMPLEMENTED),
         (w, to_database))
    | Some (to_name, _) =>
        match renameTable_prepare table_name to_name to_table_name w with
        | (Ok (table, ast), w1) =>
            match to_database_createTable to_database to_table_name table ast
                    (IStorage_getName calls table) w1 with
            | (Ok _, (w2, to_database')) =>
                match removeTable env name path table_name w2 with
                | (Ok _, w3) => (Ok tt, (w3, to_database'))
                | (Throw e, w3) => (Throw e, (w3, to_database'))
                | (Undefined, w3) => (Undefined, (w3, to_database'))
                end
            | (Throw e, s) => (Throw e, s)
            | (Undefined, s) => (Undefined, s)
            end
        | (Throw e, w1) => (Throw e, (w1, to_database))
        | (Undefined, w1) => (Undefined, (w1, to_database))
        end
    end.

End renameTable.

(** ** A concrete instance, for running the model *)

(** Collaborators small enough to compute with: names are their own
    escaping, a statement is [ATTACH TABLE <name>] or [CREATE TABLE <name>]
    plus an optional [ AS <select>], and the interpreter registers the
    table under its name unless the name is taken. *)
Definition plain_env : Environment := {|
  escapeForFileName := λ s, s;
  parseQuery := λ query description,
    if String.prefix "ATTACH TABLE " query
    then inr {| attach := true; if_not_exists := false; is_populate := false;
                database := "";
                table := String.substring 13 (String.length query - 13) query;
                as_database := ""; as_table := ""; select := None; definition := "" |}
    else inl (Exception ("Syntax error " +:+ description) NOT_IMPLEMENTED);
  formatAST := λ a,
    (if attach a then "ATTACH TABLE " else "CREATE TABLE ") +:+ table a
    +:+ match select a with Some s => " AS " +:+ s | None => "" end;
  executeLoadExisting := λ a t f,
    match t !! table a with
    | Some _ => (Some (Exception ("Table " +:+ table a +:+ " already exists.")
                                 TABLE_ALREADY_EXISTS), (t, f))
    | None => (None, (<[table a := Storage (String.length (table a))]> t, f))
    end;
  displayText := λ e,
    match e with
    | Exception m _ => "DB::Exception: " +:+ m
    | PocoException m => "Poco::Exception: " +:+ m
    | out_of_range => "std::out_of_range"
    end;
  getStackTrace := λ _, "";
|}.

(** The same collaborators with a parser that wants the statement as
    [createTable] writes it, ended by a newline. *)
Definition line_env : Environment := {|
  escapeForFileName := escapeForFileName plain_env;
  parseQuery := λ query description,
    if String.prefix "ATTACH TABLE " query && endsWith query newline
    then inr {| attach := true; if_not_exists := false; is_populate := false;
                database := "";
                table := String.substring 13 (String.length query - 14) query;
                as_database := ""; as_table := ""; select := None; definition := "" |}
    else inl (Exception ("Syntax error " +:+ description) NOT_IMPLEMENTED);
  formatAST := formatAST plain_env;
  executeLoadExisting := executeLoadExisting plain_env;
  displayText := displayText plain_env;
  getStackTrace := getStackTrace plain_env;
|}.

(** Tables of the engine [Log] that accept every new name but the
    empty one. *)
Definition plain_calls : StorageCalls := {|
  IStorage_rename := λ _ _ _ new_table_name,
    if String.eqb new_table_name ""
    then Some (PocoException "Cannot rename the data directory")
    else None;
  IStorage_getName := λ _, "Log";
|}.

(** The same collaborators with an interpreter that fails on every
    table with an exception of [Poco::File]. *)
Definition io_error_env : Environment := {|
  escapeForFileName := escapeForFileName plain_env;
  parseQuery := parseQuery plain_env;
  formatAST := formatAST plain_env;
  executeLoadExisting := λ a t f,
    (Some (PocoException "Cannot create the data directory"), (t, f));
  displayText := displayText plain_env;
  getStackTrace := getStackTrace plain_env;
|}.

(** A world with the given table map, metadata files and faulty paths. *)
Definition world_of (t : Tables) (l : list (string * string)) (bad : list string)
    (a : list ASTCreateQuery) : World :=
  {| tables := t; fs := {| files := l; faulty := list_to_set bad |};
     asts := a; shutdown_calls := []; load_calls := [] |}.

(** [CREATE TABLE IF NOT EXISTS d.t AS x.y ... POPULATE AS SELECT 1] *)
Definition sample_query : ASTCreateQuery :=
  {| attach := false; if_not_exists := true; is_populate := true;
     database := "d"; table := "t"; as_database := "x"; as_table := "y";
     select := Some "SELECT 1"; definition := "" |}.

(** A directory of 150 descriptors [t000.sql] ... [t149.sql], two bunches
    of the normal group; those numbered 5 and 120 do not parse. *)
Definition digit (n : nat) : string := String (ascii_of_nat (48 + n)) "".

Definition numbered (i : nat) : string :=
  "t" +:+ digit (i `div` 100) +:+ digit ((i `div` 10) `mod` 10) +:+ digit (i `mod` 10).

Definition two_bunches : list (string * string) :=
  (λ i, ("/m/" +:+ numbered i +:+ ".sql",
         if bool_decide (i = 5 ∨ i = 120) then "CREATE TABLE"
         else "ATTACH TABLE " +:+ numbered i))
  <$> seq 0 150.

(** ** Vocabulary of the statements *)

(** [frames R m]: whatever [m] does and however it ends, the world after
    it is [R]-related to the world before. *)
Definition frames (R : relation World) {A} (m : M A) : Prop :=
  ∀ w, R w (snd (m w)).

(** The call log is written by [loadTable] alone. *)
Definition same_load_calls : relation World :=
  λ w w', load_calls w' = load_calls w.

(** No file has appeared: what exists afterwards existed before. *)
Definition no_new_files : relation World :=
  λ w w', ∀ p, file_exists p (fs w') = true → file_exists p (fs w) = true.

(** The statement [createTable] persists, in the spec's words: the
    definition in attach form, with the flags and the source and target
    references cleared, and the SELECT kept for the view engines only. *)
Definition attach_form (engine : string) (q : ASTCreateQuery) : ASTCreateQuery :=
  {| attach := true; if_not_exists := false; is_populate := false;
     database := ""; table := table q; as_database := ""; as_table := "";
     select := if negb (String.eqb engine "View")
                  && negb (String.eqb engine "MaterializedView")
               then None else select q;
     definition := definition q |}.

(** The entries of the metadata directory, as the constructor sorts
    them: a name that starts with a dot is hidden; a visible name is a
    descriptor ([.sql]), a stale temporary file ([.sql.tmp]), a backup
    ([.sql.bak]), or none of these. *)
Definition hidden (nm : string) : bool :=
  match nm with
  | String c _ => Ascii.eqb c "."%char
  | EmptyString => false
  end.

Definition is_descriptor (nm : string) : bool :=
  negb (hidden nm) && endsWith nm ".sql".

Definition is_stale (nm : string) : bool :=
  negb (hidden nm) && endsWith nm ".sql.tmp".

Definition is_rejected (nm : string) : bool :=
  negb (hidden nm) && negb (endsWith nm ".sql") && negb (endsWith nm ".sql.bak")
  && negb (endsWith nm ".sql.tmp").

(** The paths of the stale temporary files of a directory. *)
Definition stale_paths (path : string) (dir_entries : list string) : list string :=
  (λ nm, path +:+ "/" +:+ nm) <$> filter (λ nm, is_stale nm = true) dir_entries.

Fixpoint last_char (s : string) : option ascii :=
  match s with
  | EmptyString => None
  | String c EmptyString => Some c
  | String _ s' => last_char s'
  end.

(** How one entry is sorted, and what the loop does with it. *)
Inductive entry_kind (nm : string) : Prop :=
  | kind_skipped :
      is_descriptor nm = false → is_stale nm = false → is_rejected nm = false →
      (hidden nm = true ∨ endsWith nm ".sql.bak" = true) → entry_kind nm
  | kind_stale :
      is_descriptor nm = false → is_stale nm = true → is_rejected nm = false →
      entry_kind nm
  | kind_descriptor :
      is_descriptor nm = true → is_stale nm = false → is_rejected nm = false →
      entry_kind nm
  | kind_rejected :
      is_descriptor nm = false → is_stale nm = false → is_rejected nm = true →
      entry_kind nm.

(** The stale temporary files can be removed: they are there, under
    distinct names, and their paths are not faulty. *)
Definition removable (path : string) (dir_entries : list string) (f : FileSystem) : Prop :=
  ∀ nm, nm ∈ dir_entries → is_stale nm = true →
        is_faulty (path +:+ "/" +:+ nm) f = false
        ∧ file_exists (path +:+ "/" +:+ nm) f = true.

(** [returns m w Q]: run on [w], [m] returns normally, with a value and
    a world that satisfy [Q]. *)
Definition returns {A} (m : M A) (w : World) (Q : A → World → Prop) : Prop :=
  ∃ a w', m w = (Ok a, w') ∧ Q a w'.

(** The call log has grown by calls for names of [tables] only. *)
Definition loads_of (tables : list string) : relation World :=
  λ w w', ∃ l, load_calls w' = load_calls w ++ l ∧ Forall (λ x, x ∈ tables) l.

(** The bounds of a task lie within the vector [tables]. *)
Definition task_bounds (tables : list string) (t : Task) : Prop :=
  task_it t ≤ task_end t ∧ task_end t ≤ length tables.

(** A task whose shared state is set has run to its end: with a value
    the loop has passed every table of the bunch; with an exception the
    loop stopped at the table whose [loadTable] threw it. *)
Definition task_finished (env : Environment) (name path : string)
    (tables : list string) (t : Task) : Prop :=
  match task_state t with
  | not_ready => False
  | has_value => task_it t = task_end t
  | has_exception e =>
      task_it t < task_end t
      ∧ ∃ table w w', tables !! task_it t = Some table
                      ∧ loadTable env path name table w = (Throw e, w')
  end.

(** What every state of a task satisfies. *)
Definition task_inv (env : Environment) (name path : string)
    (tables : list string) (t : Task) : Prop :=
  task_bounds tables t
  ∧ (task_state t = not_ready ∨ task_finished env name path tables t).

(** [t'] is a later state of the task [t]. *)
Definition task_later (t t' : Task) : Prop :=
  task_end t' = task_end t
  ∧ task_it t ≤ task_it t'
  ∧ (task_state t ≠ not_ready → t' = t).

(** The tables of a bunch: the range of [tables] between the iterators
    a task is created with. *)
Definition bunch (tables : list string) (t : Task) : list string :=
  take (task_end t - task_it t) (drop (task_it t) tables).

(** Tasks whose ranges follow each other from [a] to [b]. *)
Fixpoint chained (a : nat) (ts : list Task) (b : nat) : Prop :=
  match ts with
  | [] => a = b
  | t :: ts' => task_it t = a ∧ a ≤ task_end t ∧ chained (task_end t) ts' b
  end.

(** How far a task has come: the index after the last table it has
    called [loadTable] for. *)
Definition progress (t : Task) : nat :=
  task_it t + match task_state t with has_exception _ => 1 | _ => 0 end.

(** The tables a task has called [loadTable] for between two of its
    states. *)
Definition attempted (tables : list string) (t t' : Task) : list string :=
  take (progress t' - progress t) (drop (progress t) tables).

(** What a task that was created for a bunch has done when its state is
    set. With a value it has called [loadTable] for the whole bunch, in
    order. With an exception it has called it for the tables of the
    bunch up to one whose [loadTable] threw that exception, and for no
    table after it. *)
Definition task_outcome (env : Environment) (name path : string)
    (tables : list string) (t t' : Task) : Prop :=
  match task_state t' with
  | not_ready => False
  | has_value => attempted tables t t' = bunch tables t
  | has_exception e =>
      ∃ k table w w',
        bunch tables t !! k = Some table
        ∧ attempted tables t t' = take k (bunch tables t) ++ [table]
        ∧ loadTable env path name table w = (Throw e, w')
  end.

(** * Properties *)

(** ** Worlds and the monad *)

Lemma World_eta (w : World) :
  {| tables := tables w; fs := fs w; asts := asts w;
     shutdown_calls := shutdown_calls w; load_calls := load_calls w |} = w.
Proof. by destruct w. Qed.

Lemma FileSystem_eta (f : FileSystem) :
  {| files := files f; faulty := faulty f |} = f.
Proof. by destruct f. Qed.

Lemma set_tables_same (w : World) : set_tables (tables w) w = w.
Proof. apply World_eta. Qed.

Lemma set_tables_twice (t1 t2 : Tables) (w : World) :
  set_tables t2 (set_tables t1 w) = set_tables t2 w.
Proof. done. Qed.

Ltac unfold_monad :=
  unfold bind, ret, throw, undefined, try_catch, get_world, modify in *.

(** A file-system call that throws has changed nothing. *)
Lemma File_remove_Throw p e w w' :
  File_remove p w = (Throw e, w') → w' = w.
Proof.
  unfold File_remove. unfold_monad.
  destruct (is_faulty p (fs w) || negb (file_exists p (fs w))); congruence.
Qed.

Lemma File_remove_Ok p w w' :
  File_remove p w = (Ok (), w') →
  w' = set_files (filter (λ e, fst e ≠ p) (files (fs w))) w
  ∧ is_faulty p (fs w) = false ∧ file_exists p (fs w) = true.
Proof.
  unfold File_remove. unfold_monad.
  destruct (is_faulty p (fs w)); simpl; [congruence|].
  destruct (file_exists p (fs w)); simpl; [|congruence].
  intros [= <-]. done.
Qed.

Lemma File_remove_defined p w w' : File_remove p w ≠ (Undefined, w').
Proof.
  unfold File_remove. unfold_monad.
  destruct (is_faulty p (fs w) || negb (file_exists p (fs w))); congruence.
Qed.

Lemma file_exists_filter_ne p l :
  existsb (λ e : string * string, String.eqb (fst e) p) (filter (λ e, fst e ≠ p) l) = false.
Proof.
  induction l as [|e l IH]; [done|].
  rewrite filter_cons. case_decide as Hne; simpl; [|done].
  rewrite IH. apply String.eqb_neq in Hne. by rewrite Hne.
Qed.

(** ** What a computation leaves alone *)

Section frames.

Context (R : relation World) `{!PreOrder R}.

Lemma frames_ret {A} (a : A) : frames R (ret a).
Proof. intros w. reflexivity. Qed.

Lemma frames_throw {A} e : frames R (@throw A e).
Proof. intros w. reflexivity. Qed.

Lemma frames_undefined {A} : frames R (@undefined A).
Proof. intros w. reflexivity. Qed.

Lemma frames_get_world : frames R get_world.
Proof. intros w. reflexivity. Qed.

Lemma frames_modify f : (∀ w, R w (f w)) → frames R (modify f).
Proof. intros Hf w. apply Hf. Qed.

Lemma frames_bind {A B} (m : M A) (k : A → M B) :
  frames R m → (∀ a, frames R (k a)) → frames R (bind m k).
Proof.
  intros Hm Hk w. unfold bind. specialize (Hm w).
  destruct (m w) as [[a|e|] w']; simpl in *; [|done..].
  etransitivity; [apply Hm | apply Hk].
Qed.

Lemma frames_try_catch {A} (body : M A) handler :
  frames R body → (∀ e, frames R (handler e)) → frames R (try_catch body handler).
Proof.
  intros Hm Hk w. unfold try_catch. specialize (Hm w).
  destruct (body w) as [[a|e|] w']; simpl in *; [done| |done].
  etransitivity; [apply Hm | apply Hk].
Qed.

Lemma frames_try_catch_Exception {A} (body : M A) handler :
  frames R body → (∀ e, frames R (handler e)) → frames R (try_catch_Exception body handler).
Proof.
  intros Hm Hk w. unfold try_catch_Exception. specialize (Hm w).
  destruct (body w) as [[a|[msg code| |]|] w']; simpl in *; [done| |done..].
  etransitivity; [apply Hm | apply Hk].
Qed.

Lemma frames_at0 s : frames R (at0 s).
Proof. destruct s; [apply frames_throw | apply frames_ret]. Qed.

End frames.

(** Goals [frames R m] for a [m] built from the monad's operations. *)
Ltac frames_step :=
  lazymatch goal with
  | |- frames ?R (ret _) => apply (frames_ret R)
  | |- frames ?R (throw _) => apply (frames_throw R)
  | |- frames ?R undefined => apply (frames_undefined R)
  | |- frames ?R get_world => apply (frames_get_world R)
  | |- frames ?R (at0 _) => apply (frames_at0 R)
  | |- frames ?R (bind _ _) => apply (frames_bind R); [|intros ?]
  | |- frames ?R (try_catch _ _) => apply (frames_try_catch R); [|intros ?]
  | |- frames ?R (try_catch_Exception _ _) =>
      apply (frames_try_catch_Exception R); [|intros ?]
  | |- frames ?R (modify _) => apply (frames_modify R); intros ?
  | |- frames _ (if ?b then _ else _) => destruct b
  | |- frames _ (match ?x with _ => _ end) => destruct x
  end.

(** ** detachTable and attachTable *)

Section catalog_facts.

Context (name : string).

Lemma detachTable_present table_name h w :
  tables w !! table_name = Some h →
  detachTable name table_name w = (Ok h, set_tables (delete table_name (tables w)) w).
Proof. intros H. unfold detachTable. unfold_monad. by rewrite H. Qed.

Lemma detachTable_absent table_name w :
  tables w !! table_name = None →
  detachTable name table_name w
  = (Throw (Exception ("Table " +:+ name +:+ "." +:+ table_name +:+ " doesn't exist.")
                      TABLE_ALREADY_EXISTS), w).
Proof. intros H. unfold detachTable. unfold_monad. by rewrite H. Qed.

Lemma attachTable_absent table_name h w :
  tables w !! table_name = None →
  attachTable name table_name h w = (Ok (), set_tables (<[table_name := h]> (tables w)) w).
Proof. intros H. unfold attachTable, emplace. unfold_monad. by rewrite H. Qed.

Lemma attachTable_present table_name h h' w :
  tables w !! table_name = Some h' →
  attachTable name table_name h w
  = (Throw (Exception ("Table " +:+ name +:+ "." +:+ table_name +:+ " already exists.")
                      TABLE_ALREADY_EXISTS), w).
Proof. intros H. unfold attachTable, emplace. unfold_monad. by rewrite H. Qed.

End catalog_facts.

(** C9. [detachTable] on a name that is not in the map changes neither
    the map nor the files and throws, but the exception carries the code
    [TABLE_ALREADY_EXISTS], which is not the code [UNKNOWN_TABLE] of an
    absent table. *)
Theorem C9_detachTable_absent_code (name table_name : string) (w : World) :
  tables w !! table_name = None →
  detachTable name table_name w
  = (Throw (Exception ("Table " +:+ name +:+ "." +:+ table_name +:+ " doesn't exist.")
                      TABLE_ALREADY_EXISTS), w)
  ∧ TABLE_ALREADY_EXISTS ≠ UNKNOWN_TABLE.
Proof. intros H. split; [by apply detachTable_absent | discriminate]. Qed.

Lemma C9_detachTable_absent_code_witness :
  detachTable "db" "t" (world_of ∅ [] [] [])
  = (Throw (Exception ("Table " +:+ "db" +:+ "." +:+ "t" +:+ " doesn't exist.")
                      TABLE_ALREADY_EXISTS), world_of ∅ [] [] [])
  ∧ TABLE_ALREADY_EXISTS ≠ UNKNOWN_TABLE.
Proof. apply (C9_detachTable_absent_code "db" "t" (world_of ∅ [] [] [])). reflexivity. Defined.

(** C10. On a map without [n], [attachTable n h] succeeds, a following
    [detachTable n] returns exactly [h] and leaves the world as it was
    before the attach, and the log of [shutdown] calls never changes. *)
Theorem C10_attach_detach_roundtrip (name n : string) (h : StoragePtr) (w : World) :
  tables w !! n = None →
  ∃ w1, attachTable name n h w = (Ok (), w1)
        ∧ tables w1 !! n = Some h
        ∧ shutdown_calls w1 = shutdown_calls w
        ∧ detachTable name n w1 = (Ok h, w).
Proof.
  intros Hn. eexists. split; [by apply attachTable_absent|].
  split; [apply lookup_insert_eq|]. split; [done|].
  erewrite detachTable_present by apply lookup_insert_eq.
  simpl. rewrite set_tables_twice, delete_insert_id by done.
  by rewrite set_tables_same.
Qed.

Lemma C10_attach_detach_roundtrip_witness :
  ∃ w1, attachTable "db" "t" (Storage 7) (world_of {[ "u" := Storage 1 ]} [] [] []) = (Ok (), w1)
        ∧ tables w1 !! "t" = Some (Storage 7)
        ∧ shutdown_calls w1 = shutdown_calls (world_of {[ "u" := Storage 1 ]} [] [] [])
        ∧ detachTable "db" "t" w1 = (Ok (Storage 7), world_of {[ "u" := Storage 1 ]} [] [] []).
Proof.
  apply (C10_attach_detach_roundtrip "db" "t" (Storage 7)
           (world_of {[ "u" := Storage 1 ]} [] [] [])).
  reflexivity.
Defined.

(** ** removeTable *)

(** C5. For a name in the map, [removeTable] detaches the entry and then
    removes the descriptor; when the removal throws, the same exception
    leaves [removeTable] and the world is the one before the call (the
    name is bound to its original handle again, once); when the removal
    succeeds, the handle is returned and neither entry nor file is left. *)
Theorem C5_removeTable_rollback (env : Environment) (name path n : string)
    (h : StoragePtr) (w : World) :
  tables w !! n = Some h →
  let p := path +:+ "/" +:+ escapeForFileName env n in
  let detached := set_tables (delete n (tables w)) w in
  detachTable name n w = (Ok h, detached)
  ∧ (∀ e w1, File_remove p detached = (Throw e, w1) →
       removeTable env name path n w = (Throw e, w) ∧ tables w !! n = Some h)
  ∧ (∀ w1, File_remove p detached = (Ok (), w1) →
       removeTable env name path n w = (Ok h, w1)
       ∧ tables w1 !! n = None ∧ file_exists p (fs w1) = false).
Proof.
  intros Hn p detached.
  assert (Hdet : detachTable name n w = (Ok h, detached)) by by apply detachTable_present.
  split; [done|]. split.
  - intros e w1 Hrm. split; [|done].
    pose proof (File_remove_Throw _ _ _ _ Hrm) as ->.
    unfold removeTable. fold p. unfold bind at 1. rewrite Hdet.
    unfold bind at 1. unfold try_catch. rewrite Hrm.
    unfold bind at 1.
    rewrite (attachTable_absent name n h detached) by apply lookup_delete_eq.
    unfold throw. f_equal. unfold detached. simpl.
    rewrite set_tables_twice, insert_delete_id by done.
    apply set_tables_same.
  - intros w1 Hrm.
    unfold removeTable. fold p. unfold bind at 1. rewrite Hdet.
    unfold bind at 1. unfold try_catch. rewrite Hrm. split; [done|].
    apply File_remove_Ok in Hrm as (-> & _ & _). split.
    + simpl. apply lookup_delete_eq.
    + apply file_exists_filter_ne.
Qed.

Lemma C5_removeTable_rollback_witness :
  let w := world_of {[ "t" := Storage 3 ]} [("/m/t", "ATTACH TABLE t")] ["/m/t"] [] in
  removeTable plain_env "db" "/m" "t" w = (Throw (PocoException "Cannot remove /m/t"), w)
  ∧ tables w !! "t" = Some (Storage 3).
Proof.
  intros w.
  destruct (C5_removeTable_rollback plain_env "db" "/m" "t" (Storage 3) w)
    as (_ & Hthrow & _); [reflexivity|].
  apply (Hthrow (PocoException "Cannot remove /m/t") (set_tables ∅ w)).
  vm_compute. reflexivity.
Defined.

(** ** getIterator *)

Lemma yielded_S (fuel : nat) (self : DatabaseOrdinaryIterator.t) :
  DatabaseOrdinaryIterator.yielded (S fuel) self
  = match DatabaseOrdinaryIterator.isValid self with
    | Ok false => Ok []
    | Ok true =>
        match DatabaseOrdinaryIterator.name self, DatabaseOrdinaryIterator.table self,
              DatabaseOrdinaryIterator.next self with
        | Ok n, Ok h, Ok self' =>
            match DatabaseOrdinaryIterator.yielded fuel self' with
            | Ok l => Ok ((n, h) :: l)
            | r => r
            end
        | _, _, _ => Undefined
        end
    | Throw e => Throw e
    | Undefined => Undefined
    end.
Proof. reflexivity. Qed.

(** An iterator that starts at [begin()] yields the entries of its copy,
    in key order. *)
Lemma yielded_from_position (m : Tables) (k i : nat) :
  i + k = length (entries m) →
  DatabaseOrdinaryIterator.yielded (S k)
    {| DatabaseOrdinaryIterator.tables := m; DatabaseOrdinaryIterator.it := position i |}
  = Ok (drop i (entries m)).
Proof.
  revert i. induction k as [|k IH]; intros i Hi; rewrite yielded_S;
    unfold DatabaseOrdinaryIterator.isValid, DatabaseOrdinaryIterator.name,
      DatabaseOrdinaryIterator.table, DatabaseOrdinaryIterator.next;
    cbn [DatabaseOrdinaryIterator.it DatabaseOrdinaryIterator.tables].
  - replace (i =? length (entries m))%nat with true
      by (symmetry; apply Nat.eqb_eq; lia).
    simpl. rewrite drop_ge by lia. done.
  - replace (i =? length (entries m))%nat with false
      by (symmetry; apply Nat.eqb_neq; lia).
    destruct (lookup_lt_is_Some_2 (entries m) i) as [[key h] Hkh]; [lia|].
    rewrite Hkh. replace (i <? length (entries m))%nat with true
      by (symmetry; apply Nat.ltb_lt; lia).
    cbn [negb fst snd].
    rewrite (IH (S i)) by lia. by rewrite (drop_S _ _ _ Hkh).
Qed.

(** C7. [getIterator] copies the table map into the iterator, so the
    copy is what the map held at the call; but the constructor leaves the
    position [it] singular, not at [begin()] of the copy, so [isValid] on
    the returned iterator, and any traversal, is undefined. *)
Theorem C7_getIterator_singular (w : World) :
  ∃ i, getIterator w = (Ok i, w)
       ∧ DatabaseOrdinaryIterator.tables i = tables w
       ∧ DatabaseOrdinaryIterator.it i = singular
       ∧ DatabaseOrdinaryIterator.isValid i = Undefined
       ∧ ∀ fuel, DatabaseOrdinaryIterator.yielded (S fuel) i = Undefined.
Proof. eexists. repeat split. Qed.

(** ** loadTable *)

Lemma file_content_exists p f s : file_content p f = Some s → file_exists p f = true.
Proof.
  unfold file_content, file_exists.
  destruct (find _ _) as [e|] eqn:Hfind; [|done]. intros _.
  apply find_some in Hfind as [Hin Heq].
  apply existsb_exists. eauto.
Qed.

Lemma file_content_filter_ne p q l :
  q ≠ p →
  snd <$> find (λ e : string * string, String.eqb (fst e) q) (filter (λ e, fst e ≠ p) l)
  = snd <$> find (λ e : string * string, String.eqb (fst e) q) l.
Proof.
  intros Hqp. induction l as [|e l IH]; [done|].
  rewrite filter_cons. case_decide as Hne; simpl.
  - destruct (String.eqb_spec (fst e) q); [done | apply IH].
  - destruct (String.eqb_spec (fst e) q); [congruence | apply IH].
Qed.

#[local] Instance same_load_calls_preorder : PreOrder same_load_calls.
Proof. split; [done | intros x y z; unfold same_load_calls; congruence]. Qed.

Section load_calls.

Context (env : Environment).

Lemma read_file_load_calls p : frames same_load_calls (read_file p).
Proof. unfold read_file. repeat frames_step. Qed.

Lemma File_remove_load_calls p : frames same_load_calls (File_remove p).
Proof. unfold File_remove. repeat frames_step; done. Qed.

Lemma deref_load_calls p : frames same_load_calls (deref p).
Proof. intros w. unfold deref. by destruct (asts w !! p). Qed.

Lemma new_ast_load_calls a : frames same_load_calls (new_ast a).
Proof. done. Qed.

Lemma update_ast_load_calls p f : frames same_load_calls (update_ast p f).
Proof.
  unfold update_ast. frames_step; [apply deref_load_calls|]. by frames_step.
Qed.

Lemma interpret_load_calls a : frames same_load_calls (interpret env a).
Proof.
  intros w. unfold interpret.
  by destruct (executeLoadExisting env a (tables w) (fs w)) as [[e|] [t f]].
Qed.

Lemma executeCreateQuery_load_calls query database file_name :
  frames same_load_calls (executeCreateQuery env query database file_name).
Proof.
  unfold executeCreateQuery. frames_step; [frames_step|].
  frames_step; [apply new_ast_load_calls|].
  frames_step; [apply update_ast_load_calls|].
  frames_step; [apply update_ast_load_calls|].
  frames_step; [apply deref_load_calls|].
  apply interpret_load_calls.
Qed.

(** [loadTable] records its call and nothing else in the call log. *)
Lemma loadTable_load_calls path database table_escaped w :
  load_calls (snd (loadTable env path database table_escaped w))
  = load_calls w ++ [table_escaped].
Proof.
  unfold loadTable. unfold bind at 1. unfold modify.
  match goal with
  | |- load_calls (snd (?m (log_load _ _))) = _ =>
      assert (Hm : frames same_load_calls m)
  end.
  { frames_step; [apply read_file_load_calls|].
    frames_step; [apply File_remove_load_calls|].
    frames_step; [apply executeCreateQuery_load_calls | frames_step]. }
  apply Hm.
Qed.

End load_calls.

(** C8. A descriptor whose content is empty. On a path without I/O
    fault [loadTable] does what the removal of the file does and nothing
    else: the file is removed, [loadTable] returns normally, and the
    table map and every other file are as they were. The removal is not
    inside the [try] block, and neither is the read: on a faulty path
    the file cannot be opened, [loadTable] throws the exception of the
    file buffer as it is, and table map and files are unchanged. *)
Theorem C8_loadTable_empty_file (env : Environment)
    (path database table_escaped : string) (w : World) :
  let p := path +:+ "/" +:+ table_escaped in
  file_content p (fs w) = Some "" →
  if is_faulty p (fs w)
  then loadTable env path database table_escaped w
       = (Throw (Exception ("Cannot open file " +:+ p) CANNOT_OPEN_FILE),
          log_load table_escaped w)
  else loadTable env path database table_escaped w
       = File_remove p (log_load table_escaped w)
       ∧ ∃ w', loadTable env path database table_escaped w = (Ok (), w')
               ∧ tables w' = tables w
               ∧ file_exists p (fs w') = false
               ∧ ∀ q, q ≠ p → file_content q (fs w') = file_content q (fs w).
Proof.
  intros p Hcontent.
  assert (Hload : loadTable env path database table_escaped w
                  = bind (read_file p)
                      (λ s, if String.eqb s "" then File_remove p
                            else try_catch_Exception
                                   (executeCreateQuery env s database p)
                                   (λ e, throw (Exception
                                      ("Cannot create table from metadata file " +:+ p
                                       +:+ ", error: " +:+ displayText env e
                                       +:+ ", stack trace:" +:+ newline
                                       +:+ getStackTrace env e)
                                      CANNOT_CREATE_TABLE_FROM_METADATA)))
                      (log_load table_escaped w)) by done.
  rewrite Hload. unfold read_file. unfold_monad. cbn [fs log_load].
  destruct (is_faulty p (fs w)) eqn:Hfault; [done|].
  rewrite Hcontent. cbn [String.eqb]. split; [done|].
  unfold File_remove. unfold_monad. cbn [fs log_load].
  rewrite Hfault, (file_content_exists _ _ _ Hcontent). cbn [orb negb].
  eexists. split; [reflexivity|]. split; [done|]. split.
  - apply file_exists_filter_ne.
  - intros q Hq. by apply file_content_filter_ne.
Qed.

Lemma C8_loadTable_empty_file_witness :
  let w := world_of {[ "a" := Storage 1 ]} [("/m/a.sql", "ATTACH TABLE a"); ("/m/Y.sql", "")] [] [] in
  loadTable plain_env "/m" "db" "Y.sql" w = File_remove "/m/Y.sql" (log_load "Y.sql" w)
  ∧ ∃ w', loadTable plain_env "/m" "db" "Y.sql" w = (Ok (), w')
          ∧ tables w' = tables w
          ∧ file_exists "/m/Y.sql" (fs w') = false
          ∧ ∀ q, q ≠ "/m/Y.sql" → file_content q (fs w') = file_content q (fs w).
Proof.
  intros w.
  exact (C8_loadTable_empty_file plain_env "/m" "db" "Y.sql" w eq_refl).
Defined.

(** An empty descriptor that cannot be opened: [loadTable] throws, and
    so does the constructor that meets it; the file is still there. *)
Lemma C8_unreadable_empty_file_counterexample :
  let w := world_of ∅ [("/m/Y.sql", "")] ["/m/Y.sql"] [] in
  let e := Exception "Cannot open file /m/Y.sql" CANNOT_OPEN_FILE in
  file_content "/m/Y.sql" (fs w) = Some ""
  ∧ fst (loadTable plain_env "/m" "db" "Y.sql" w) = Throw e
  ∧ fst (DatabaseOrdinary plain_env "db" "/m" None w) = Throw e
  ∧ file_exists "/m/Y.sql" (fs (snd (DatabaseOrdinary plain_env "db" "/m" None w))) = true.
Proof. vm_compute. done. Qed.

(** ** createTable *)

Lemma bind_Ok {A B} (m : M A) (k : A → M B) w a w' :
  m w = (Ok a, w') → bind m k w = k a w'.
Proof. intros H. unfold bind. by rewrite H. Qed.

Lemma bind_Throw {A B} (m : M A) (k : A → M B) w e w' :
  m w = (Throw e, w') → bind m k w = (Throw e, w').
Proof. intros H. unfold bind. by rewrite H. Qed.

Lemma string_length_append (s t : string) :
  String.length (s +:+ t) = String.length s + String.length t.
Proof. induction s as [|c s IH]; simpl; [done | by rewrite IH]. Qed.

Lemma string_append_ne (s t : string) : t ≠ "" → s +:+ t ≠ s.
Proof.
  intros Ht Heq. apply (f_equal String.length) in Heq.
  rewrite string_length_append in Heq. destruct t; [done | simpl in Heq; lia].
Qed.

(** The temporary path is never the published one. *)
Lemma tmp_path_ne (path escaped : string) :
  path +:+ "/" +:+ escaped +:+ ".sql.tmp" ≠ path +:+ "/" +:+ escaped.
Proof.
  intros Heq. apply (f_equal String.length) in Heq.
  rewrite !string_length_append in Heq. simpl in Heq. lia.
Qed.

Lemma deref_last l a p w :
  asts w = l ++ [a] → p = length l → deref p w = (Ok a, w).
Proof.
  intros Hw ->. unfold deref. rewrite Hw.
  by rewrite list_lookup_middle.
Qed.

Lemma update_ast_last l a p f w :
  asts w = l ++ [a] → p = length l →
  update_ast p f w = (Ok (), set_asts (l ++ [f a]) w).
Proof.
  intros Hw ->. unfold update_ast.
  erewrite bind_Ok by by eapply deref_last.
  unfold modify. rewrite Hw. do 2 f_equal.
  replace (length l) with (length l + 0) by lia.
  by rewrite insert_app_r.
Qed.

Lemma clone_allocated query q w :
  asts w !! query = Some q →
  clone query w = (Ok (length (asts w)), set_asts (asts w ++ [q]) w).
Proof. intros H. unfold clone, deref, new_ast, bind. by rewrite H. Qed.

Lemma try_catch_Ok {A} (body : M A) handler w a w' :
  body w = (Ok a, w') → try_catch body handler w = (Ok a, w').
Proof. intros H. unfold try_catch. by rewrite H. Qed.

Lemma try_catch_Throw {A} (body : M A) handler w e w' :
  body w = (Throw e, w') → try_catch body handler w = handler e w'.
Proof. intros H. unfold try_catch. by rewrite H. Qed.

Lemma write_file_excl_Ok p s w :
  is_faulty p (fs w) = false → file_exists p (fs w) = false →
  write_file_excl p s w = (Ok (), set_files (files (fs w) ++ [(p, s)]) w).
Proof. intros Hf He. unfold write_file_excl. unfold_monad. by rewrite Hf, He. Qed.

Lemma write_file_excl_Throw p s w :
  is_faulty p (fs w) || file_exists p (fs w) = true →
  write_file_excl p s w
  = (Throw (Exception ("Cannot open file " +:+ p) CANNOT_OPEN_FILE), w).
Proof. intros H. unfold write_file_excl. unfold_monad. by rewrite H. Qed.

Lemma File_remove_present p w :
  is_faulty p (fs w) = false → file_exists p (fs w) = true →
  File_remove p w = (Ok (), set_files (filter (λ e, fst e ≠ p) (files (fs w))) w).
Proof. intros Hf He. unfold File_remove. unfold_monad. by rewrite Hf, He. Qed.

Lemma File_renameTo_Ok src dst w :
  is_faulty src (fs w) = false → is_faulty dst (fs w) = false →
  file_exists src (fs w) = true →
  File_renameTo src dst w
  = (Ok (), set_files
              (map (λ e, if String.eqb (fst e) src then (dst, snd e) else e)
                 (filter (λ e, fst e ≠ dst) (files (fs w)))) w).
Proof.
  intros Hs Hd He. unfold File_renameTo. unfold_monad. by rewrite Hs, Hd, He.
Qed.

Lemma File_renameTo_faulty src dst w :
  is_faulty dst (fs w) = true →
  File_renameTo src dst w = (Throw (PocoException ("Cannot rename " +:+ src)), w).
Proof.
  intros Hd. unfold File_renameTo. unfold_monad. rewrite Hd.
  by rewrite orb_true_r.
Qed.

Lemma emplace_absent table_name h w :
  tables w !! table_name = None →
  emplace table_name h w = (Ok true, set_tables (<[table_name := h]> (tables w)) w).
Proof. intros H. unfold emplace. unfold_monad. by rewrite H. Qed.

Lemma file_exists_snoc p s l :
  existsb (λ e : string * string, String.eqb (fst e) p) (l ++ [(p, s)]) = true.
Proof. rewrite existsb_app. simpl. rewrite String.eqb_refl. apply orb_true_r. Qed.

Lemma attach_form_steps engine q :
  (if negb (String.eqb engine "View") && negb (String.eqb engine "MaterializedView")
   then set_select None else id)
    (set_is_populate false
       (set_if_not_exists false
          (set_as_table ""
             (set_as_database "" (set_database "" (set_attach true q))))))
  = attach_form engine q.
Proof. unfold attach_form. by destruct (negb _ && negb _). Qed.

Lemma update_select_last (c : bool) l a p w :
  asts w = l ++ [a] → p = length l →
  (if c then update_ast p (set_select None) else ret ()) w
  = (Ok (), set_asts (l ++ [(if c then set_select None else id) a]) w).
Proof.
  intros Hw Hp. destruct c; [by apply update_ast_last|].
  unfold ret, id. rewrite <- Hw. by destruct w.
Qed.

(** What [createTable] does on a free name, case by case: the temporary
    file cannot be created; the rename fails; everything succeeds. *)
Lemma createTable_cases env name path table_name table query engine q w :
  asts w !! query = Some q →
  tables w !! table_name = None →
  let tmp := path +:+ "/" +:+ escapeForFileName env table_name +:+ ".sql.tmp" in
  let final := path +:+ "/" +:+ escapeForFileName env table_name in
  let statement := formatAST env (attach_form engine q) +:+ newline in
  let w2 := set_asts (asts w ++ [attach_form engine q]) w in
  let w4 := set_tables (<[table_name := table]> (tables w))
              (set_files (files (fs w) ++ [(tmp, statement)]) w2) in
  createTable env name path table_name table query engine w
  = if is_faulty tmp (fs w) || file_exists tmp (fs w)
    then (Throw (Exception ("Cannot open file " +:+ tmp) CANNOT_OPEN_FILE), w2)
    else if is_faulty final (fs w)
    then (Throw (PocoException ("Cannot rename " +:+ tmp)),
          set_files (filter (λ e, fst e ≠ tmp) (files (fs w) ++ [(tmp, statement)])) w4)
    else (Ok (),
          set_files (map (λ e, if String.eqb (fst e) tmp then (final, snd e) else e)
                       (filter (λ e, fst e ≠ final) (files (fs w) ++ [(tmp, statement)])))
                    w4).
Proof.
  intros Hq Hn tmp final statement w2 w4. unfold createTable. fold tmp final.
  erewrite bind_Ok by by apply clone_allocated.
  erewrite bind_Ok by reflexivity.
  cbn [tables set_asts]. rewrite Hn.
  rewrite bool_decide_false by (by intros [? ?]).
  do 6 (erewrite bind_Ok by (by eapply update_ast_last)).
  erewrite bind_Ok by (by eapply update_select_last).
  erewrite bind_Ok by (by eapply deref_last).
  rewrite attach_form_steps. fold statement.
  match goal with |- _ ?w0 = _ => change w0 with w2 end.
  destruct (is_faulty tmp (fs w) || file_exists tmp (fs w)) eqn:Hcond;
    [by erewrite bind_Throw by (by apply write_file_excl_Throw)|].
  apply orb_false_elim in Hcond as [Hft Het].
  erewrite bind_Ok by (by apply write_file_excl_Ok).
  change (fs w2) with (fs w).
  set (w3 := set_files _ w2).
  assert (Hemp : emplace table_name table w3 = (Ok true, w4)) by (by apply emplace_absent).
  destruct (is_faulty final (fs w)) eqn:Hff.
  - erewrite try_catch_Throw
      by (erewrite bind_Ok by exact Hemp; erewrite bind_Ok by reflexivity;
          by apply File_renameTo_faulty).
    erewrite bind_Ok
      by (apply File_remove_present; [exact Hft | apply file_exists_snoc]).
    reflexivity.
  - erewrite try_catch_Ok
      by (erewrite bind_Ok by exact Hemp; erewrite bind_Ok by reflexivity;
          apply File_renameTo_Ok; [exact Hft | exact Hff | apply file_exists_snoc]).
    reflexivity.
Qed.

(** On a name that is taken, [createTable] stops at its first check. *)
Lemma createTable_taken env name path table_name table query engine q h w :
  asts w !! query = Some q →
  tables w !! table_name = Some h →
  createTable env name path table_name table query engine w
  = (Throw (Exception ("Table " +:+ name +:+ "." +:+ table_name +:+ " already exists.")
                      TABLE_ALREADY_EXISTS),
     set_asts (asts w ++ [q]) w).
Proof.
  intros Hq Hn. unfold createTable.
  erewrite bind_Ok by by apply clone_allocated.
  erewrite bind_Ok by reflexivity.
  cbn [tables set_asts]. rewrite Hn.
  by rewrite bool_decide_true by eauto.
Qed.

Lemma find_renamed (tmp final s : string) (l : list (string * string)) :
  tmp ≠ final →
  existsb (λ e : string * string, String.eqb (fst e) tmp) l = false →
  find (λ e : string * string, String.eqb (fst e) final)
    (map (λ e, if String.eqb (fst e) tmp then (final, snd e) else e)
       (filter (λ e, fst e ≠ final) (l ++ [(tmp, s)])))
  = Some (final, s).
Proof.
  intros Hne. induction l as [|e l IH]; intros Hl.
  - simpl. rewrite filter_cons. rewrite decide_True by done. simpl.
    rewrite String.eqb_refl. simpl. by rewrite String.eqb_refl.
  - simpl in Hl. apply orb_false_elim in Hl as [He Hl].
    simpl. rewrite filter_cons. case_decide as Hef; [|by apply IH].
    simpl. rewrite He. simpl.
    apply String.eqb_neq in Hef. rewrite Hef. by apply IH.
Qed.

Lemma file_exists_filter_other (p q : string) (l : list (string * string)) :
  q ≠ p →
  existsb (λ e : string * string, String.eqb (fst e) q) (filter (λ e, fst e ≠ p) l)
  = existsb (λ e : string * string, String.eqb (fst e) q) l.
Proof.
  intros Hqp. induction l as [|e l IH]; [done|].
  rewrite filter_cons. case_decide as Hne; simpl.
  - by rewrite IH.
  - rewrite IH. destruct (String.eqb_spec (fst e) q); [congruence | done].
Qed.

(** C6. Whatever [createTable] ends in, the object behind the caller's
    [query] is as it was; the statement is formatted from a copy in
    attach form: [attach] set, [database], [as_database], [as_table]
    empty, [if_not_exists] and [is_populate] cleared, name and structure
    kept, the SELECT kept exactly for the engines [View] and
    [MaterializedView]; and when [createTable] returns, the descriptor
    holds that statement followed by a newline. *)
Theorem C6_createTable_attach_form (env : Environment) (name path table_name : string)
    (h : StoragePtr) (query : ASTPtr) (engine : string) (q : ASTCreateQuery)
    (w : World) :
  asts w !! query = Some q →
  let final := path +:+ "/" +:+ escapeForFileName env table_name in
  let r := createTable env name path table_name h query engine w in
  let s := attach_form engine q in
  asts (snd r) !! query = Some q
  ∧ (attach s = true ∧ database s = "" ∧ as_database s = "" ∧ as_table s = ""
     ∧ if_not_exists s = false ∧ is_populate s = false
     ∧ table s = table q ∧ definition s = definition q)
  ∧ (engine = "View" ∨ engine = "MaterializedView" → select s = select q)
  ∧ (engine ≠ "View" → engine ≠ "MaterializedView" → select s = None)
  ∧ (fst r = Ok () →
     file_content final (fs (snd r)) = Some (formatAST env s +:+ newline)).
Proof.
  intros Hq final r s. split; [|split; [|split; [|split]]].
  - subst r. destruct (tables w !! table_name) as [h'|] eqn:Hn.
    + erewrite createTable_taken by done. simpl. by apply lookup_app_l_Some.
    + erewrite createTable_cases by done.
      repeat match goal with |- context [if ?b then _ else _] => destruct b end;
        simpl; by apply lookup_app_l_Some.
  - done.
  - intros [-> | ->]; done.
  - intros H1 H2. subst s. unfold attach_form.
    apply String.eqb_neq in H1, H2. by rewrite H1, H2.
  - subst r. destruct (tables w !! table_name) as [h'|] eqn:Hn.
    + by erewrite createTable_taken by done.
    + erewrite createTable_cases by done. fold final.
      destruct (is_faulty _ (fs w) || file_exists _ (fs w)) eqn:Hcond; [done|].
      destruct (is_faulty final (fs w)); [done|]. intros _.
      apply orb_false_elim in Hcond as [_ Het].
      unfold file_content. cbn [snd fs set_files set_fs set_tables files].
      rewrite find_renamed; [done | | done].
      apply tmp_path_ne.
Qed.

Lemma C6_createTable_attach_form_witness :
  let w := world_of ∅ [] [] [sample_query] in
  let r := createTable plain_env "db" "/m" "t" (Storage 1) 0 "Log" w in
  asts (snd r) !! 0 = Some sample_query
  ∧ select (attach_form "Log" sample_query) = None
  ∧ select (attach_form "View" sample_query) = Some "SELECT 1"
  ∧ file_content "/m/t" (fs (snd r)) = Some ("ATTACH TABLE t" +:+ newline).
Proof.
  intros w r.
  destruct (C6_createTable_attach_form plain_env "db" "/m" "t" (Storage 1) 0 "Log"
              sample_query w) as (Hsame & _ & _ & Hdrop & Hfile); [reflexivity|].
  destruct (C6_createTable_attach_form plain_env "db" "/m" "t" (Storage 1) 0 "View"
              sample_query w) as (_ & _ & Hkeep & _); [reflexivity|].
  split; [exact Hsame|]. split; [by apply Hdrop|]. split; [by apply Hkeep; left|].
  apply Hfile. vm_compute. reflexivity.
Defined.

(** C1. A free name, a temporary file that can be written, and a rename
    that fails: [createTable] removes the temporary file and rethrows,
    but the entry it has put into the table map stays, with no
    descriptor of this call on disk. *)
Theorem C1_createTable_rename_failure (env : Environment) (name path table_name : string)
    (h : StoragePtr) (query : ASTPtr) (engine : string) (q : ASTCreateQuery)
    (w : World) :
  let tmp := path +:+ "/" +:+ escapeForFileName env table_name +:+ ".sql.tmp" in
  let final := path +:+ "/" +:+ escapeForFileName env table_name in
  asts w !! query = Some q →
  tables w !! table_name = None →
  is_faulty tmp (fs w) = false →
  file_exists tmp (fs w) = false →
  is_faulty final (fs w) = true →
  ∃ w', createTable env name path table_name h query engine w
        = (Throw (PocoException ("Cannot rename " +:+ tmp)), w')
        ∧ tables w' !! table_name = Some h
        ∧ file_exists tmp (fs w') = false
        ∧ file_exists final (fs w') = file_exists final (fs w).
Proof.
  intros tmp final Hq Hn Hft Het Hff. eexists.
  erewrite createTable_cases by done. fold tmp final.
  rewrite Hft, Het, Hff. cbn [orb]. split; [reflexivity|].
  cbn [tables fs files set_files set_fs set_tables set_asts]. split; [|split].
  - apply lookup_insert_eq.
  - apply file_exists_filter_ne.
  - unfold file_exists. cbn [files].
    rewrite file_exists_filter_other by (apply not_eq_sym, tmp_path_ne).
    rewrite existsb_app. simpl.
    destruct (String.eqb_spec tmp final) as [Heq|_];
      [by apply tmp_path_ne in Heq | by rewrite !orb_false_r].
Qed.

Lemma C1_createTable_rename_failure_witness :
  let w := world_of ∅ [] ["/m/t"] [sample_query] in
  ∃ w', createTable plain_env "db" "/m" "t" (Storage 1) 0 "Log" w
        = (Throw (PocoException ("Cannot rename " +:+ "/m/t.sql.tmp")), w')
        ∧ tables w' !! "t" = Some (Storage 1)
        ∧ file_exists "/m/t.sql.tmp" (fs w') = false
        ∧ file_exists "/m/t" (fs w') = file_exists "/m/t" (fs w).
Proof.
  intros w.
  apply (C1_createTable_rename_failure plain_env "db" "/m" "t" (Storage 1) 0 "Log"
           sample_query w); reflexivity.
Defined.

(** ** Strings: suffixes and order *)

Lemma append_String (c : ascii) (s t : string) :
  String c s +:+ t = String c (s +:+ t).
Proof. reflexivity. Qed.

Lemma substring_0_length (s : string) : String.substring 0 (String.length s) s = s.
Proof. induction s as [|c s IH]; simpl; [done | by rewrite IH]. Qed.

Lemma substring_split (s : string) (n : nat) :
  n ≤ String.length s →
  s = String.substring 0 n s +:+ String.substring n (String.length s - n) s.
Proof.
  revert n. induction s as [|c s IH]; intros n Hn.
  - simpl in Hn. by replace n with 0 by lia.
  - destruct n as [|n].
    + cbn [String.substring String.length Nat.sub String.append].
      by rewrite substring_0_length.
    + cbn [String.substring String.length Nat.sub]. rewrite append_String.
      f_equal. apply IH. simpl in Hn. lia.
Qed.

Lemma endsWith_append (s suffix : string) :
  endsWith s suffix = true → ∃ pre, s = pre +:+ suffix.
Proof.
  unfold endsWith. intros [Hlen Heq]%andb_true_iff.
  apply Nat.leb_le in Hlen. apply String.eqb_eq in Heq.
  exists (String.substring 0 (String.length s - String.length suffix) s).
  pose proof (substring_split s (String.length s - String.length suffix)) as Hs.
  replace (String.length s - (String.length s - String.length suffix))
    with (String.length suffix) in Hs by lia.
  rewrite Heq in Hs. apply Hs. lia.
Qed.

Lemma last_char_append (pre suffix : string) :
  suffix ≠ "" → last_char (pre +:+ suffix) = last_char suffix.
Proof.
  intros Hne. induction pre as [|c pre IH]; [done|].
  rewrite append_String. cbn [last_char]. rewrite IH.
  destruct (pre +:+ suffix) eqn:Happ; [|done].
  destruct pre, suffix; done.
Qed.

Lemma endsWith_last_char (s suffix : string) :
  suffix ≠ "" → endsWith s suffix = true → last_char s = last_char suffix.
Proof. intros Hne [pre ->]%endsWith_append. by apply last_char_append. Qed.

(** The three suffixes exclude each other. *)
Lemma endsWith_sql_not_bak nm :
  endsWith nm ".sql" = true → endsWith nm ".sql.bak" = false.
Proof.
  intros H1. destruct (endsWith nm ".sql.bak") eqn:H2; [|done].
  apply endsWith_last_char in H1, H2; [|done..]. rewrite H1 in H2. done.
Qed.

Lemma endsWith_sql_not_tmp nm :
  endsWith nm ".sql" = true → endsWith nm ".sql.tmp" = false.
Proof.
  intros H1. destruct (endsWith nm ".sql.tmp") eqn:H2; [|done].
  apply endsWith_last_char in H1, H2; [|done..]. rewrite H1 in H2. done.
Qed.

Lemma endsWith_tmp_not_bak nm :
  endsWith nm ".sql.tmp" = true → endsWith nm ".sql.bak" = false.
Proof.
  intros H1. destruct (endsWith nm ".sql.bak") eqn:H2; [|done].
  apply endsWith_last_char in H1, H2; [|done..]. rewrite H1 in H2. done.
Qed.

Lemma string_leb_trans (s1 s2 s3 : string) :
  String.leb s1 s2 = true → String.leb s2 s3 = true → String.leb s1 s3 = true.
Proof.
  unfold String.leb. revert s2 s3.
  induction s1 as [|a s1 IH]; intros [|b s2] [|c s3]; simpl; try done.
  unfold Ascii.compare.
  destruct (N.compare_spec (N_of_ascii a) (N_of_ascii b)) as [Hab|Hab|Hab];
    destruct (N.compare_spec (N_of_ascii b) (N_of_ascii c)) as [Hbc|Hbc|Hbc];
    destruct (N.compare_spec (N_of_ascii a) (N_of_ascii c)) as [Hac|Hac|Hac];
    try done; try lia.
  apply IH.
Qed.

#[global] Instance string_le_total : Total string_le.
Proof. intros s1 s2. apply String.leb_total. Qed.

#[global] Instance string_le_trans : Transitive string_le.
Proof. intros s1 s2 s3. apply string_leb_trans. Qed.

#[global] Instance string_le_antisymm : AntiSymm (=) string_le.
Proof. intros s1 s2. apply String.leb_antisym. Qed.

(** [std::sort] leaves the names in non-decreasing byte order and keeps
    each of them. *)
Lemma sort_names_Sorted (file_names : list string) :
  Sorted string_le (sort_names file_names).
Proof. apply Sorted_merge_sort, _. Qed.

Lemma sort_names_Permutation (file_names : list string) :
  sort_names file_names ≡ₚ file_names.
Proof. apply merge_sort_Permutation. Qed.

Lemma endsWith_bak_only nm :
  endsWith nm ".sql.bak" = true →
  endsWith nm ".sql" = false ∧ endsWith nm ".sql.tmp" = false.
Proof.
  intros Hb. split.
  - destruct (endsWith nm ".sql") eqn:Hs; [|done].
    apply endsWith_sql_not_bak in Hs. congruence.
  - destruct (endsWith nm ".sql.tmp") eqn:Ht; [|done].
    apply endsWith_tmp_not_bak in Ht. congruence.
Qed.

Lemma endsWith_tmp_only nm :
  endsWith nm ".sql.tmp" = true →
  endsWith nm ".sql" = false ∧ endsWith nm ".sql.bak" = false.
Proof.
  intros Ht. split; [|by apply endsWith_tmp_not_bak].
  destruct (endsWith nm ".sql") eqn:Hs; [|done].
  apply endsWith_sql_not_tmp in Hs. congruence.
Qed.

(** ** The directory loop of the constructor *)

Ltac entry_kind_facts :=
  unfold is_descriptor, is_stale, is_rejected;
  repeat match goal with H : _ = _ |- _ => rewrite H end; auto.

Lemma entry_kind_total nm : entry_kind nm.
Proof.
  destruct (hidden nm) eqn:Hh; [apply kind_skipped; entry_kind_facts|].
  destruct (endsWith nm ".sql.bak") eqn:Hb.
  { destruct (endsWith_bak_only nm Hb) as [Hs Ht].
    apply kind_skipped; entry_kind_facts. }
  destruct (endsWith nm ".sql.tmp") eqn:Ht.
  { destruct (endsWith_tmp_only nm Ht) as [Hs _].
    apply kind_stale; entry_kind_facts. }
  destruct (endsWith nm ".sql") eqn:Hs.
  - apply kind_descriptor; entry_kind_facts.
  - apply kind_rejected; entry_kind_facts.
Qed.

Section scan_directory.

Context (path : string).

Lemma scan_directory_empty_name rest acc w :
  scan_directory path ("" :: rest) acc w = (Throw out_of_range, w).
Proof. reflexivity. Qed.

Lemma scan_directory_skipped nm rest acc w :
  nm ≠ "" → is_descriptor nm = false → is_stale nm = false → is_rejected nm = false →
  scan_directory path (nm :: rest) acc w = scan_directory path rest acc w.
Proof.
  unfold is_descriptor, is_stale, is_rejected.
  destruct nm as [|c s]; [done|]. intros _. cbn [scan_directory at0 hidden].
  unfold bind at 1. unfold ret.
  destruct (Ascii.eqb c "."); [done|].
  destruct (endsWith _ ".sql.bak"); [done|].
  destruct (endsWith _ ".sql.tmp"); [done|].
  destruct (endsWith _ ".sql"); done.
Qed.

Lemma scan_directory_stale nm rest acc w :
  nm ≠ "" → is_stale nm = true →
  scan_directory path (nm :: rest) acc w
  = bind (File_remove (path +:+ "/" +:+ nm)) (λ _, scan_directory path rest acc) w.
Proof.
  unfold is_stale. destruct nm as [|c s]; [done|]. intros _.
  cbn [scan_directory at0 hidden]. unfold bind at 1. unfold ret.
  destruct (Ascii.eqb c "."); [done|]. cbn [negb andb]. intros Ht.
  rewrite (endsWith_tmp_not_bak _ Ht), Ht. done.
Qed.

Lemma scan_directory_descriptor nm rest acc w :
  nm ≠ "" → is_descriptor nm = true →
  scan_directory path (nm :: rest) acc w = scan_directory path rest (acc ++ [nm]) w.
Proof.
  unfold is_descriptor. destruct nm as [|c s]; [done|]. intros _.
  cbn [scan_directory at0 hidden]. unfold bind at 1. unfold ret.
  destruct (Ascii.eqb c "."); [done|]. cbn [negb andb]. intros Hs.
  rewrite (endsWith_sql_not_bak _ Hs), (endsWith_sql_not_tmp _ Hs), Hs. done.
Qed.

Lemma scan_directory_rejected nm rest acc w :
  nm ≠ "" → is_rejected nm = true →
  scan_directory path (nm :: rest) acc w
  = (Throw (Exception ("Incorrect file extension: " +:+ nm
                       +:+ " in metadata directory " +:+ path)
                      INCORRECT_FILE_NAME), w).
Proof.
  unfold is_rejected. destruct nm as [|c s]; [done|]. intros _.
  cbn [scan_directory at0 hidden]. unfold bind at 1. unfold ret.
  destruct (Ascii.eqb c "."); [done|].
  destruct (endsWith _ ".sql"); [done|].
  destruct (endsWith _ ".sql.bak"); [done|].
  destruct (endsWith _ ".sql.tmp"); done.
Qed.

End scan_directory.

Lemma filter_all {A} (P : A → Prop) `{!∀ x, Decision (P x)} (l : list A) :
  Forall P l → filter P l = l.
Proof.
  induction 1 as [|x l Hx _ IH]; [done|]. by rewrite filter_cons_True, IH.
Qed.

Lemma set_files_same (w : World) : set_files (files (fs w)) w = w.
Proof. destruct w as [t [l f] a s c]. reflexivity. Qed.

Lemma string_append_inj (s a b : string) : s +:+ a = s +:+ b → a = b.
Proof.
  induction s as [|c s IH]; [done|]. rewrite !append_String. intros [= H]. auto.
Qed.

Lemma stale_paths_cons_stale path nm rest :
  is_stale nm = true →
  stale_paths path (nm :: rest) = (path +:+ "/" +:+ nm) :: stale_paths path rest.
Proof. intros H. unfold stale_paths. by rewrite filter_cons_True. Qed.

Lemma stale_paths_cons_other path nm rest :
  is_stale nm = false → stale_paths path (nm :: rest) = stale_paths path rest.
Proof.
  intros H. unfold stale_paths. rewrite filter_cons_False; [done|]. congruence.
Qed.

(** When the loop ends normally: no entry was rejected, the names it
    hands on are the descriptors in directory order, and the files are
    the old ones without the stale temporary files. *)
Lemma scan_directory_Ok path dir_entries acc w names w' :
  scan_directory path dir_entries acc w = (Ok names, w') →
  names = acc ++ filter (λ nm, is_descriptor nm = true) dir_entries
  ∧ Forall (λ nm, nm ≠ "" ∧ is_rejected nm = false) dir_entries
  ∧ w' = set_files (filter (λ e, fst e ∉ stale_paths path dir_entries) (files (fs w))) w.
Proof.
  revert acc w names w'.
  induction dir_entries as [|nm rest IH]; intros acc w names w' Hscan.
  - injection Hscan as <- <-. rewrite app_nil_r. split; [done|]. split; [done|].
    rewrite filter_all; [by rewrite set_files_same|].
    apply Forall_forall. intros e _. apply not_elem_of_nil.
  - destruct (decide (nm = "")) as [->|Hnm]; [done|].
    destruct (entry_kind_total nm) as [Hd Hs Hr _|Hd Hs Hr|Hd Hs Hr|Hd Hs Hr].
    + rewrite scan_directory_skipped in Hscan by done.
      destruct (IH _ _ _ _ Hscan) as (Hnames & Hall & Hw).
      rewrite filter_cons_False by congruence.
      rewrite stale_paths_cons_other by done.
      split; [done|]. split; [by constructor | done].
    + rewrite scan_directory_stale in Hscan by done.
      unfold bind in Hscan.
      destruct (File_remove (path +:+ "/" +:+ nm) w) as [[[]|e|] w1] eqn:Hrm; [|done..].
      apply File_remove_Ok in Hrm as (-> & _ & _).
      destruct (IH _ _ _ _ Hscan) as (Hnames & Hall & Hw).
      rewrite filter_cons_False by congruence.
      split; [done|]. split; [by constructor|].
      rewrite stale_paths_cons_stale by done. rewrite Hw.
      cbn [fs files set_files set_fs]. rewrite list_filter_filter.
      unfold set_files, set_fs. cbn. do 3 f_equal.
      apply list_filter_iff. intros e. rewrite not_elem_of_cons. tauto.
    + rewrite scan_directory_descriptor in Hscan by done.
      destruct (IH _ _ _ _ Hscan) as (Hnames & Hall & Hw).
      rewrite filter_cons_True by done. rewrite <- app_assoc in Hnames.
      rewrite stale_paths_cons_other by done.
      split; [done|]. split; [by constructor | done].
    + by rewrite scan_directory_rejected in Hscan.
Qed.

(** With removable temporary files the loop ends in the exception for
    the first rejected entry, or normally when there is none. *)
Lemma scan_directory_runs path dir_entries acc w :
  Forall (λ nm, nm ≠ "") dir_entries →
  NoDup dir_entries →
  removable path dir_entries (fs w) →
  match find is_rejected dir_entries with
  | Some nm =>
      ∃ w', scan_directory path dir_entries acc w
            = (Throw (Exception ("Incorrect file extension: " +:+ nm
                                 +:+ " in metadata directory " +:+ path)
                                INCORRECT_FILE_NAME), w')
  | None => ∃ names w', scan_directory path dir_entries acc w = (Ok names, w')
  end.
Proof.
  revert acc w. induction dir_entries as [|nm rest IH]; intros acc w Hne Hnd Hrm.
  - simpl. by eexists _, _.
  - apply Forall_cons in Hne as [Hnm Hne]. apply NoDup_cons in Hnd as [Hnotin Hnd].
    assert (Hrest : removable path rest (fs w)).
    { intros nm' Hin. apply Hrm. by right. }
    destruct (entry_kind_total nm) as [Hd Hs Hr _|Hd Hs Hr|Hd Hs Hr|Hd Hs Hr];
      cbn [find]; rewrite Hr.
    + rewrite scan_directory_skipped by done. by apply IH.
    + rewrite scan_directory_stale by done.
      destruct (Hrm nm) as [Hf He]; [by left | done |].
      erewrite bind_Ok by by apply File_remove_present.
      apply IH; [done..|].
      intros nm' Hin Hs'. destruct (Hrest nm' Hin Hs') as [Hf' He'].
      split; [done|]. unfold file_exists. cbn [fs files set_files set_fs].
      rewrite file_exists_filter_other; [done|].
      intros Heq. do 2 apply string_append_inj in Heq. by subst.
    + rewrite scan_directory_descriptor by done. by apply IH.
    + rewrite scan_directory_rejected by done. by eexists.
Qed.

Lemma file_exists_filter_notin (p : string) (S : list string) (l : list (string * string)) :
  p ∈ S →
  existsb (λ e : string * string, String.eqb (fst e) p) (filter (λ e, fst e ∉ S) l) = false.
Proof.
  intros Hp. induction l as [|e l IH]; [done|].
  rewrite filter_cons. case_decide as He; [|done].
  simpl. rewrite IH, orb_false_r. apply String.eqb_neq. intros Heq. by subst p.
Qed.


(** Three hidden entries: one without any of the suffixes, one ending in
    [.sql.tmp], one ending in [.sql]. No exception is thrown, nothing is
    deleted and nothing is collected. *)
Example hidden_entries_example :
  let w := world_of ∅ [("/m/.svn", ""); ("/m/.x.sql.tmp", "ATT");
                       ("/m/.y.sql", "ATTACH TABLE y")] [] [] in
  directory_entries "/m" (fs w) = [".svn"; ".x.sql.tmp"; ".y.sql"]
  ∧ (endsWith ".svn" ".sql" = false ∧ endsWith ".svn" ".sql.bak" = false
     ∧ endsWith ".svn" ".sql.tmp" = false)
  ∧ endsWith ".x.sql.tmp" ".sql.tmp" = true
  ∧ endsWith ".y.sql" ".sql" = true
  ∧ scan_directory "/m" (directory_entries "/m" (fs w)) [] w = (Ok [], w)
  ∧ DatabaseOrdinary plain_env "db" "/m" None w = (Ok (), w).
Proof. vm_compute. repeat split. Qed.

(** ** loadTable, case by case *)

Section loadTable.

Context (env : Environment).

(** The statement is parsed, forced into attach form for this database,
    and handed to the interpreter. *)
Lemma executeCreateQuery_eq query database file_name w :
  executeCreateQuery env query database file_name w
  = match parseQuery env query ("in file " +:+ file_name) with
    | inl e => (Throw e, w)
    | inr parsed =>
        let a := set_database database (set_attach true parsed) in
        interpret env a (set_asts (asts w ++ [a]) w)
    end.
Proof.
  unfold executeCreateQuery. destruct (parseQuery env query _) as [e|parsed]; [done|].
  erewrite bind_Ok by reflexivity.
  erewrite bind_Ok by (by eapply update_ast_last).
  erewrite bind_Ok by (by eapply update_ast_last).
  erewrite bind_Ok by (by eapply deref_last).
  reflexivity.
Qed.

Lemma read_file_defined p w : fst (read_file p w) ≠ Undefined.
Proof.
  unfold read_file. unfold_monad.
  destruct (is_faulty p (fs w)); [done|]. by destruct (file_content p (fs w)).
Qed.

Lemma executeCreateQuery_defined query database file_name w :
  fst (executeCreateQuery env query database file_name w) ≠ Undefined.
Proof.
  rewrite executeCreateQuery_eq. destruct (parseQuery env query _); [done|].
  cbn zeta. unfold interpret.
  by destruct (executeLoadExisting env _ _ _) as [[e|] [t f]].
Qed.

(** [loadTable] ends in a return or in an exception. *)
Lemma loadTable_defined path database table_escaped w :
  fst (loadTable env path database table_escaped w) ≠ Undefined.
Proof.
  unfold loadTable. unfold bind at 1. unfold modify.
  set (w1 := log_load table_escaped w). unfold bind.
  pose proof (read_file_defined (path +:+ "/" +:+ table_escaped) w1) as Hread.
  destruct (read_file _ w1) as [[s|e|] w2]; [|done..].
  destruct (String.eqb s "").
  - intros Hrm. destruct (File_remove _ w2) as [r w3] eqn:Heq.
    simpl in Hrm. subst r. by apply File_remove_defined in Heq.
  - unfold try_catch_Exception.
    pose proof (executeCreateQuery_defined s database
                  (path +:+ "/" +:+ table_escaped) w2) as Hexec.
    destruct (executeCreateQuery env s database _ w2) as [[[]|[msg code| |]|] w3]; done.
Qed.

(** An exception of the parser or the interpreter leaves [loadTable]
    wrapped: the new message names the descriptor path and carries the
    text of the cause. *)
Lemma loadTable_wraps path database table_escaped w s w1 msg code w2 :
  let path_to_metadata := path +:+ "/" +:+ table_escaped in
  read_file path_to_metadata (log_load table_escaped w) = (Ok s, w1) →
  s ≠ "" →
  executeCreateQuery env s database path_to_metadata w1 = (Throw (Exception msg code), w2) →
  loadTable env path database table_escaped w
  = (Throw (Exception
              ("Cannot create table from metadata file " +:+ path_to_metadata
               +:+ ", error: " +:+ displayText env (Exception msg code)
               +:+ ", stack trace:" +:+ newline +:+ getStackTrace env (Exception msg code))
              CANNOT_CREATE_TABLE_FROM_METADATA), w2).
Proof.
  intros p Hread Hs Hexec. unfold loadTable. fold p.
  erewrite bind_Ok by reflexivity.
  erewrite bind_Ok by exact Hread.
  apply String.eqb_neq in Hs. rewrite Hs.
  unfold try_catch_Exception. by rewrite Hexec.
Qed.

End loadTable.

(** ** The tasks of the constructor *)

#[local] Instance loads_of_preorder tables : PreOrder (loads_of tables).
Proof.
  split.
  - intros w. exists []. by rewrite app_nil_r.
  - intros w1 w2 w3 (l1 & H1 & Hl1) (l2 & H2 & Hl2). exists (l1 ++ l2).
    rewrite H2, H1, app_assoc. split; [done|]. by apply Forall_app.
Qed.

Lemma returns_ret {A} (a : A) w (Q : A → World → Prop) : Q a w → returns (ret a) w Q.
Proof. intros HQ. by exists a, w. Qed.

Lemma returns_bind {A B} (m : M A) (k : A → M B) w (Q : B → World → Prop) :
  returns m w (λ a w', returns (k a) w' Q) → returns (bind m k) w Q.
Proof.
  intros (a & w' & Hm & b & w'' & Hk & HQ). exists b, w''. split; [|done].
  by erewrite bind_Ok.
Qed.

Lemma returns_weaken {A} (m : M A) w (Q Q' : A → World → Prop) :
  returns m w Q → (∀ a w', Q a w' → Q' a w') → returns m w Q'.
Proof. intros (a & w' & Hm & HQ) Himpl. exists a, w'. auto. Qed.

#[local] Instance task_later_preorder : PreOrder task_later.
Proof.
  split.
  - intros t. by repeat split.
  - intros t1 t2 t3 (He1 & Hi1 & Hr1) (He2 & Hi2 & Hr2). repeat split.
    + congruence.
    + lia.
    + intros Hready. specialize (Hr1 Hready). subst t2. by apply Hr2.
Qed.

Section tasks.

Context (env : Environment) (name path : string) (tables : list string).

#[local] Abbreviation inv := (task_inv env name path tables).
#[local] Abbreviation finished := (task_finished env name path tables).

Lemma Forall2_task_later_refl (ts : list Task) : Forall2 task_later ts ts.
Proof. apply Forall_Forall2_diag, Forall_true. intros t. reflexivity. Qed.

Lemma Forall2_task_later_trans (ts1 ts2 ts3 : list Task) :
  Forall2 task_later ts1 ts2 → Forall2 task_later ts2 ts3 → Forall2 task_later ts1 ts3.
Proof. apply Forall2_trans. intros x y z. apply transitivity. Qed.

(** One step of a task: a return, never an exception; the task moves
    on by one table or sets its shared state. *)
Lemma task_step_returns t w :
  inv t →
  returns (task_step env name path tables t) w
    (λ t' w', inv t' ∧ task_later t t'
              ∧ (task_state t = not_ready →
                 task_state t' ≠ not_ready ∨ task_it t' = S (task_it t))
              ∧ loads_of tables w w').
Proof.
  destruct t as [it e st]. intros [[Hle Hend] Hst]. cbn in Hle, Hend.
  unfold task_step. cbn [task_state task_it task_end].
  destruct st as [| |ex]; cycle 1.
  { apply returns_ret. repeat split; try done; reflexivity. }
  { apply returns_ret. repeat split; try done; reflexivity. }
  destruct (Nat.eqb_spec it e) as [->|Hne].
  { apply returns_ret. split; [split; [done | by right]|].
    split; [done|]. split; [by left | reflexivity]. }
  destruct (lookup_lt_is_Some_2 tables it) as [table Htable]; [lia|].
  rewrite Htable. unfold returns.
  pose proof (loadTable_defined env path name table w) as Hdef.
  pose proof (loadTable_load_calls env path name table w) as Hcalls.
  assert (Hloads : loads_of tables w (snd (loadTable env path name table w))).
  { exists [table]. split; [done|]. constructor; [|done].
    by eapply list_elem_of_lookup_2. }
  destruct (loadTable env path name table w) as [[[]|ex|] w'] eqn:Hload; [| |done].
  - eexists _, _. split; [done|].
    split; [split; [split; cbn; lia | by left]|].
    split; [split; [done | split; [cbn; lia | done]]|].
    split; [by right | done].
  - eexists _, _. split; [done|].
    split; [split; [split; cbn; lia | right]|].
    { unfold task_finished. cbn [task_state task_it task_end].
      split; [lia|]. by exists table, w, w'. }
    split; [split; [done | split; [cbn; lia | done]]|].
    split; [by left | done].
Qed.

Lemma task_steps_returns n t w :
  inv t →
  returns (task_steps env name path n tables t) w
    (λ t' w', inv t' ∧ task_later t t'
              ∧ (task_end t - task_it t < n → task_state t' ≠ not_ready)
              ∧ loads_of tables w w').
Proof.
  revert t w. induction n as [|n IH]; intros t w Hinv.
  { apply returns_ret. split; [done|]. split; [reflexivity|].
    split; [intros ?; lia | reflexivity]. }
  cbn [task_steps]. apply returns_bind.
  eapply returns_weaken; [by apply task_step_returns|].
  intros t1 w1 (Hinv1 & Hlater1 & Hprog & Hloads1).
  eapply returns_weaken; [by apply IH|].
  intros t2 w2 (Hinv2 & Hlater2 & Hfuel & Hloads2).
  split; [done|]. split; [by etransitivity|]. split; [|by etransitivity].
  intros Hn. destruct Hlater1 as (Hend1 & Hit1 & Hsame1).
  destruct Hlater2 as (Hend2 & Hit2 & Hsame2).
  destruct (decide (task_state t = not_ready)) as [Hnr|Hr].
  - destruct (Hprog Hnr) as [Hready|Hnext].
    + by rewrite (Hsame2 Hready).
    + apply Hfuel. destruct Hinv1 as [[Hb1 Hb2] _]. lia.
  - rewrite (Hsame1 Hr) in Hsame2. by rewrite (Hsame2 Hr).
Qed.

(** [tasks[i]()] returns with the shared state set. *)
Lemma task_call_returns t w :
  inv t →
  returns (task_call env name path tables t) w
    (λ t' w', inv t' ∧ task_later t t' ∧ finished t' ∧ loads_of tables w w').
Proof.
  intros Hinv. unfold task_call.
  eapply returns_weaken; [by apply task_steps_returns|].
  intros t' w' (Hinv' & Hlater & Hfuel & Hloads).
  split; [done|]. split; [done|]. split; [|done].
  destruct Hinv' as [_ [Hnr|Hfin]]; [|done].
  specialize (Hfuel ltac:(lia)). done.
Qed.

Lemma call_all_returns ts w :
  Forall inv ts →
  returns (call_all env name path tables ts) w
    (λ ts' w', Forall2 task_later ts ts' ∧ Forall finished ts'
               ∧ loads_of tables w w').
Proof.
  revert w. induction ts as [|t ts IH]; intros w Hall.
  { apply returns_ret. split; [done|]. split; [done | reflexivity]. }
  apply Forall_cons in Hall as [Ht Hts].
  cbn [call_all]. apply returns_bind.
  eapply returns_weaken; [by apply task_call_returns|].
  intros t' w1 (_ & Hlater & Hfin & Hloads1).
  apply returns_bind. eapply returns_weaken; [by apply IH|].
  intros ts' w2 (Hlaters & Hfins & Hloads2).
  apply returns_ret. split; [by constructor|].
  split; [by constructor | by etransitivity].
Qed.

Lemma pool_run_returns schedule ts w :
  Forall inv ts →
  returns (pool_run env name path schedule tables ts) w
    (λ ts' w', Forall2 task_later ts ts' ∧ Forall inv ts' ∧ loads_of tables w w').
Proof.
  revert ts w. induction schedule as [|i schedule IH]; intros ts w Hall.
  { apply returns_ret. split; [apply Forall2_task_later_refl|].
    split; [done | reflexivity]. }
  cbn [pool_run]. destruct (ts !! i) as [t|] eqn:Hi; [|by apply IH].
  apply returns_bind.
  eapply returns_weaken;
    [apply task_step_returns; by eapply Forall_lookup_1|].
  intros t' w1 (Hinv' & Hlater & _ & Hloads1).
  eapply returns_weaken; [apply IH; by apply Forall_insert|].
  intros ts' w2 (Hlaters & Hinvs & Hloads2).
  split; [|split; [done | by etransitivity]].
  eapply Forall2_task_later_trans; [|done].
  rewrite <- (list_insert_id ts i t Hi) at 1.
  apply Forall2_insert; [apply Forall2_task_later_refl | done].
Qed.

(** With or without a pool, every task has run to its end when
    [run_tasks] returns, and it always returns. *)
Lemma run_tasks_returns thread_pool ts w :
  Forall inv ts →
  returns (run_tasks env name path thread_pool tables ts) w
    (λ ts' w', Forall2 task_later ts ts' ∧ Forall finished ts'
               ∧ loads_of tables w w').
Proof.
  intros Hall. destruct thread_pool as [schedule|]; cbn [run_tasks];
    [|by apply call_all_returns].
  apply returns_bind. eapply returns_weaken; [by apply pool_run_returns|].
  intros ts1 w1 (Hlaters1 & Hinvs1 & Hloads1).
  eapply returns_weaken; [by apply call_all_returns|].
  intros ts2 w2 (Hlaters2 & Hfin & Hloads2).
  split; [by eapply Forall2_task_later_trans|]. split; [done | by etransitivity].
Qed.

End tasks.

(** ** The bunches *)

Lemma make_tasks_lookup total_tables i t :
  make_tasks total_tables !! i = Some t →
  task_state t = not_ready
  ∧ task_it t = i * TABLES_PARALLEL_LOAD_BUNCH_SIZE
  ∧ task_it t ≤ task_end t ∧ task_end t ≤ total_tables.
Proof.
  unfold make_tasks, TABLES_PARALLEL_LOAD_BUNCH_SIZE. cbv zeta.
  pose proof (Nat.Div0.mul_div_le (total_tables + 100 - 1) 100) as Hdiv.
  set (num := (total_tables + 100 - 1) `div` 100) in *. clearbody num.
  rewrite list_lookup_fmap.
  destruct (seq 0 num !! i) as [j|] eqn:Hseq; [|done].
  apply lookup_seq in Hseq as [-> Hlt]. intros [= <-].
  cbn [task_state task_it task_end]. split; [done|]. split; [done|].
  change (0 + i) with i.
  destruct (Nat.eqb_spec (i + 1) num); lia.
Qed.

Lemma make_tasks_inv env name path tables :
  Forall (task_inv env name path tables) (make_tasks (length tables)).
Proof.
  apply Forall_lookup. intros i t Hi.
  apply make_tasks_lookup in Hi as (Hst & _ & Hle & Hend).
  split; [done | by left].
Qed.

(** ** Joining the tasks *)

Lemma get_futures_world ts w : snd (get_futures ts w) = w.
Proof.
  induction ts as [|t ts IH]; [done|]. cbn [get_futures].
  by destruct (task_state t).
Qed.

Lemma get_futures_values ts w :
  (∀ t, t ∈ ts → task_state t = has_value) → get_futures ts w = (Ok (), w).
Proof.
  induction ts as [|t ts IH]; intros Hall; [done|]. cbn [get_futures].
  rewrite (Hall t) by by left. apply IH. intros t' Hin. apply Hall. by right.
Qed.

Lemma get_futures_first_exception ts i t e w :
  ts !! i = Some t →
  task_state t = has_exception e →
  (∀ j t', j < i → ts !! j = Some t' → task_state t' = has_value) →
  get_futures ts w = (Throw e, w).
Proof.
  revert i. induction ts as [|t0 ts IH]; intros i Hi He Hbefore; [done|].
  cbn [get_futures]. destruct i as [|i].
  - injection Hi as ->. by rewrite He.
  - rewrite (Hbefore 0 t0) by (done || lia).
    apply (IH i); [done..|]. intros j t' Hj Hlook. apply (Hbefore (S j) t'); [lia | done].
Qed.

(** The bunches of the normal group, with or without a pool: the call
    that runs them always returns, whatever [loadTable] throws in any
    bunch; every task has then run to its end, either past the last table
    of its bunch or up to the table whose [loadTable] threw the exception
    it stores; and reading the futures in index order throws the
    exception of the first task that stores one. *)
Lemma run_tasks_join (env : Environment) (name path : string)
    (thread_pool : option (list nat)) (tables : list string) (w : World) :
  ∃ tasks' w',
    run_tasks env name path thread_pool tables (make_tasks (length tables)) w
    = (Ok tasks', w')
    ∧ length tasks' = length (make_tasks (length tables))
    ∧ (∀ i t0, make_tasks (length tables) !! i = Some t0 →
         ∃ t', tasks' !! i = Some t'
               ∧ task_end t' = task_end t0 ∧ task_it t0 ≤ task_it t'
               ∧ task_finished env name path tables t')
    ∧ ((∀ t', t' ∈ tasks' → task_state t' = has_value) →
       get_futures tasks' w' = (Ok (), w'))
    ∧ (∀ i t' e,
         tasks' !! i = Some t' → task_state t' = has_exception e →
         (∀ j t'', j < i → tasks' !! j = Some t'' → task_state t'' = has_value) →
         get_futures tasks' w' = (Throw e, w')).
Proof.
  destruct (run_tasks_returns env name path tables thread_pool
              (make_tasks (length tables)) w (make_tasks_inv env name path tables))
    as (tasks' & w' & Hrun & Hlater & Hfin & _).
  exists tasks', w'. split; [done|].
  split; [symmetry; by eapply Forall2_length|]. split; [|split].
  - intros i t0 Hi.
    destruct (Forall2_lookup_l _ _ _ _ _ Hlater Hi) as (t' & Hi' & Hend & Hit & _).
    exists t'. split; [done|]. split; [done|]. split; [done|].
    by eapply Forall_lookup_1.
  - apply get_futures_values.
  - intros i t' e. apply get_futures_first_exception.
Qed.

(** ** The order of loading *)

Lemma split_tables_eq (file_names : list string) :
  split_tables file_names
  = (filter (λ f, is_inner f = true) file_names,
     filter (λ f, is_inner f = false) file_names).
Proof.
  unfold split_tables.
  assert (Hgen : ∀ a b,
    foldl (λ acc file_name,
             if is_inner file_name
             then (fst acc ++ [file_name], snd acc)
             else (fst acc, snd acc ++ [file_name])) (a, b) file_names
    = (a ++ filter (λ f, is_inner f = true) file_names,
       b ++ filter (λ f, is_inner f = false) file_names)).
  { induction file_names as [|f l IH]; intros a b.
    - by rewrite !app_nil_r.
    - cbn [foldl]. rewrite !filter_cons. destruct (is_inner f) eqn:Hf; cbn [fst snd].
      + rewrite IH, decide_True, decide_False by done. by rewrite <- app_assoc.
      + rewrite IH, decide_False, decide_True by done. by rewrite <- app_assoc. }
  apply (Hgen [] []).
Qed.


(** The loop over [tables_to_load_first]: the calls are a prefix of the
    list, all of it when the loop returns. *)
Lemma load_first_calls env name path l w :
  ∃ loaded,
    load_calls (snd (load_first env name path l w)) = load_calls w ++ loaded
    ∧ loaded `prefix_of` l
    ∧ match fst (load_first env name path l w) with
      | Ok _ => loaded = l
      | Throw _ => True
      | Undefined => False
      end.
Proof.
  revert w. induction l as [|t l IH]; intros w.
  { exists []. by rewrite app_nil_r. }
  cbn [load_first]. unfold bind.
  pose proof (loadTable_defined env path name t w) as Hdef.
  pose proof (loadTable_load_calls env path name t w) as Hcalls.
  destruct (loadTable env path name t w) as [[[]|e|] w1]; [| |done]; cbn in Hcalls.
  - destruct (IH w1) as (loaded & Hloaded & Hprefix & Hres).
    exists (t :: loaded). rewrite Hloaded, Hcalls, <- app_assoc.
    split; [done|]. split; [by apply prefix_cons|].
    destruct (fst (load_first env name path l w1)); [by subst | done..].
  - exists [t]. split; [done|]. split; [|done].
    by apply prefix_cons, prefix_nil.
Qed.


(** The constructor on such a directory: both inner tables, then the
    others. *)
Example load_order_example :
  let w := world_of ∅ [("/m/b.sql", "ATTACH TABLE b");
                       ("/m/%2Einner%2Ez.sql", "ATTACH TABLE .inner.z");
                       ("/m/a.sql", "ATTACH TABLE a");
                       ("/m/%2Einner%2Ec.sql", "ATTACH TABLE .inner.c")] [] [] in
  let r := DatabaseOrdinary plain_env "db" "/m" (Some [0; 0]) w in
  fst r = Ok ()
  ∧ load_calls (snd r) = ["%2Einner%2Ec.sql"; "%2Einner%2Ez.sql"; "a.sql"; "b.sql"].
Proof. vm_compute. done. Qed.

(** ** The constructor, phase by phase *)

Lemma DatabaseOrdinary_normal_group env name path thread_pool w file_names w1 w2 :
  scan_directory path (directory_entries path (fs w)) [] (set_tables ∅ w)
  = (Ok file_names, w1) →
  load_first env name path (filter (λ f, is_inner f = true) (sort_names file_names)) w1
  = (Ok (), w2) →
  let tables := filter (λ f, is_inner f = false) (sort_names file_names) in
  DatabaseOrdinary env name path thread_pool w
  = bind (run_tasks env name path thread_pool tables (make_tasks (length tables)))
         (get_futures) w2.
Proof.
  intros Hscan Hfirst tables. unfold DatabaseOrdinary.
  erewrite bind_Ok by reflexivity. erewrite bind_Ok by reflexivity.
  erewrite bind_Ok by exact Hscan.
  rewrite split_tables_eq. cbv beta iota zeta.
  by erewrite bind_Ok by exact Hfirst.
Qed.


(** The directory [{a.sql, b.sql.tmp, c.sql}] with an empty [c.sql]: the
    constructor returns, the catalog holds [a] alone, and of the three
    files only [a.sql] is left. *)
Example bootstrap_scenario :
  let w := world_of ∅ [("/m/a.sql", "ATTACH TABLE a"); ("/m/b.sql.tmp", "ATT");
                       ("/m/c.sql", "")] [] [] in
  let r := DatabaseOrdinary plain_env "db" "/m" None w in
  fst r = Ok ()
  ∧ map_to_list (tables (snd r)) = [("a", Storage 1)]
  ∧ files (fs (snd r)) = [("/m/a.sql", "ATTACH TABLE a")].
Proof. vm_compute. done. Qed.

(** * Further properties *)

(** ** The string tests *)

Lemma substring_append_r (pre suffix : string) :
  String.substring (String.length pre) (String.length suffix) (pre +:+ suffix) = suffix.
Proof.
  induction pre as [|c pre IH]; [apply substring_0_length|].
  rewrite append_String. cbn [String.length String.substring]. apply IH.
Qed.

Lemma substring_0_append (pre rest : string) :
  String.substring 0 (String.length pre) (pre +:+ rest) = pre.
Proof.
  induction pre as [|c pre IH]; [by destruct rest|].
  rewrite append_String. cbn [String.length String.substring]. by rewrite IH.
Qed.

Lemma substring_nil (n m : nat) : String.substring n m "" = "".
Proof. by destruct n, m. Qed.

Lemma string_append_nil_r (s : string) : s +:+ "" = s.
Proof. induction s as [|c s IH]; [done|]. by rewrite append_String, IH. Qed.

Lemma substring_split_any (s : string) (n : nat) :
  s = String.substring 0 n s +:+ String.substring n (String.length s - n) s.
Proof.
  revert n. induction s as [|c s IH]; intros n.
  - by rewrite !substring_nil.
  - destruct n as [|n].
    + cbn [String.substring String.length Nat.sub]. by rewrite substring_0_length.
    + cbn [String.substring String.length Nat.sub]. rewrite append_String.
      f_equal. apply IH.
Qed.

(** X1. [endsWith] is true exactly for the strings that end in the
    suffix; a string shorter than the suffix is handled by the length
    test and gives false. *)
Theorem endsWith_iff_suffix (s suffix : string) :
  (endsWith s suffix = true ↔ ∃ pre, s = pre +:+ suffix)
  ∧ (String.length s < String.length suffix → endsWith s suffix = false).
Proof.
  split; [split|].
  - apply endsWith_append.
  - intros [pre ->]. unfold endsWith. rewrite string_length_append.
    apply andb_true_iff. split; [apply Nat.leb_le; lia|].
    replace (String.length pre + String.length suffix - String.length suffix)
      with (String.length pre) by lia.
    rewrite substring_append_r. apply String.eqb_refl.
  - intros Hlt. unfold endsWith.
    replace (String.length suffix <=? String.length s)%nat with false; [done|].
    symmetry. apply Nat.leb_gt. lia.
Qed.

Lemma is_inner_iff_prefix (file_name : string) :
  is_inner file_name = true ↔ ∃ rest, file_name = "%2Einner%2E" +:+ rest.
Proof.
  unfold is_inner. rewrite String.eqb_eq. split.
  - intros Hsub. eexists.
    rewrite (substring_split_any file_name (String.length "%2Einner%2E")) at 1.
    by rewrite Hsub.
  - intros [rest ->]. apply substring_0_append.
Qed.

(** X2. The loop that fills [tables_to_load_first] and [tables] loses
    and repeats nothing: the first list holds exactly the names that
    start with [%2Einner%2E], the second the others, each in the order
    of [file_names]. *)
Theorem split_tables_partition (file_names : list string) :
  let first := fst (split_tables file_names) in
  let others := snd (split_tables file_names) in
  first ++ others ≡ₚ file_names
  ∧ first `sublist_of` file_names
  ∧ others `sublist_of` file_names
  ∧ (∀ f, f ∈ first ↔ f ∈ file_names ∧ ∃ rest, f = "%2Einner%2E" +:+ rest)
  ∧ (∀ f, f ∈ others ↔ f ∈ file_names ∧ ¬ ∃ rest, f = "%2Einner%2E" +:+ rest).
Proof.
  rewrite split_tables_eq. cbn [fst snd].
  split; [|split; [|split; [|split]]].
  - rewrite <- (filter_app_complement (λ f, is_inner f = true) file_names) at 3.
    f_equiv. apply reflexive_eq, list_filter_iff. intros f.
    by destruct (is_inner f).
  - apply sublist_filter.
  - apply sublist_filter.
  - intros f. rewrite list_elem_of_filter, is_inner_iff_prefix. tauto.
  - intros f. rewrite list_elem_of_filter, <- is_inner_iff_prefix.
    destruct (is_inner f); intuition congruence.
Qed.

(** ** The table map: attach, detach, lookups *)

(** X3. After [attachTable] on a free name the table is found under
    that name with the handle given, no other name and no file has
    changed, and any further [attachTable] on the name is refused with
    [TABLE_ALREADY_EXISTS] and replaces nothing. *)
Theorem attachTable_then_lookup (name n : string) (h : StoragePtr) (w : World) :
  tables w !! n = None →
  ∃ w1, attachTable name n h w = (Ok (), w1)
        ∧ tryGetTable n w1 = (Ok h, w1)
        ∧ isTableExist n w1 = (Ok true, w1)
        ∧ (∀ n', n' ≠ n → tables w1 !! n' = tables w !! n')
        ∧ fs w1 = fs w
        ∧ ∀ h', attachTable name n h' w1
                = (Throw (Exception ("Table " +:+ name +:+ "." +:+ n +:+ " already exists.")
                                    TABLE_ALREADY_EXISTS), w1).
Proof.
  intros Hn. eexists. split; [by apply attachTable_absent|].
  assert (Hlook : tables (set_tables (<[n:=h]> (tables w)) w) !! n = Some h)
    by apply lookup_insert_eq.
  split; [|split; [|split; [|split]]].
  - unfold tryGetTable. unfold_monad. by rewrite Hlook.
  - unfold isTableExist. unfold_monad. rewrite Hlook.
    by rewrite bool_decide_true by eauto.
  - intros n' Hne. cbn [tables set_tables]. by rewrite lookup_insert_ne.
  - done.
  - intros h'. by eapply attachTable_present.
Qed.

Lemma attachTable_then_lookup_witness :
  let w := world_of {[ "u" := Storage 1 ]} [("/m/u.sql", "ATTACH TABLE u")] [] [] in
  ∃ w1, attachTable "db" "t" (Storage 2) w = (Ok (), w1)
        ∧ tryGetTable "t" w1 = (Ok (Storage 2), w1)
        ∧ isTableExist "t" w1 = (Ok true, w1)
        ∧ (∀ n', n' ≠ "t" → tables w1 !! n' = tables w !! n')
        ∧ fs w1 = fs w
        ∧ ∀ h', attachTable "db" "t" h' w1
                = (Throw (Exception ("Table " +:+ "db" +:+ "." +:+ "t" +:+ " already exists.")
                                    TABLE_ALREADY_EXISTS), w1).
Proof.
  intros w. apply (attachTable_then_lookup "db" "t" (Storage 2) w). reflexivity.
Defined.

(** X4. [detachTable] on a name in the map returns its handle and
    removes that entry alone: the name is no longer found, every other
    name is bound as before, no file is touched and no [shutdown] is
    called; a second [detachTable] on the name throws. *)
Theorem detachTable_then_lookup (name n : string) (h : StoragePtr) (w : World) :
  tables w !! n = Some h →
  ∃ w1, detachTable name n w = (Ok h, w1)
        ∧ tryGetTable n w1 = (Ok nullptr, w1)
        ∧ isTableExist n w1 = (Ok false, w1)
        ∧ (∀ n', n' ≠ n → tables w1 !! n' = tables w !! n')
        ∧ fs w1 = fs w
        ∧ shutdown_calls w1 = shutdown_calls w
        ∧ ∃ e, detachTable name n w1 = (Throw e, w1).
Proof.
  intros Hn. eexists. split; [by apply detachTable_present|].
  assert (Hlook : tables (set_tables (delete n (tables w)) w) !! n = None)
    by apply lookup_delete_eq.
  split; [|split; [|split; [|split; [|split]]]].
  - unfold tryGetTable. unfold_monad. by rewrite Hlook.
  - unfold isTableExist. unfold_monad. rewrite Hlook.
    by rewrite bool_decide_false by (by intros [? ?]).
  - intros n' Hne. cbn [tables set_tables]. by rewrite lookup_delete_ne.
  - done.
  - done.
  - eexists. by apply detachTable_absent.
Qed.

Lemma detachTable_then_lookup_witness :
  let w := world_of {[ "u" := Storage 1; "t" := Storage 2 ]}
             [("/m/u.sql", "ATTACH TABLE u")] [] [] in
  ∃ w1, detachTable "db" "t" w = (Ok (Storage 2), w1)
        ∧ tryGetTable "t" w1 = (Ok nullptr, w1)
        ∧ isTableExist "t" w1 = (Ok false, w1)
        ∧ (∀ n', n' ≠ "t" → tables w1 !! n' = tables w !! n')
        ∧ fs w1 = fs w
        ∧ shutdown_calls w1 = shutdown_calls w
        ∧ ∃ e, detachTable "db" "t" w1 = (Throw e, w1).
Proof.
  intros w. apply (detachTable_then_lookup "db" "t" (Storage 2) w).
  vm_compute. reflexivity.
Defined.

(** X5. [empty] answers true exactly when [isTableExist] answers false
    for every name, and neither changes the world. *)
Theorem empty_iff_no_table (w : World) :
  (empty w = (Ok true, w) ↔ ∀ n, isTableExist n w = (Ok false, w))
  ∧ (empty w = (Ok false, w) ↔ ∃ n, isTableExist n w = (Ok true, w)).
Proof.
  unfold empty, isTableExist. unfold_monad. split; split.
  - intros [= Hempty]. apply bool_decide_eq_true in Hempty. intros n.
    rewrite Hempty, lookup_empty. by rewrite bool_decide_false by (by intros [? ?]).
  - intros Hall. rewrite bool_decide_true; [done|].
    apply map_empty. intros n. specialize (Hall n).
    injection Hall as Hall. apply bool_decide_eq_false in Hall.
    by apply eq_None_not_Some.
  - intros [= Hne]. apply bool_decide_eq_false in Hne.
    destruct (map_choose _ Hne) as (n & h & Hn). exists n.
    rewrite Hn. by rewrite bool_decide_true by eauto.
  - intros [n [= Hn]]. apply bool_decide_eq_true in Hn as [h Hn].
    rewrite bool_decide_false; [done|]. intros Hempty.
    rewrite Hempty, lookup_empty in Hn. done.
Qed.

(** ** shutdown *)

#[global] Instance key_le_total : Total key_le.
Proof. intros a b. apply string_le_total. Qed.

Lemma shutdown_each_calls (l : list (string * StoragePtr)) (w : World) :
  Forall (λ e, snd e ≠ nullptr) l →
  shutdown_each l w
  = (Ok (), {| tables := tables w; fs := fs w; asts := asts w;
               shutdown_calls := shutdown_calls w ++ (snd <$> l);
               load_calls := load_calls w |}).
Proof.
  revert w. induction l as [|[k h] l IH]; intros w Hall.
  { cbn. rewrite app_nil_r. by rewrite World_eta. }
  apply Forall_cons in Hall as [Hh Hall]. cbn [shutdown_each snd].
  destruct h as [|id]; [done|]. unfold call_shutdown.
  erewrite bind_Ok by reflexivity. rewrite IH by done.
  cbn. by rewrite <- app_assoc.
Qed.

(** X6. In a map without null handles [shutdown] calls [shutdown()] on
    every handle of the map, once per entry and in the order of the
    names, and leaves the map empty and the files alone; the lookups
    then find nothing, and a second [shutdown] calls nothing. *)
Theorem shutdown_calls_each_once (w : World) :
  (∀ n, tables w !! n ≠ Some nullptr) →
  ∃ w', shutdown w = (Ok (), w')
        ∧ shutdown_calls w' = shutdown_calls w ++ (snd <$> entries (tables w))
        ∧ entries (tables w) ≡ₚ map_to_list (tables w)
        ∧ Sorted key_le (entries (tables w))
        ∧ tables w' = ∅ ∧ fs w' = fs w
        ∧ empty w' = (Ok true, w')
        ∧ shutdown w' = (Ok (), w').
Proof.
  intros Hnonnull.
  assert (Hperm : entries (tables w) ≡ₚ map_to_list (tables w))
    by apply merge_sort_Permutation.
  assert (Hall : Forall (λ e, snd e ≠ nullptr) (entries (tables w))).
  { apply Forall_forall. intros [k h] Hin. rewrite Hperm in Hin.
    apply elem_of_map_to_list in Hin. cbn. intros ->. by apply (Hnonnull k). }
  eexists. split.
  { unfold shutdown. erewrite bind_Ok by reflexivity.
    erewrite bind_Ok by (by apply shutdown_each_calls). reflexivity. }
  cbn [shutdown_calls tables fs set_tables].
  split; [done|]. split; [done|]. split; [apply Sorted_merge_sort, _|].
  split; [done|]. split; [done|]. split.
  - unfold empty. unfold_monad. by rewrite bool_decide_true.
  - unfold shutdown. erewrite bind_Ok by reflexivity. cbn [tables set_tables].
    unfold entries. rewrite map_to_list_empty. reflexivity.
Qed.

Lemma shutdown_calls_each_once_witness :
  let w := world_of {[ "u" := Storage 1; "t" := Storage 2 ]} [] [] [] in
  ∃ w', shutdown w = (Ok (), w')
        ∧ shutdown_calls w' = [Storage 2; Storage 1]
        ∧ tables w' = ∅.
Proof.
  intros w.
  destruct (shutdown_calls_each_once w) as (w' & Hrun & Hcalls & _ & _ & Hempty & _).
  - intros n. unfold w, world_of. cbn [tables].
    destruct (decide (n = "u")) as [->|Hu]; [by rewrite lookup_insert_eq|].
    rewrite lookup_insert_ne by done.
    destruct (decide (n = "t")) as [->|Ht]; [by rewrite lookup_singleton_eq|].
    by rewrite lookup_singleton_ne.
  - exists w'. split; [exact Hrun|]. split; [|exact Hempty].
    rewrite Hcalls. vm_compute. reflexivity.
Defined.

(** ** createTable and removeTable together *)

Lemma filter_absent (p : string) (l : list (string * string)) :
  existsb (λ e : string * string, String.eqb (fst e) p) l = false →
  filter (λ e, fst e ≠ p) l = l.
Proof.
  intros Hl. apply filter_all. apply Forall_forall. intros e Hin Heq.
  apply list_elem_of_In in Hin.
  assert (existsb (λ e : string * string, String.eqb (fst e) p) l = true); [|congruence].
  apply existsb_exists. exists e. split; [done|]. by apply String.eqb_eq.
Qed.

Lemma rename_absent (tmp final : string) (l : list (string * string)) :
  existsb (λ e : string * string, String.eqb (fst e) tmp) l = false →
  map (λ e : string * string, if String.eqb (fst e) tmp then (final, snd e) else e) l = l.
Proof.
  induction l as [|e l IH]; [done|]. cbn [existsb map].
  intros [He Hl]%orb_false_elim. by rewrite He, IH.
Qed.

Lemma rename_no_source (tmp final : string) (l : list (string * string)) :
  tmp ≠ final →
  existsb (λ e : string * string, String.eqb (fst e) tmp)
    (map (λ e : string * string, if String.eqb (fst e) tmp then (final, snd e) else e) l)
  = false.
Proof.
  intros Hne. induction l as [|e l IH]; [done|]. cbn [existsb map].
  rewrite IH, orb_false_r. destruct (String.eqb (fst e) tmp) eqn:He; [|done].
  cbn [fst]. apply String.eqb_neq. congruence.
Qed.

Lemma find_renamed_other (tmp final p s : string) (l : list (string * string)) :
  p ≠ tmp → p ≠ final →
  find (λ e : string * string, String.eqb (fst e) p)
    (map (λ e, if String.eqb (fst e) tmp then (final, snd e) else e)
       (filter (λ e, fst e ≠ final) (l ++ [(tmp, s)])))
  = find (λ e : string * string, String.eqb (fst e) p) l.
Proof.
  intros Hpt Hpf. induction l as [|e l IH].
  - cbn [app]. rewrite filter_cons. case_decide; cbn; [|done].
    rewrite String.eqb_refl. cbn.
    by replace (String.eqb final p) with false by (symmetry; by apply String.eqb_neq).
  - cbn [app]. rewrite filter_cons. case_decide as Hef; cbn [map find].
    + destruct (String.eqb_spec (fst e) tmp) as [Het|Het]; cbn [fst].
      * rewrite <- Het in Hpt.
        replace (String.eqb final p) with false by (symmetry; by apply String.eqb_neq).
        replace (String.eqb (fst e) p) with false by (symmetry; by apply String.eqb_neq).
        apply IH.
      * destruct (String.eqb (fst e) p); [done | apply IH].
    + replace (String.eqb (fst e) p) with false; [apply IH|].
      symmetry. apply String.eqb_neq. congruence.
Qed.

Lemma removeTable_cases env name path n h w :
  tables w !! n = Some h →
  let p := path +:+ "/" +:+ escapeForFileName env n in
  let detached := set_tables (delete n (tables w)) w in
  removeTable env name path n w
  = match File_remove p detached with
    | (Ok _, w1) => (Ok h, w1)
    | (Throw e, _) => (Throw e, w)
    | (Undefined, w1) => (Undefined, w1)
    end.
Proof.
  intros Hn p detached. unfold removeTable. fold p.
  erewrite bind_Ok by by apply detachTable_present. fold detached.
  unfold bind at 1. unfold try_catch.
  destruct (File_remove p detached) as [[[]|e|] w1] eqn:Hrm; [done| |done].
  apply File_remove_Throw in Hrm as ->.
  erewrite bind_Ok by (apply attachTable_absent; apply lookup_delete_eq).
  unfold throw, detached. cbn [tables set_tables].
  rewrite set_tables_twice, insert_delete_id by done. by rewrite set_tables_same.
Qed.

(** X7. [createTable] on a name that is taken throws
    [TABLE_ALREADY_EXISTS] at its first check: the entry keeps its
    handle, no file is created, and the caller's definition is as it
    was. *)
Theorem createTable_name_taken (env : Environment) (name path n : string)
    (h h0 : StoragePtr) (query : ASTPtr) (engine : string) (q : ASTCreateQuery)
    (w : World) :
  asts w !! query = Some q →
  tables w !! n = Some h0 →
  ∃ w', createTable env name path n h query engine w
        = (Throw (Exception ("Table " +:+ name +:+ "." +:+ n +:+ " already exists.")
                            TABLE_ALREADY_EXISTS), w')
        ∧ tables w' = tables w ∧ fs w' = fs w ∧ asts w' !! query = Some q.
Proof.
  intros Hq Hn. eexists. split; [by eapply createTable_taken|].
  split; [done|]. split; [done|]. by apply lookup_app_l_Some.
Qed.

Lemma createTable_name_taken_witness :
  let w := world_of {[ "t" := Storage 9 ]} [] [] [sample_query] in
  ∃ w', createTable plain_env "db" "/m" "t" (Storage 1) 0 "Log" w
        = (Throw (Exception ("Table " +:+ "db" +:+ "." +:+ "t" +:+ " already exists.")
                            TABLE_ALREADY_EXISTS), w')
        ∧ tables w' = tables w ∧ fs w' = fs w ∧ asts w' !! 0 = Some sample_query.
Proof.
  intros w.
  apply (createTable_name_taken plain_env "db" "/m" "t" (Storage 1) (Storage 9) 0 "Log"
           sample_query w); reflexivity.
Defined.

(** X8. While a file [<escaped>.sql.tmp] is in the directory,
    [createTable] of that table fails when it opens the temporary file
    (exclusive creation): the exception is the one of the file buffer,
    and table map and files are as before. *)
Theorem createTable_temp_file_in_the_way (env : Environment) (name path n : string)
    (h : StoragePtr) (query : ASTPtr) (engine : string) (q : ASTCreateQuery)
    (w : World) :
  let tmp := path +:+ "/" +:+ escapeForFileName env n +:+ ".sql.tmp" in
  asts w !! query = Some q →
  tables w !! n = None →
  file_exists tmp (fs w) = true →
  ∃ w', createTable env name path n h query engine w
        = (Throw (Exception ("Cannot open file " +:+ tmp) CANNOT_OPEN_FILE), w')
        ∧ tables w' = tables w ∧ fs w' = fs w.
Proof.
  intros tmp Hq Hn Hex. eexists.
  erewrite createTable_cases by done. fold tmp.
  rewrite Hex, orb_true_r. done.
Qed.

Lemma createTable_temp_file_in_the_way_witness :
  let w := world_of ∅ [("/m/t.sql.tmp", "ATT")] [] [sample_query] in
  ∃ w', createTable plain_env "db" "/m" "t" (Storage 1) 0 "Log" w
        = (Throw (Exception ("Cannot open file " +:+ "/m/t.sql.tmp") CANNOT_OPEN_FILE), w')
        ∧ tables w' = tables w ∧ fs w' = fs w.
Proof.
  intros w.
  apply (createTable_temp_file_in_the_way plain_env "db" "/m" "t" (Storage 1) 0 "Log"
           sample_query w); reflexivity.
Defined.

(** X9. [createTable] on a free name, with no temporary file in the way
    and no I/O fault, returns: the name is bound to the handle and no
    other binding changes, the temporary file is gone, the descriptor
    [<path>/<escaped>] holds the statement, and every other file is as
    it was. *)
Theorem createTable_publishes (env : Environment) (name path n : string)
    (h : StoragePtr) (query : ASTPtr) (engine : string) (q : ASTCreateQuery)
    (w : World) :
  let tmp := path +:+ "/" +:+ escapeForFileName env n +:+ ".sql.tmp" in
  let final := path +:+ "/" +:+ escapeForFileName env n in
  asts w !! query = Some q →
  tables w !! n = None →
  is_faulty tmp (fs w) = false → file_exists tmp (fs w) = false →
  is_faulty final (fs w) = false →
  ∃ w', createTable env name path n h query engine w = (Ok (), w')
        ∧ tables w' = <[n := h]> (tables w)
        ∧ file_exists tmp (fs w') = false
        ∧ file_content final (fs w')
          = Some (formatAST env (attach_form engine q) +:+ newline)
        ∧ (∀ p, p ≠ tmp → p ≠ final → file_content p (fs w') = file_content p (fs w))
        ∧ faulty (fs w') = faulty (fs w).
Proof.
  intros tmp final Hq Hn Hft Het Hff. eexists.
  erewrite createTable_cases by done. fold tmp final.
  rewrite Hft, Het, Hff. cbn [orb]. split; [reflexivity|].
  cbn [tables fs files faulty set_files set_fs set_tables set_asts].
  split; [done|]. split; [|split; [|split; [|done]]].
  - unfold file_exists. cbn [files]. apply rename_no_source, tmp_path_ne.
  - unfold file_content. cbn [files].
    rewrite find_renamed; [done | apply tmp_path_ne | done].
  - intros p Hpt Hpf. unfold file_content. cbn [files].
    by rewrite find_renamed_other.
Qed.

Lemma createTable_publishes_witness :
  let w := world_of {[ "u" := Storage 1 ]} [("/m/u", "ATTACH TABLE u")] [] [sample_query] in
  ∃ w', createTable plain_env "db" "/m" "t" (Storage 2) 0 "View" w = (Ok (), w')
        ∧ tables w' = <["t" := Storage 2]> (tables w)
        ∧ file_exists "/m/t.sql.tmp" (fs w') = false
        ∧ file_content "/m/t" (fs w')
          = Some (formatAST plain_env (attach_form "View" sample_query) +:+ newline)
        ∧ (∀ p, p ≠ "/m/t.sql.tmp" → p ≠ "/m/t" →
             file_content p (fs w') = file_content p (fs w))
        ∧ faulty (fs w') = faulty (fs w).
Proof.
  intros w.
  apply (createTable_publishes plain_env "db" "/m" "t" (Storage 2) 0 "View"
           sample_query w); reflexivity.
Defined.

(** X10. [createTable] followed by [removeTable] of the same name, with
    no descriptor of that name on disk before and no I/O fault:
    [removeTable] returns the handle that was given to [createTable],
    and table map and files are back to what they were. *)
Theorem createTable_removeTable_roundtrip (env : Environment) (name path n : string)
    (h : StoragePtr) (query : ASTPtr) (engine : string) (q : ASTCreateQuery)
    (w : World) :
  let tmp := path +:+ "/" +:+ escapeForFileName env n +:+ ".sql.tmp" in
  let final := path +:+ "/" +:+ escapeForFileName env n in
  asts w !! query = Some q →
  tables w !! n = None →
  is_faulty tmp (fs w) = false → file_exists tmp (fs w) = false →
  is_faulty final (fs w) = false → file_exists final (fs w) = false →
  ∃ w1 w2, createTable env name path n h query engine w = (Ok (), w1)
           ∧ removeTable env name path n w1 = (Ok h, w2)
           ∧ tables w2 = tables w ∧ fs w2 = fs w
           ∧ shutdown_calls w2 = shutdown_calls w.
Proof.
  intros tmp final Hq Hn Hft Het Hff Hef. eexists _, _.
  erewrite createTable_cases by done. fold tmp final.
  rewrite Hft, Het, Hff. cbn [orb]. split; [reflexivity|].
  assert (Hfiles :
    map (λ e : string * string, if String.eqb (fst e) tmp then (final, snd e) else e)
      (filter (λ e, fst e ≠ final)
         (files (fs w) ++ [(tmp, formatAST env (attach_form engine q) +:+ newline)]))
    = files (fs w) ++ [(final, formatAST env (attach_form engine q) +:+ newline)]).
  { rewrite filter_app, (filter_absent final (files (fs w))) by exact Hef.
    rewrite filter_cons_True by apply tmp_path_ne.
    rewrite map_app, (rename_absent tmp final (files (fs w))) by exact Het.
    cbn. by rewrite String.eqb_refl. }
  rewrite Hfiles.
  erewrite removeTable_cases by apply lookup_insert_eq. fold final.
  cbn [tables fs files faulty set_files set_fs set_tables set_asts].
  erewrite File_remove_present; cycle 1.
  { exact Hff. }
  { unfold file_exists. cbn [fs files set_files set_fs set_tables set_asts].
    apply file_exists_snoc. }
  split; [reflexivity|].
  cbn [tables fs files faulty set_files set_fs set_tables set_asts shutdown_calls].
  split; [by apply delete_insert_id|]. split; [|done].
  rewrite filter_app, (filter_absent final (files (fs w))) by exact Hef.
  rewrite filter_cons_False by (by intros Hne; apply Hne).
  rewrite filter_nil, app_nil_r. by destruct (fs w).
Qed.

Lemma createTable_removeTable_roundtrip_witness :
  let w := world_of {[ "u" := Storage 1 ]} [("/m/u", "ATTACH TABLE u")] [] [sample_query] in
  ∃ w1 w2, createTable plain_env "db" "/m" "t" (Storage 2) 0 "Log" w = (Ok (), w1)
           ∧ removeTable plain_env "db" "/m" "t" w1 = (Ok (Storage 2), w2)
           ∧ tables w2 = tables w ∧ fs w2 = fs w
           ∧ shutdown_calls w2 = shutdown_calls w.
Proof.
  intros w.
  apply (createTable_removeTable_roundtrip plain_env "db" "/m" "t" (Storage 2) 0 "Log"
           sample_query w); reflexivity.
Defined.

(** ** Descriptors written by createTable and read by the constructor *)

Lemma string_append_assoc (a b c : string) : (a +:+ b) +:+ c = a +:+ (b +:+ c).
Proof. induction a as [|x a IH]; [done|]. by rewrite !append_String, IH. Qed.

Lemma string_prefix_append (pre rest : string) : String.prefix pre (pre +:+ rest) = true.
Proof.
  induction pre as [|c pre IH]; [by destruct rest|].
  rewrite append_String. cbn [String.prefix].
  by destruct (ascii_dec c c).
Qed.

Lemma entry_name_of_path (dir nm content : string) :
  String.index 0 "/" nm = None →
  entry_name dir (dir +:+ "/" +:+ nm, content) = Some nm.
Proof.
  intros Hslash. unfold entry_name. cbn [fst]. cbv zeta.
  replace (dir +:+ "/" +:+ nm) with ((dir +:+ "/") +:+ nm)
    by apply string_append_assoc.
  set (pre := dir +:+ "/").
  rewrite string_prefix_append, string_length_append.
  replace (String.length pre + String.length nm - String.length pre)
    with (String.length nm) by lia.
  rewrite substring_append_r. by rewrite Hslash.
Qed.

Lemma directory_entries_of_file (dir nm : string) (f : FileSystem) :
  String.index 0 "/" nm = None →
  file_exists (dir +:+ "/" +:+ nm) f = true →
  nm ∈ directory_entries dir f.
Proof.
  intros Hslash Hex. unfold file_exists in Hex.
  apply existsb_exists in Hex as ([p c] & Hin & Heq).
  apply String.eqb_eq in Heq. cbn in Heq. subst p.
  unfold directory_entries. apply elem_of_remove_dups, list_elem_of_omap.
  exists (dir +:+ "/" +:+ nm, c). split; [by apply list_elem_of_In|].
  by apply entry_name_of_path.
Qed.

Lemma scan_directory_defined path dir_entries acc w :
  fst (scan_directory path dir_entries acc w) ≠ Undefined.
Proof.
  revert acc w. induction dir_entries as [|nm rest IH]; intros acc w; [done|].
  destruct (decide (nm = "")) as [->|Hnm]; [done|].
  destruct (entry_kind_total nm) as [Hd Hs Hr _|Hd Hs Hr|Hd Hs Hr|Hd Hs Hr].
  - rewrite scan_directory_skipped by done. apply IH.
  - rewrite scan_directory_stale by done. unfold bind.
    destruct (File_remove (path +:+ "/" +:+ nm) w) as [[[]|e|] w1] eqn:Hrm;
      [apply IH | done | by apply File_remove_defined in Hrm].
  - rewrite scan_directory_descriptor by done. apply IH.
  - by rewrite scan_directory_rejected by done.
Qed.

Lemma scan_directory_load_calls path dir_entries acc :
  frames same_load_calls (scan_directory path dir_entries acc).
Proof.
  revert acc. induction dir_entries as [|nm rest IH]; intros acc; cbn [scan_directory].
  { frames_step. }
  frames_step; [frames_step|].
  repeat (frames_step; try apply IH). apply File_remove_load_calls.
Qed.

Lemma createTable_descriptor env name path n h query engine q w :
  let tmp := path +:+ "/" +:+ escapeForFileName env n +:+ ".sql.tmp" in
  let final := path +:+ "/" +:+ escapeForFileName env n in
  asts w !! query = Some q →
  tables w !! n = None →
  is_faulty tmp (fs w) = false → file_exists tmp (fs w) = false →
  is_faulty final (fs w) = false →
  ∃ w', createTable env name path n h query engine w = (Ok (), w')
        ∧ file_content final (fs w')
          = Some (formatAST env (attach_form engine q) +:+ newline).
Proof.
  intros tmp final Hq Hn Hft Het Hff. eexists.
  erewrite createTable_cases by done. fold tmp final.
  rewrite Hft, Het, Hff. cbn [orb]. split; [reflexivity|].
  unfold file_content. cbn [fs files set_files set_fs set_tables set_asts].
  rewrite find_renamed; [done | apply tmp_path_ne | done].
Qed.

(** X11. The descriptor [createTable] publishes is named
    [<path>/<escaped>], without [.sql]. Where the escaped name is a
    plain entry name (no slash, no leading dot, none of the three
    suffixes), the constructor run afterwards on the same directory
    meets that entry: with or without a pool it ends in an exception
    and has loaded no table. *)
Theorem created_descriptor_stops_constructor (env : Environment)
    (name path n : string) (h : StoragePtr) (query : ASTPtr) (engine : string)
    (q : ASTCreateQuery) (w : World) :
  let escaped := escapeForFileName env n in
  let tmp := path +:+ "/" +:+ escaped +:+ ".sql.tmp" in
  let final := path +:+ "/" +:+ escaped in
  asts w !! query = Some q →
  tables w !! n = None →
  is_faulty tmp (fs w) = false → file_exists tmp (fs w) = false →
  is_faulty final (fs w) = false →
  String.index 0 "/" escaped = None →
  is_rejected escaped = true →
  ∃ w1, createTable env name path n h query engine w = (Ok (), w1)
        ∧ ∀ thread_pool, ∃ e w2,
            DatabaseOrdinary env name path thread_pool w1 = (Throw e, w2)
            ∧ load_calls w2 = load_calls w1.
Proof.
  intros escaped tmp final Hq Hn Hft Het Hff Hslash Hrej.
  destruct (createTable_descriptor env name path n h query engine q w Hq Hn Hft Het Hff)
    as (w1 & Hcreate & Hcontent).
  exists w1. split; [done|]. intros thread_pool.
  apply file_content_exists in Hcontent.
  pose proof (directory_entries_of_file path escaped (fs w1) Hslash Hcontent) as Hin.
  unfold DatabaseOrdinary.
  erewrite bind_Ok by reflexivity. erewrite bind_Ok by reflexivity.
  cbn [fs set_tables].
  pose proof (scan_directory_defined path (directory_entries path (fs w1)) []
                (set_tables ∅ w1)) as Hdef.
  pose proof (scan_directory_load_calls path (directory_entries path (fs w1)) []
                (set_tables ∅ w1)) as Hcalls.
  destruct (scan_directory path (directory_entries path (fs w1)) [] (set_tables ∅ w1))
    as [[names|e|] w2] eqn:Hscan; [| |done].
  - destruct (scan_directory_Ok _ _ _ _ _ _ Hscan) as (_ & Hall & _).
    eapply Forall_forall in Hall as [_ Hnot]; [|exact Hin]. congruence.
  - exists e, w2. by erewrite bind_Throw by done.
Qed.

Lemma created_descriptor_stops_constructor_witness :
  let w := world_of ∅ [("/m/a.sql", "ATTACH TABLE a")] [] [sample_query] in
  ∃ w1, createTable plain_env "db" "/m" "t" (Storage 2) 0 "Log" w = (Ok (), w1)
        ∧ ∀ thread_pool, ∃ e w2,
            DatabaseOrdinary plain_env "db" "/m" thread_pool w1 = (Throw e, w2)
            ∧ load_calls w2 = load_calls w1.
Proof.
  intros w.
  apply (created_descriptor_stops_constructor plain_env "db" "/m" "t" (Storage 2) 0 "Log"
           sample_query w); reflexivity.
Defined.

(** The exception of that run, on a small directory. *)
Example created_descriptor_exception :
  let w := world_of ∅ [("/m/a.sql", "ATTACH TABLE a")] [] [sample_query] in
  let w1 := snd (createTable plain_env "db" "/m" "t" (Storage 2) 0 "Log" w) in
  fst (DatabaseOrdinary plain_env "db" "/m" None w1)
  = Throw (Exception "Incorrect file extension: t in metadata directory /m"
                     INCORRECT_FILE_NAME).
Proof. vm_compute. reflexivity. Qed.

(** X12. [removeTable] removes [<path>/<escaped>], without [.sql]. For
    a table in the map with no file of that name (a table whose only
    descriptor is [<escaped>.sql], as the constructor requires it, or a
    table that was only attached), the removal throws, [removeTable]
    rethrows, and the table is in the map as before with every file in
    place. *)
Theorem removeTable_without_plain_descriptor (env : Environment)
    (name path n : string) (h : StoragePtr) (w : World) :
  tables w !! n = Some h →
  file_exists (path +:+ "/" +:+ escapeForFileName env n) (fs w) = false →
  ∃ e, removeTable env name path n w = (Throw e, w).
Proof.
  intros Hn Hex. erewrite removeTable_cases by done.
  unfold File_remove. erewrite bind_Ok by reflexivity.
  cbn [fs set_tables]. rewrite Hex, orb_true_r. unfold throw. eauto.
Qed.

Lemma removeTable_without_plain_descriptor_witness :
  let w := world_of {[ "t" := Storage 1 ]} [("/m/t.sql", "ATTACH TABLE t")] [] [] in
  ∃ e, removeTable plain_env "db" "/m" "t" w = (Throw e, w).
Proof.
  intros w.
  apply (removeTable_without_plain_descriptor plain_env "db" "/m" "t" (Storage 1) w);
    reflexivity.
Defined.

(** ** loadTable on a descriptor with content *)

Lemma read_file_Ok p s w :
  is_faulty p (fs w) = false → file_content p (fs w) = Some s →
  read_file p w = (Ok s, w).
Proof. intros Hf Hc. unfold read_file. unfold_monad. by rewrite Hf, Hc. Qed.

(** X13. Whatever the descriptor says about [attach] and [database],
    the interpreter is run on the parsed statement with [attach] set and
    [database] replaced by the name of the loading database, every other
    field as parsed. [loadTable] returns when the interpreter does, wraps
    its [DB::Exception] into [CANNOT_CREATE_TABLE_FROM_METADATA], and
    lets any other exception through as it is. *)
Theorem loadTable_interprets_attach_form (env : Environment)
    (path db table_escaped s : string) (parsed : ASTCreateQuery) (w : World) :
  let p := path +:+ "/" +:+ table_escaped in
  is_faulty p (fs w) = false →
  file_content p (fs w) = Some s →
  s ≠ "" →
  parseQuery env s ("in file " +:+ p) = inr parsed →
  let a := set_database db (set_attach true parsed) in
  let after t f :=
    set_fs f (set_tables t (set_asts (asts w ++ [a]) (log_load table_escaped w))) in
  (attach a = true ∧ database a = db
   ∧ table a = table parsed ∧ select a = select parsed
   ∧ definition a = definition parsed
   ∧ if_not_exists a = if_not_exists parsed ∧ is_populate a = is_populate parsed
   ∧ as_database a = as_database parsed ∧ as_table a = as_table parsed)
  ∧ loadTable env path db table_escaped w
    = match executeLoadExisting env a (tables w) (fs w) with
      | (None, (t, f)) => (Ok (), after t f)
      | (Some (Exception msg code), (t, f)) =>
          (Throw (Exception
                    ("Cannot create table from metadata file " +:+ p
                     +:+ ", error: " +:+ displayText env (Exception msg code)
                     +:+ ", stack trace:" +:+ newline
                     +:+ getStackTrace env (Exception msg code))
                    CANNOT_CREATE_TABLE_FROM_METADATA), after t f)
      | (Some e, (t, f)) => (Throw e, after t f)
      end.
Proof.
  intros p Hf Hc Hs Hparse a after. split; [done|].
  unfold loadTable. fold p.
  erewrite bind_Ok by reflexivity.
  erewrite bind_Ok by (by apply read_file_Ok).
  apply String.eqb_neq in Hs. rewrite Hs.
  unfold try_catch_Exception. rewrite executeCreateQuery_eq, Hparse. cbv zeta.
  unfold interpret. cbn [tables fs log_load set_asts]. fold a.
  by destruct (executeLoadExisting env a (tables w) (fs w)) as [[[msg code| |]|] [t f]].
Qed.

Lemma loadTable_interprets_attach_form_witness :
  let w := world_of ∅ [("/m/a.sql", "ATTACH TABLE a")] [] [] in
  ∃ w', loadTable plain_env "/m" "db" "a.sql" w = (Ok (), w')
        ∧ asts w' = [ {| attach := true; if_not_exists := false; is_populate := false;
                         database := "db"; table := "a"; as_database := "";
                         as_table := ""; select := None; definition := "" |} ]
        ∧ tables w' !! "a" = Some (Storage 1).
Proof.
  intros w.
  destruct (loadTable_interprets_attach_form plain_env "/m" "db" "a.sql"
              "ATTACH TABLE a"
              {| attach := true; if_not_exists := false; is_populate := false;
                 database := ""; table := "a"; as_database := "";
                 as_table := ""; select := None; definition := "" |} w)
    as [_ Hload]; try reflexivity; [done|].
  eexists. split; [exact Hload|]. split; reflexivity.
Defined.

(** X14. A descriptor that cannot be opened: the exception of the file
    buffer leaves [loadTable] as it is, not wrapped (the read is outside
    the [try] block), and nothing but the call log has changed. *)
Theorem loadTable_unreadable (env : Environment)
    (path db table_escaped : string) (w : World) :
  let p := path +:+ "/" +:+ table_escaped in
  file_content p (fs w) = None →
  loadTable env path db table_escaped w
  = (Throw (Exception ("Cannot open file " +:+ p) CANNOT_OPEN_FILE),
     log_load table_escaped w).
Proof.
  intros p Hc. unfold loadTable. fold p.
  erewrite bind_Ok by reflexivity.
  erewrite bind_Throw; [done|].
  unfold read_file. unfold_monad. cbn [fs log_load]. rewrite Hc.
  by destruct (is_faulty p (fs w)).
Qed.

Lemma loadTable_unreadable_witness :
  let w := world_of ∅ [("/m/a.sql", "ATTACH TABLE a")] [] [] in
  loadTable plain_env "/m" "db" "b.sql" w
  = (Throw (Exception ("Cannot open file " +:+ "/m/b.sql") CANNOT_OPEN_FILE),
     log_load "b.sql" w).
Proof.
  intros w. apply (loadTable_unreadable plain_env "/m" "db" "b.sql" w). reflexivity.
Defined.

(** ** The bunches of the normal group *)

Lemma concat_chained (tables : list string) (ts : list Task) (a b : nat) :
  chained a ts b →
  a ≤ b ∧ concat (bunch tables <$> ts) = take (b - a) (drop a tables).
Proof.
  revert a. induction ts as [|t ts IH]; intros a.
  - cbn. intros <-. split; [done|]. by rewrite Nat.sub_diag.
  - cbn [chained]. intros (Hit & Hle & Hchain).
    destruct (IH _ Hchain) as [Hle' Hconcat]. split; [lia|].
    rewrite fmap_cons. cbn [concat]. rewrite Hconcat. unfold bunch. rewrite Hit.
    replace (drop (task_end t) tables)
      with (drop (task_end t - a) (drop a tables))
      by (rewrite drop_drop; f_equal; lia).
    rewrite take_take_drop. f_equal. lia.
Qed.

Lemma make_tasks_chained (total_tables : nat) :
  chained 0 (make_tasks total_tables) total_tables.
Proof.
  unfold make_tasks, TABLES_PARALLEL_LOAD_BUNCH_SIZE. cbv zeta.
  pose proof (Nat.Div0.mul_div_le (total_tables + 100 - 1) 100) as Hlow.
  pose proof (Nat.mul_succ_div_gt (total_tables + 100 - 1) 100 ltac:(lia)) as Hhigh.
  set (num := (total_tables + 100 - 1) `div` 100) in *. clearbody num.
  set (start := λ j, if (j =? num)%nat then total_tables else j * 100).
  assert (Hgen : ∀ k j, j + k = num →
    chained (start j)
      ((λ i, {| task_it := i * 100;
                task_end := if (i + 1 =? num)%nat then total_tables else (i + 1) * 100;
                task_state := not_ready |}) <$> seq j k) total_tables).
  { induction k as [|k IH]; intros j Hj.
    - cbn. unfold start. destruct (Nat.eqb_spec j num); [done | lia].
    - cbn [seq]. rewrite fmap_cons. cbn [chained task_it task_end].
      unfold start. destruct (Nat.eqb_spec j num) as [|_]; [lia|].
      split; [done|]. split.
      + destruct (Nat.eqb_spec (j + 1) num); lia.
      + specialize (IH (S j) ltac:(lia)). unfold start in IH.
        replace (j + 1) with (S j) by lia.
        by destruct (Nat.eqb_spec (S j) num). }
  specialize (Hgen num 0 ltac:(lia)). unfold start in Hgen.
  destruct (Nat.eqb_spec 0 num) as [<-|_]; [|done].
  by replace total_tables with 0 in * by lia.
Qed.

Lemma make_tasks_length (total_tables : nat) :
  length (make_tasks total_tables) = (total_tables + 99) `div` 100.
Proof.
  unfold make_tasks, TABLES_PARALLEL_LOAD_BUNCH_SIZE. cbv zeta.
  rewrite length_fmap, length_seq. f_equal. lia.
Qed.

Lemma make_tasks_lookup_end total_tables i t :
  make_tasks total_tables !! i = Some t →
  task_it t < task_end t ∧ task_end t ≤ task_it t + 100
  ∧ (S i < length (make_tasks total_tables) → task_end t = S i * 100)
  ∧ (S i = length (make_tasks total_tables) → task_end t = total_tables).
Proof.
  unfold make_tasks, TABLES_PARALLEL_LOAD_BUNCH_SIZE. cbv zeta.
  rewrite length_fmap, length_seq.
  pose proof (Nat.Div0.mul_div_le (total_tables + 100 - 1) 100) as Hlow.
  pose proof (Nat.mul_succ_div_gt (total_tables + 100 - 1) 100 ltac:(lia)) as Hhigh.
  set (num := (total_tables + 100 - 1) `div` 100) in *. clearbody num.
  rewrite list_lookup_fmap.
  destruct (seq 0 num !! i) as [j|] eqn:Hseq; [|done].
  apply lookup_seq in Hseq as [-> Hlt]. intros [= <-].
  cbn [task_state task_it task_end]. change (0 + i) with i.
  destruct (Nat.eqb_spec (i + 1) num); repeat split; lia.
Qed.

(** X15. The normal group is cut into [ceil(n / 100)] bunches, none for
    an empty group. Bunch [i] starts at index [100 * i], holds at least
    one and at most 100 tables, and ends where the next bunch starts, the
    last one at the end of [tables]: the bunches, one after the other,
    are the vector [tables], every table in exactly one of them. *)
Theorem make_tasks_partition (tables : list string) :
  let tasks := make_tasks (length tables) in
  length tasks = (length tables + 99) `div` 100
  ∧ (∀ i t, tasks !! i = Some t →
       task_state t = not_ready
       ∧ task_it t = i * 100
       ∧ task_it t < task_end t ∧ task_end t ≤ task_it t + 100
       ∧ task_end t ≤ length tables
       ∧ (S i < length tasks → task_end t = S i * 100)
       ∧ (S i = length tasks → task_end t = length tables))
  ∧ concat (bunch tables <$> tasks) = tables.
Proof.
  intros tasks. split; [apply make_tasks_length|]. split.
  - intros i t Hi.
    destruct (make_tasks_lookup _ _ _ Hi) as (Hst & Hit & _ & Hend).
    destruct (make_tasks_lookup_end _ _ _ Hi) as (Hlt & Hsize & Hnext & Hlast).
    unfold TABLES_PARALLEL_LOAD_BUNCH_SIZE in Hit. done.
  - destruct (concat_chained tables tasks 0 (length tables)
                (make_tasks_chained (length tables))) as [_ ->].
    rewrite drop_0, Nat.sub_0_r. by apply take_ge.
Qed.

(** ** Which tables the tasks load *)

Section attempted.

Context (env : Environment) (name path : string) (tables : list string).

#[local] Abbreviation inv := (task_inv env name path tables).
#[local] Abbreviation att := (attempted tables).

Lemma attempted_same t : att t t = [].
Proof. unfold attempted. by rewrite Nat.sub_diag. Qed.

Lemma attempted_trans t t' t'' :
  progress t ≤ progress t' → progress t' ≤ progress t'' →
  att t t' ++ att t' t'' = att t t''.
Proof.
  intros H1 H2. unfold attempted.
  replace (drop (progress t') tables)
    with (drop (progress t' - progress t) (drop (progress t) tables))
    by (rewrite drop_drop; f_equal; lia).
  rewrite take_take_drop. f_equal. lia.
Qed.

Lemma task_later_progress t t' : task_later t t' → progress t ≤ progress t'.
Proof.
  intros (_ & Hit & Hsame). unfold progress.
  destruct (task_state t) eqn:Hst;
    [lia | rewrite (Hsame ltac:(done)), Hst; lia..].
Qed.

Lemma take_1_drop (i : nat) (x : string) :
  tables !! i = Some x → take 1 (drop i tables) = [x].
Proof. intros Hi. by rewrite (drop_S _ _ _ Hi). Qed.

Lemma task_step_attempted t w t' w' :
  task_step env name path tables t w = (Ok t', w') →
  load_calls w' = load_calls w ++ att t t'.
Proof.
  destruct t as [it e st]. unfold task_step. cbn [task_state task_it task_end].
  destruct st as [| |ex]; cycle 1.
  { intros [= <- <-]. by rewrite attempted_same, app_nil_r. }
  { intros [= <- <-]. by rewrite attempted_same, app_nil_r. }
  destruct (Nat.eqb_spec it e) as [->|Hne].
  { intros [= <- <-]. unfold attempted, progress. cbn [task_state task_it].
    by rewrite Nat.sub_diag, app_nil_r. }
  destruct (tables !! it) as [table|] eqn:Htable; [|done].
  pose proof (loadTable_load_calls env path name table w) as Hcalls.
  destruct (loadTable env path name table w) as [[[]|ex|] w1]; [| |done];
    intros [= <- <-]; cbn [snd] in Hcalls; rewrite Hcalls; f_equal;
    unfold attempted, progress; cbn [task_state task_it];
    rewrite ?Nat.add_0_r.
  - replace (S it - it) with 1 by lia. symmetry. by apply take_1_drop.
  - replace (it + 1 - it) with 1 by lia. symmetry. by apply take_1_drop.
Qed.

Lemma task_steps_attempted n t w t' w' :
  inv t →
  task_steps env name path n tables t w = (Ok t', w') →
  load_calls w' = load_calls w ++ att t t' ∧ task_later t t'.
Proof.
  revert t w. induction n as [|n IH]; intros t w Hinv.
  { intros [= <- <-]. by rewrite attempted_same, app_nil_r. }
  cbn [task_steps].
  destruct (task_step_returns env name path tables t w Hinv)
    as (t1 & w1 & Hstep & Hinv1 & Hlater1 & _).
  erewrite bind_Ok by exact Hstep. intros Hsteps.
  destruct (IH _ _ Hinv1 Hsteps) as [Hcalls Hlater2].
  split; [|by etransitivity].
  rewrite Hcalls, (task_step_attempted _ _ _ _ Hstep), <- app_assoc.
  f_equal. apply attempted_trans; by apply task_later_progress.
Qed.

Lemma call_all_attempted ts w ts' w' :
  Forall inv ts →
  call_all env name path tables ts w = (Ok ts', w') →
  load_calls w' = load_calls w ++ concat (zip_with att ts ts').
Proof.
  revert w ts'. induction ts as [|t ts IH]; intros w ts' Hall.
  { intros [= <- <-]. by rewrite app_nil_r. }
  apply Forall_cons in Hall as [Ht Hts]. cbn [call_all].
  destruct (task_call_returns env name path tables t w Ht)
    as (t1 & w1 & Hcall & _).
  erewrite bind_Ok by exact Hcall.
  destruct (call_all_returns env name path tables ts w1 Hts)
    as (ts1 & w2 & Hrest & _).
  erewrite bind_Ok by exact Hrest. intros [= <- <-].
  cbn [zip_with concat]. rewrite (IH _ _ Hts Hrest).
  destruct (task_steps_attempted _ _ _ _ _ Ht Hcall) as [-> _].
  by rewrite <- app_assoc.
Qed.

Lemma concat_attempted_same (ts : list Task) : concat (zip_with att ts ts) = [].
Proof.
  induction ts as [|t ts IH]; [done|]. cbn [zip_with concat].
  by rewrite attempted_same, IH.
Qed.

Lemma concat_attempted_insert ts ts' i t t1 :
  ts !! i = Some t →
  task_later t t1 →
  Forall2 task_later (<[i:=t1]> ts) ts' →
  att t t1 ++ concat (zip_with att (<[i:=t1]> ts) ts') ≡ₚ concat (zip_with att ts ts').
Proof.
  revert i ts'. induction ts as [|x ts IH]; intros i ts' Hi Hlater Hall; [done|].
  destruct i as [|i]; cbn in Hi, Hall.
  - injection Hi as ->. apply Forall2_cons_inv_l in Hall as (x' & ts'' & Hx & _ & ->).
    simpl. rewrite app_assoc.
    by rewrite attempted_trans by by apply task_later_progress.
  - apply Forall2_cons_inv_l in Hall as (x' & ts'' & Hx & Hrest & ->).
    simpl.
    etransitivity; [apply Permutation_app_swap_app|].
    apply Permutation_app_head. by eapply IH.
Qed.

Lemma concat_attempted_trans (ts ts1 ts2 : list Task) :
  Forall2 task_later ts ts1 → Forall2 task_later ts1 ts2 →
  concat (zip_with att ts ts1) ++ concat (zip_with att ts1 ts2)
  ≡ₚ concat (zip_with att ts ts2).
Proof.
  intros H1. revert ts2. induction H1 as [|t t1 ts ts1 Ht _ IH]; intros ts2 H2.
  { by apply Forall2_nil_inv_l in H2 as ->. }
  apply Forall2_cons_inv_l in H2 as (t2 & ts2' & Ht2 & Hrest & ->).
  cbn [zip_with concat].
  rewrite <- (attempted_trans t t1 t2) by by apply task_later_progress.
  rewrite <- (IH _ Hrest).
  rewrite <- !app_assoc. f_equiv.
  rewrite !app_assoc. f_equiv. apply Permutation_app_comm.
Qed.

Lemma pool_run_attempted schedule ts w ts' w' :
  Forall inv ts →
  pool_run env name path schedule tables ts w = (Ok ts', w') →
  ∃ l, load_calls w' = load_calls w ++ l ∧ l ≡ₚ concat (zip_with att ts ts').
Proof.
  revert ts w. induction schedule as [|i schedule IH]; intros ts w Hall.
  { intros [= <- <-]. exists []. by rewrite app_nil_r, concat_attempted_same. }
  cbn [pool_run]. destruct (ts !! i) as [t|] eqn:Hi; [|by apply IH].
  destruct (task_step_returns env name path tables t w (Forall_lookup_1 _ _ _ _ Hall Hi))
    as (t1 & w1 & Hstep & Hinv1 & Hlater1 & _).
  erewrite bind_Ok by exact Hstep. intros Hrun.
  assert (Hall1 : Forall inv (<[i:=t1]> ts)) by by apply Forall_insert.
  destruct (IH _ _ Hall1 Hrun) as (l & Hcalls & Hperm).
  destruct (pool_run_returns env name path tables schedule _ w1 Hall1)
    as (ts2 & w2 & Hrun' & Hlaters & _).
  rewrite Hrun in Hrun'. injection Hrun' as <- <-.
  exists (att t t1 ++ l). split.
  - by rewrite Hcalls, (task_step_attempted _ _ _ _ Hstep), <- app_assoc.
  - rewrite Hperm. by apply concat_attempted_insert.
Qed.

Lemma run_tasks_attempted thread_pool ts w ts' w' :
  Forall inv ts →
  run_tasks env name path thread_pool tables ts w = (Ok ts', w') →
  ∃ l, load_calls w' = load_calls w ++ l
       ∧ l ≡ₚ concat (zip_with att ts ts')
       ∧ (thread_pool = None → l = concat (zip_with att ts ts')).
Proof.
  intros Hall. destruct thread_pool as [schedule|]; cbn [run_tasks].
  - destruct (pool_run_returns env name path tables schedule ts w Hall)
      as (ts1 & w1 & Hrun & Hlaters1 & Hall1 & _).
    erewrite bind_Ok by exact Hrun. intros Hcall.
    destruct (pool_run_attempted _ _ _ _ _ Hall Hrun) as (l1 & Hcalls1 & Hperm1).
    pose proof (call_all_attempted _ _ _ _ Hall1 Hcall) as Hcalls2.
    destruct (call_all_returns env name path tables ts1 w1 Hall1)
      as (ts2 & w2 & Hcall' & Hlaters2 & _).
    rewrite Hcall in Hcall'. injection Hcall' as <- <-.
    eexists. split; [by rewrite Hcalls2, Hcalls1, <- app_assoc|]. split; [|done].
    rewrite Hperm1. by apply concat_attempted_trans.
  - intros Hcall. eexists. split; [by eapply call_all_attempted|]. done.
Qed.

(** Tasks that started fresh and ended with a value have called
    [loadTable] for their whole bunch. *)
Lemma attempted_whole_bunches (ts ts' : list Task) :
  Forall2 task_later ts ts' →
  Forall (λ t, task_state t = not_ready) ts →
  Forall (task_finished env name path tables) ts' →
  Forall (λ t, task_state t = has_value) ts' →
  zip_with att ts ts' = bunch tables <$> ts.
Proof.
  induction 1 as [|t t' ts ts' (Hend & _ & _) _ IH]; [done|].
  intros [Hnr Hnrs]%Forall_cons [Hfin Hfins]%Forall_cons [Hval Hvals]%Forall_cons.
  cbn [zip_with fmap list_fmap]. rewrite IH by done. f_equal.
  unfold attempted, bunch, progress, task_finished in *.
  rewrite Hval in Hfin |- *. rewrite Hnr, !Nat.add_0_r. by rewrite Hfin, Hend.
Qed.

End attempted.

Lemma get_futures_Ok ts w w' :
  get_futures ts w = (Ok (), w') → Forall (λ t, task_state t = has_value) ts.
Proof.
  induction ts as [|t ts IH]; [done|]. cbn [get_futures].
  destruct (task_state t) eqn:Hst; [done| |done].
  intros Hrest. constructor; [done | by apply IH].
Qed.

Lemma make_tasks_bunches (tables : list string) :
  concat (bunch tables <$> make_tasks (length tables)) = tables.
Proof.
  destruct (concat_chained tables (make_tasks (length tables)) 0 (length tables)
              (make_tasks_chained (length tables))) as [_ ->].
  rewrite drop_0, Nat.sub_0_r. by apply take_ge.
Qed.

Lemma make_tasks_not_ready (total_tables : nat) :
  Forall (λ t, task_state t = not_ready) (make_tasks total_tables).
Proof.
  apply Forall_lookup. intros i t Hi. by apply make_tasks_lookup in Hi as (? & _).
Qed.

Lemma filter_is_inner_Permutation (l : list string) :
  filter (λ f, is_inner f = true) l ++ filter (λ f, is_inner f = false) l ≡ₚ l.
Proof.
  induction l as [|f l IH]; [done|].
  destruct (is_inner f) eqn:Hf.
  - rewrite filter_cons_True, filter_cons_False by congruence.
    cbn. by f_equiv.
  - rewrite filter_cons_False, filter_cons_True by congruence.
    rewrite <- Permutation_middle. by f_equiv.
Qed.

(** X16. A constructor that returns has called [loadTable] once for
    every descriptor of the directory, and for nothing else: first for
    the names with the prefix [%2Einner%2E] in sorted order, then for
    each other name exactly once, in an order that depends on the
    pool's schedule. Without a pool the whole sequence is the sorted
    list of the other names. *)
Theorem constructor_loads_each_descriptor_once (env : Environment)
    (name path : string) (thread_pool : option (list nat)) (w w' : World) :
  DatabaseOrdinary env name path thread_pool w = (Ok (), w') →
  let descriptors :=
    filter (λ nm, is_descriptor nm = true) (directory_entries path (fs w)) in
  let sorted := sort_names descriptors in
  let inner := filter (λ f, is_inner f = true) sorted in
  let other := filter (λ f, is_inner f = false) sorted in
  ∃ l, load_calls w' = load_calls w ++ inner ++ l
       ∧ l ≡ₚ other
       ∧ (thread_pool = None → l = other)
       ∧ load_calls w' ≡ₚ load_calls w ++ descriptors.
Proof.
  intros Hctor descriptors sorted inner other.
  unfold DatabaseOrdinary in Hctor.
  erewrite bind_Ok in Hctor by reflexivity.
  erewrite bind_Ok in Hctor by reflexivity.
  destruct (scan_directory path (directory_entries path (fs (set_tables ∅ w))) []
              (set_tables ∅ w)) as [[file_names|e|] w1] eqn:Hscan; cycle 1.
  { by erewrite bind_Throw in Hctor by exact Hscan. }
  { unfold bind in Hctor. by rewrite Hscan in Hctor. }
  erewrite bind_Ok in Hctor by exact Hscan.
  destruct (scan_directory_Ok _ _ _ _ _ _ Hscan) as (Hnames & _ & Hw1).
  cbn [app] in Hnames. change (fs (set_tables ∅ w)) with (fs w) in Hnames.
  fold descriptors in Hnames. subst file_names.
  assert (Hcalls1 : load_calls w1 = load_calls w) by by rewrite Hw1.
  fold sorted in Hctor. rewrite split_tables_eq in Hctor.
  cbv beta iota zeta in Hctor. fold inner other in Hctor.
  destruct (load_first_calls env name path inner w1) as (loaded & Hloaded & _ & Hres).
  destruct (load_first env name path inner w1) as [[[]|e|] w2] eqn:Hfirst;
    cbn [fst snd] in Hloaded, Hres; [| |done]; cycle 1.
  { by erewrite bind_Throw in Hctor by exact Hfirst. }
  subst loaded. erewrite bind_Ok in Hctor by exact Hfirst.
  pose proof (make_tasks_inv env name path other) as Hinv.
  destruct (run_tasks_returns env name path other thread_pool _ w2 Hinv)
    as (tasks' & w3 & Hrun & Hlaters & Hfin & _).
  erewrite bind_Ok in Hctor by exact Hrun.
  pose proof (get_futures_Ok _ _ _ Hctor) as Hvalues.
  pose proof (get_futures_world tasks' w3) as Hw3.
  rewrite Hctor in Hw3. cbn [snd] in Hw3. subst w3.
  destruct (run_tasks_attempted env name path other thread_pool _ _ _ _ Hinv Hrun)
    as (l & Hl & Hperm & Hexact).
  rewrite (attempted_whole_bunches env name path other _ _ Hlaters
             (make_tasks_not_ready _) Hfin Hvalues), make_tasks_bunches in Hperm, Hexact.
  exists l. rewrite Hl, Hloaded, Hcalls1, <- app_assoc.
  split; [done|]. split; [done|]. split; [done|].
  rewrite Hperm. apply Permutation_app_head.
  subst inner other. rewrite filter_is_inner_Permutation.
  apply sort_names_Permutation.
Qed.

Lemma constructor_loads_each_descriptor_once_witness :
  let w := world_of ∅ [("/m/b.sql", "ATTACH TABLE b");
                       ("/m/%2Einner%2Ez.sql", "ATTACH TABLE .inner.z");
                       ("/m/old.sql.bak", "");
                       ("/m/a.sql", "ATTACH TABLE a")] [] [] in
  let r := DatabaseOrdinary plain_env "db" "/m" (Some [0; 3; 0]) w in
  ∃ l, load_calls (snd r) = load_calls w ++ ["%2Einner%2Ez.sql"] ++ l
       ∧ l ≡ₚ ["a.sql"; "b.sql"]
       ∧ (Some [0; 3; 0] = None → l = ["a.sql"; "b.sql"])
       ∧ load_calls (snd r) ≡ₚ load_calls w ++ ["b.sql"; "%2Einner%2Ez.sql"; "a.sql"].
Proof.
  intros w r.
  apply (constructor_loads_each_descriptor_once plain_env "db" "/m" (Some [0; 3; 0])
           w (snd r)).
  vm_compute. reflexivity.
Defined.

(** ** Reading a definition back *)

Lemma getCreateQuery_eq env name path n w :
  let final := path +:+ "/" +:+ escapeForFileName env n in
  getCreateQuery env name path n w
  = if is_faulty final (fs w)
    then (Throw (Exception ("Cannot open file " +:+ final) CANNOT_OPEN_FILE), w)
    else match file_content final (fs w) with
         | None => (Throw (Exception ("Cannot open file " +:+ final) CANNOT_OPEN_FILE), w)
         | Some s =>
             match parseQuery env s ("in file " +:+ final) with
             | inl e => (Throw e, w)
             | inr parsed =>
                 (Ok (length (asts w)),
                  set_asts (asts w ++ [set_database name (set_attach false parsed)]) w)
             end
         end.
Proof.
  intros final. unfold getCreateQuery, getCreateQueryImpl. fold final.
  unfold read_file. unfold_monad.
  destruct (is_faulty final (fs w)); [done|].
  destruct (file_content final (fs w)) as [s|]; [|done].
  destruct (parseQuery env s ("in file " +:+ final)) as [e|parsed]; [done|].
  unfold new_ast.
  erewrite (update_ast_last (asts w) parsed) by done.
  erewrite (update_ast_last (asts w) (set_attach false parsed)) by done.
  done.
Qed.

(** X17. [getCreateQuery] after a [createTable] that returned, for a
    parser that reads the written statement back: it returns a new
    object, the persisted attach form with [attach] cleared and
    [database] set to the name of this database, whatever database the
    original statement named. The objects that existed before, the one
    given to [createTable] among them, the table map and the files are
    as [createTable] left them. *)
Theorem createTable_getCreateQuery_roundtrip (env : Environment) (name path n : string)
    (h : StoragePtr) (query : ASTPtr) (engine : string) (q : ASTCreateQuery)
    (w : World) :
  let tmp := path +:+ "/" +:+ escapeForFileName env n +:+ ".sql.tmp" in
  let final := path +:+ "/" +:+ escapeForFileName env n in
  asts w !! query = Some q →
  tables w !! n = None →
  is_faulty tmp (fs w) = false → file_exists tmp (fs w) = false →
  is_faulty final (fs w) = false →
  parseQuery env (formatAST env (attach_form engine q) +:+ newline) ("in file " +:+ final)
  = inr (attach_form engine q) →
  ∃ w1 w2 ast,
    createTable env name path n h query engine w = (Ok (), w1)
    ∧ getCreateQuery env name path n w1 = (Ok ast, w2)
    ∧ asts w1 !! ast = None
    ∧ asts w2 !! ast = Some (set_database name (set_attach false (attach_form engine q)))
    ∧ (∀ p a, asts w1 !! p = Some a → asts w2 !! p = Some a)
    ∧ asts w2 !! query = Some q
    ∧ tables w2 = tables w1 ∧ fs w2 = fs w1.
Proof.
  intros tmp final Hq Hn Hft Het Hff Hparse. eexists _, _, _.
  erewrite createTable_cases by done. fold tmp final.
  rewrite Hft, Het, Hff. cbn [orb]. split; [reflexivity|].
  rewrite getCreateQuery_eq. fold final.
  cbn [tables fs files faulty asts set_files set_fs set_tables set_asts].
  unfold is_faulty in Hff |- *. cbn [faulty]. rewrite Hff.
  unfold file_content. cbn [files].
  rewrite find_renamed; [| apply tmp_path_ne | done].
  cbn [fmap option_fmap option_map snd]. rewrite Hparse.
  split; [reflexivity|].
  cbn [tables fs files faulty asts set_files set_fs set_tables set_asts].
  split; [by apply lookup_ge_None_2|].
  split; [by rewrite list_lookup_middle|].
  split; [intros p a Hp; by apply lookup_app_l_Some|].
  split; [|done].
  by do 2 apply lookup_app_l_Some.
Qed.

Lemma createTable_getCreateQuery_roundtrip_witness :
  let w := world_of {[ "u" := Storage 1 ]} [("/m/u", "ATTACH TABLE u")] [] [sample_query] in
  ∃ w1 w2 ast,
    createTable line_env "db" "/m" "t" (Storage 2) 0 "Log" w = (Ok (), w1)
    ∧ getCreateQuery line_env "db" "/m" "t" w1 = (Ok ast, w2)
    ∧ asts w1 !! ast = None
    ∧ asts w2 !! ast
      = Some (set_database "db" (set_attach false (attach_form "Log" sample_query)))
    ∧ (∀ p a, asts w1 !! p = Some a → asts w2 !! p = Some a)
    ∧ asts w2 !! 0 = Some sample_query
    ∧ tables w2 = tables w1 ∧ fs w2 = fs w1.
Proof.
  intros w.
  apply (createTable_getCreateQuery_roundtrip line_env "db" "/m" "t" (Storage 2) 0 "Log"
           sample_query w); reflexivity.
Defined.

(** ** What the constructor leaves alone *)

Section constructor_frames.

Context (env : Environment) (name path : string).
Context (R : relation World) `{!PreOrder R}.
Hypothesis loadTable_frames : ∀ table, frames R (loadTable env path name table).
Hypothesis File_remove_frames : ∀ p, frames R (File_remove p).
Hypothesis clear_frames : ∀ w, R w (set_tables ∅ w).

Lemma load_first_frames l : frames R (load_first env name path l).
Proof.
  induction l as [|t l IH]; cbn [load_first]; [frames_step|].
  frames_step; [apply loadTable_frames | apply IH].
Qed.

Lemma task_step_frames tables t : frames R (task_step env name path tables t).
Proof.
  unfold task_step. repeat frames_step.
  intros w. pose proof (loadTable_frames s w) as Hload.
  by destruct (loadTable env path name s w) as [[[]|e|] w1].
Qed.

Lemma task_steps_frames n tables t : frames R (task_steps env name path n tables t).
Proof.
  revert t. induction n as [|n IH]; intros t; cbn [task_steps]; [frames_step|].
  frames_step; [apply task_step_frames | apply IH].
Qed.

Lemma call_all_frames tables ts : frames R (call_all env name path tables ts).
Proof.
  induction ts as [|t ts IH]; cbn [call_all]; [frames_step|].
  frames_step; [apply task_steps_frames|].
  frames_step; [apply IH | frames_step].
Qed.

Lemma pool_run_frames schedule tables ts :
  frames R (pool_run env name path schedule tables ts).
Proof.
  revert ts. induction schedule as [|i schedule IH]; intros ts; cbn [pool_run];
    [frames_step|].
  frames_step; [|apply IH].
  frames_step; [apply task_step_frames | apply IH].
Qed.

Lemma run_tasks_frames thread_pool tables ts :
  frames R (run_tasks env name path thread_pool tables ts).
Proof.
  destruct thread_pool as [schedule|]; cbn [run_tasks]; [|apply call_all_frames].
  frames_step; [apply pool_run_frames | apply call_all_frames].
Qed.

Lemma get_futures_frames ts : frames R (get_futures ts).
Proof.
  intros w. pose proof (get_futures_world ts w) as Hw.
  destruct (get_futures ts w) as [r w']. cbn in Hw |- *. by subst.
Qed.

Lemma scan_directory_frames dir_entries acc :
  frames R (scan_directory path dir_entries acc).
Proof.
  revert acc. induction dir_entries as [|nm rest IH]; intros acc; cbn [scan_directory].
  { frames_step. }
  frames_step; [frames_step|].
  repeat (frames_step; try apply IH). apply File_remove_frames.
Qed.

Lemma DatabaseOrdinary_frames thread_pool :
  frames R (DatabaseOrdinary env name path thread_pool).
Proof.
  unfold DatabaseOrdinary.
  frames_step; [frames_step; apply clear_frames|].
  frames_step; [frames_step|].
  frames_step; [apply scan_directory_frames|].
  rewrite split_tables_eq. cbv beta iota zeta.
  frames_step; [apply load_first_frames|].
  frames_step; [apply run_tasks_frames | apply get_futures_frames].
Qed.

End constructor_frames.

#[local] Instance no_new_files_preorder : PreOrder no_new_files.
Proof. split; [by intros w p | intros x y z Hxy Hyz p Hp; by apply Hxy, Hyz]. Qed.

Lemma file_exists_filter (P : string * string → Prop) `{!∀ e, Decision (P e)}
    (p : string) (l : list (string * string)) :
  existsb (λ e, String.eqb (fst e) p) (filter P l) = true →
  existsb (λ e, String.eqb (fst e) p) l = true.
Proof.
  rewrite !existsb_exists.
  intros (e & Hin & He). exists e. split; [|done].
  apply list_elem_of_In. apply list_elem_of_In, list_elem_of_filter in Hin. tauto.
Qed.

Lemma File_remove_no_new_files p : frames no_new_files (File_remove p).
Proof.
  intros w q. unfold File_remove. unfold_monad.
  destruct (is_faulty p (fs w) || negb (file_exists p (fs w))); [done|].
  unfold file_exists. cbn [snd fs files set_files set_fs].
  apply file_exists_filter.
Qed.

Section interpreter_adds_no_file.

Context (env : Environment).
Hypothesis interpreter_adds_no_file : ∀ a t f p,
  file_exists p (snd (snd (executeLoadExisting env a t f))) = true →
  file_exists p f = true.

Lemma interpret_no_new_files a : frames no_new_files (interpret env a).
Proof.
  intros w p. unfold interpret.
  pose proof (interpreter_adds_no_file a (tables w) (fs w) p) as Hp.
  by destruct (executeLoadExisting env a (tables w) (fs w)) as [[e|] [t f]].
Qed.

Lemma update_ast_no_new_files p f : frames no_new_files (update_ast p f).
Proof.
  unfold update_ast. frames_step; [|frames_step; intros q Hq; exact Hq].
  intros w. unfold deref. by destruct (asts w !! p).
Qed.

Lemma loadTable_no_new_files path database table_escaped :
  frames no_new_files (loadTable env path database table_escaped).
Proof.
  unfold loadTable. frames_step; [frames_step; intros q Hq; exact Hq|].
  frames_step; [unfold read_file; repeat frames_step|].
  frames_step; [apply File_remove_no_new_files|].
  frames_step; [|frames_step].
  unfold executeCreateQuery. frames_step; [frames_step|].
  frames_step; [intros w q Hq; exact Hq|].
  frames_step; [apply update_ast_no_new_files|].
  frames_step; [apply update_ast_no_new_files|].
  frames_step; [|apply interpret_no_new_files].
  intros w. unfold deref. by destruct (asts w !! _).
Qed.

End interpreter_adds_no_file.

(** X18. The constructor loads the descriptors [<escaped>.sql], and
    [getCreateQuery] reads [<path>/<escaped>], without [.sql]. After a
    constructor that returned, with an interpreter that puts no file
    into the metadata directory, no such file is there for any name
    whose escaped form is a plain entry name (no slash, no leading dot,
    none of the three suffixes): [getCreateQuery] throws the exception
    of the file buffer for every such name, the tables just loaded
    among them, and changes nothing. *)
Theorem getCreateQuery_after_constructor (env : Environment) (name path n : string)
    (thread_pool : option (list nat)) (w w' : World) :
  let escaped := escapeForFileName env n in
  let final := path +:+ "/" +:+ escaped in
  (∀ a t f p, file_exists p (snd (snd (executeLoadExisting env a t f))) = true →
              file_exists p f = true) →
  DatabaseOrdinary env name path thread_pool w = (Ok (), w') →
  String.index 0 "/" escaped = None →
  is_rejected escaped = true →
  getCreateQuery env name path n w'
  = (Throw (Exception ("Cannot open file " +:+ final) CANNOT_OPEN_FILE), w').
Proof.
  intros escaped final Henv Hctor Hslash Hrej.
  assert (Habsent : file_exists final (fs w') = false).
  { destruct (file_exists final (fs w')) eqn:Hex; [exfalso|done].
    pose proof (DatabaseOrdinary_frames env name path no_new_files
                  (λ table, loadTable_no_new_files env Henv path name table)
                  File_remove_no_new_files (λ w0 p Hp, Hp) thread_pool w final) as Hframe.
    rewrite Hctor in Hframe. specialize (Hframe Hex).
    pose proof (directory_entries_of_file path escaped (fs w) Hslash Hframe) as Hin.
    unfold DatabaseOrdinary in Hctor.
    erewrite bind_Ok in Hctor by reflexivity.
    erewrite bind_Ok in Hctor by reflexivity.
    destruct (scan_directory path (directory_entries path (fs (set_tables ∅ w))) []
                (set_tables ∅ w)) as [[file_names|e|] w1] eqn:Hscan; cycle 1.
    { by erewrite bind_Throw in Hctor by exact Hscan. }
    { unfold bind in Hctor. by rewrite Hscan in Hctor. }
    destruct (scan_directory_Ok _ _ _ _ _ _ Hscan) as (_ & Hall & _).
    eapply Forall_forall in Hall as [_ Hnot]; [|exact Hin]. congruence. }
  rewrite getCreateQuery_eq. fold escaped final.
  destruct (file_content final (fs w')) as [s|] eqn:Hcontent.
  { apply file_content_exists in Hcontent. congruence. }
  by destruct (is_faulty final (fs w')).
Qed.

Lemma getCreateQuery_after_constructor_witness :
  let w := world_of ∅ [("/m/b.sql", "ATTACH TABLE b");
                       ("/m/a.sql", "ATTACH TABLE a")] [] [] in
  let r := DatabaseOrdinary plain_env "db" "/m" None w in
  tables (snd r) !! "a" = Some (Storage 1)
  ∧ getCreateQuery plain_env "db" "/m" "a" (snd r)
    = (Throw (Exception "Cannot open file /m/a" CANNOT_OPEN_FILE), snd r).
Proof.
  intros w r. split; [by vm_compute|].
  apply (getCreateQuery_after_constructor plain_env "db" "/m" "a" None w (snd r)).
  - intros a t f p. cbn. by destruct (t !! table a).
  - vm_compute. reflexivity.
  - reflexivity.
  - reflexivity.
Defined.

(** ** renameTable *)

Section renameTable_facts.

Context (env : Environment) (calls : StorageCalls) (name path : string).

Lemma tryGetTable_present n h w :
  tables w !! n = Some h → tryGetTable n w = (Ok h, w).
Proof. intros H. unfold tryGetTable. unfold_monad. by rewrite H. Qed.

(** The table is notified, and its definition is read back with the new
    name in it. *)
Lemma renameTable_prepare_Ok n to_name m h s parsed w :
  let final_old := path +:+ "/" +:+ escapeForFileName env n in
  tables w !! n = Some h → h ≠ nullptr →
  IStorage_rename calls h (path +:+ "data/" +:+ escapeForFileName env to_name +:+ "/")
    to_name m = None →
  is_faulty final_old (fs w) = false →
  file_content final_old (fs w) = Some s →
  parseQuery env s ("in file " +:+ final_old) = inr parsed →
  renameTable_prepare env calls name path n to_name m w
  = (Ok (h, length (asts w)), set_asts (asts w ++ [set_table m parsed]) w).
Proof.
  intros final_old Hn Hh Hrename Hfaulty Hcontent Hparse.
  unfold renameTable_prepare.
  erewrite bind_Ok by by apply tryGetTable_present.
  destruct h as [|id]; [done|]. rewrite Hrename.
  erewrite bind_Ok by reflexivity.
  unfold getCreateQueryImpl. fold final_old.
  erewrite (bind_Ok (bind _ _)); cycle 1.
  { erewrite bind_Ok by by apply read_file_Ok. rewrite Hparse. reflexivity. }
  erewrite bind_Ok by by eapply update_ast_last.
  done.
Qed.

(** The storage's refusal ends [renameTable] before anything else is
    looked at. *)
Lemma renameTable_prepare_refused n to_name m h e w :
  tables w !! n = Some h → h ≠ nullptr →
  IStorage_rename calls h (path +:+ "data/" +:+ escapeForFileName env to_name +:+ "/")
    to_name m = Some e →
  renameTable_prepare env calls name path n to_name m w
  = (Throw (if is_Poco_Exception e then Exception_from_Poco env e else e), w).
Proof.
  intros Hn Hh Hrename. unfold renameTable_prepare.
  erewrite bind_Ok by by apply tryGetTable_present.
  destruct h as [|id]; [done|]. rewrite Hrename.
  by destruct (is_Poco_Exception e).
Qed.

End renameTable_facts.

(** The files after the new descriptor is published and the old one
    removed. *)
Lemma moved_descriptor (tmp final_new final_old statement s : string)
    (l : list (string * string)) :
  tmp ≠ final_new → tmp ≠ final_old → final_new ≠ final_old →
  existsb (λ e : string * string, String.eqb (fst e) tmp) l = false →
  snd <$> find (λ e : string * string, String.eqb (fst e) final_old) l = Some s →
  let published :=
    map (λ e : string * string, if String.eqb (fst e) tmp then (final_new, snd e) else e)
      (filter (λ e, fst e ≠ final_new) (l ++ [(tmp, statement)])) in
  let moved := filter (λ e, fst e ≠ final_old) published in
  existsb (λ e : string * string, String.eqb (fst e) final_old) published = true
  ∧ existsb (λ e : string * string, String.eqb (fst e) final_old) moved = false
  ∧ existsb (λ e : string * string, String.eqb (fst e) tmp) moved = false
  ∧ snd <$> find (λ e : string * string, String.eqb (fst e) final_new) moved
    = Some statement
  ∧ ∀ p, p ≠ tmp → p ≠ final_new → p ≠ final_old →
      snd <$> find (λ e : string * string, String.eqb (fst e) p) moved
      = snd <$> find (λ e : string * string, String.eqb (fst e) p) l.
Proof.
  intros Htn Hto Hno Htmp Hold published moved. repeat split.
  - apply (file_content_exists final_old {| files := published; faulty := ∅ |} s).
    unfold file_content, published. cbn [files].
    rewrite find_renamed_other by done. exact Hold.
  - apply file_exists_filter_ne.
  - unfold moved. rewrite file_exists_filter_other by done.
    by apply rename_no_source.
  - unfold moved. rewrite file_content_filter_ne by done.
    unfold published. by rewrite find_renamed.
  - intros p Hpt Hpn Hpo. unfold moved. rewrite file_content_filter_ne by done.
    unfold published. by rewrite find_renamed_other.
Qed.

(** X19. The table is told about the rename before anything else is
    checked or changed. When its [rename] throws, [renameTable] ends
    there, whether the new name is free or taken and whether the
    descriptor can be read or not: a [Poco::Exception] is replaced by the
    [DB::Exception] built from it, any other exception passes as it is,
    and table maps, files and the target database are as before. *)
Theorem renameTable_storage_refuses (env : Environment) (calls : StorageCalls)
    (name path n : string) (to_database : IDatabase) (m to_name to_path : string)
    (h : StoragePtr) (e : exception) (w : World) :
  to_database_concrete name path to_database = Some (to_name, to_path) →
  tables w !! n = Some h → h ≠ nullptr →
  IStorage_rename calls h (path +:+ "data/" +:+ escapeForFileName env to_name +:+ "/")
    to_name m = Some e →
  renameTable env calls name path n to_database m w
  = (Throw (if is_Poco_Exception e then Exception_from_Poco env e else e),
     (w, to_database)).
Proof.
  intros Hto Hn Hh Hrename. unfold renameTable. rewrite Hto.
  by erewrite renameTable_prepare_refused by done.
Qed.

Lemma renameTable_storage_refuses_witness :
  let w := world_of {[ "u" := Storage 1; "t" := Storage 2 ]} [] [] [] in
  renameTable plain_env plain_calls "db" "/m" "u" (ordinary "other" "/o" ∅) "" w
  = (Throw (Exception "Poco::Exception: Cannot rename the data directory" ZERO),
     (w, ordinary "other" "/o" ∅)).
Proof.
  intros w.
  apply (renameTable_storage_refuses plain_env plain_calls "db" "/m" "u"
           (ordinary "other" "/o" ∅) "" "other" "/o" (Storage 1)
           (PocoException "Cannot rename the data directory") w);
    [reflexivity | reflexivity | done | reflexivity].
Defined.

(** X20. A rename inside one database, onto a free name, with the
    table's consent, a readable descriptor and no I/O fault: the entry
    moves to the new name with its handle, the descriptor of the new
    name holds the definition read from the old one with the table name
    replaced, in attach form, the old descriptor and the temporary file
    are gone, and no other file has changed. *)
Theorem renameTable_within_database (env : Environment) (calls : StorageCalls)
    (name path n m : string) (h : StoragePtr) (s : string) (parsed : ASTCreateQuery)
    (w : World) :
  let final_old := path +:+ "/" +:+ escapeForFileName env n in
  let tmp := path +:+ "/" +:+ escapeForFileName env m +:+ ".sql.tmp" in
  let final_new := path +:+ "/" +:+ escapeForFileName env m in
  tables w !! n = Some h → h ≠ nullptr →
  tables w !! m = None →
  IStorage_rename calls h (path +:+ "data/" +:+ escapeForFileName env name +:+ "/")
    name m = None →
  is_faulty final_old (fs w) = false →
  file_content final_old (fs w) = Some s →
  parseQuery env s ("in file " +:+ final_old) = inr parsed →
  is_faulty tmp (fs w) = false → file_exists tmp (fs w) = false →
  is_faulty final_new (fs w) = false →
  tmp ≠ final_old → final_new ≠ final_old →
  ∃ w', renameTable env calls name path n this_database m w
        = (Ok (), (w', this_database))
        ∧ tables w' = <[m := h]> (delete n (tables w))
        ∧ file_exists final_old (fs w') = false
        ∧ file_exists tmp (fs w') = false
        ∧ file_content final_new (fs w')
          = Some (formatAST env (attach_form (IStorage_getName calls h) (set_table m parsed))
                  +:+ newline)
        ∧ (∀ p, p ≠ tmp → p ≠ final_new → p ≠ final_old →
             file_content p (fs w') = file_content p (fs w)).
Proof.
  intros final_old tmp final_new Hn Hh Hm Hrename Hfo Hcontent Hparse Hft Het Hfn Hto Hno.
  assert (Hnm : m ≠ n) by (intros ->; congruence).
  destruct (moved_descriptor tmp final_new final_old
              (formatAST env (attach_form (IStorage_getName calls h) (set_table m parsed))
               +:+ newline) s (files (fs w)) (tmp_path_ne _ _) Hto Hno Het Hcontent)
    as (Hpresent & Hgone & Htmp & Hnew & Hother).
  eexists. unfold renameTable. cbn [to_database_concrete].
  erewrite renameTable_prepare_Ok by done.
  cbn [to_database_createTable].
  erewrite createTable_cases; [| by apply list_lookup_middle | exact Hm].
  fold tmp final_new.
  cbn [tables fs files faulty asts set_files set_fs set_tables set_asts].
  unfold is_faulty, file_exists in Hft, Het, Hfn, Hfo |- *.
  cbn [faulty files]. rewrite Hft, Het, Hfn. cbn [orb].
  erewrite removeTable_cases; cycle 1.
  { cbn [tables set_tables set_files set_fs]. rewrite lookup_insert_ne by done. exact Hn. }
  fold final_old.
  erewrite File_remove_present; cycle 1.
  { unfold is_faulty. cbn [fs faulty set_files set_fs set_tables]. exact Hfo. }
  { unfold file_exists. cbn [fs files set_files set_fs set_tables]. exact Hpresent. }
  split; [reflexivity|].
  cbn [tables fs files faulty asts set_files set_fs set_tables set_asts].
  split; [by rewrite delete_insert_ne|].
  unfold file_content. cbn [files]. done.
Qed.

Lemma renameTable_within_database_witness :
  let w := world_of {[ "u" := Storage 1 ]}
             [("/m/u", "ATTACH TABLE u"); ("/m/v.sql", "ATTACH TABLE v")] [] [] in
  ∃ w', renameTable plain_env plain_calls "db" "/m" "u" this_database "t" w
        = (Ok (), (w', this_database))
        ∧ tables w' = <["t" := Storage 1]> (delete "u" (tables w))
        ∧ file_exists "/m/u" (fs w') = false
        ∧ file_exists "/m/t.sql.tmp" (fs w') = false
        ∧ file_content "/m/t" (fs w') = Some ("ATTACH TABLE t" +:+ newline)
        ∧ (∀ p, p ≠ "/m/t.sql.tmp" → p ≠ "/m/t" → p ≠ "/m/u" →
             file_content p (fs w') = file_content p (fs w)).
Proof.
  intros w.
  apply (renameTable_within_database plain_env plain_calls "db" "/m" "u" "t" (Storage 1)
           "ATTACH TABLE u"
           {| attach := true; if_not_exists := false; is_populate := false;
              database := ""; table := "u"; as_database := ""; as_table := "";
              select := None; definition := "" |} w);
    try reflexivity; done.
Defined.

(** X21. A rename into another [DatabaseOrdinary], under the same
    conditions on the target's map and directory: the entry leaves the
    map of this database and enters the map of the target under the new
    name with the same handle, the new descriptor is in the target's
    directory, the old one is removed from this one, and no other file
    and no other entry of either map has changed. *)
Theorem renameTable_across_databases (env : Environment) (calls : StorageCalls)
    (name path n m to_name to_path : string) (to_tables : Tables)
    (h : StoragePtr) (s : string) (parsed : ASTCreateQuery) (w : World) :
  let final_old := path +:+ "/" +:+ escapeForFileName env n in
  let tmp := to_path +:+ "/" +:+ escapeForFileName env m +:+ ".sql.tmp" in
  let final_new := to_path +:+ "/" +:+ escapeForFileName env m in
  tables w !! n = Some h → h ≠ nullptr →
  to_tables !! m = None →
  IStorage_rename calls h (path +:+ "data/" +:+ escapeForFileName env to_name +:+ "/")
    to_name m = None →
  is_faulty final_old (fs w) = false →
  file_content final_old (fs w) = Some s →
  parseQuery env s ("in file " +:+ final_old) = inr parsed →
  is_faulty tmp (fs w) = false → file_exists tmp (fs w) = false →
  is_faulty final_new (fs w) = false →
  tmp ≠ final_old → final_new ≠ final_old →
  ∃ w', renameTable env calls name path n (ordinary to_name to_path to_tables) m w
        = (Ok (), (w', ordinary to_name to_path (<[m := h]> to_tables)))
        ∧ tables w' = delete n (tables w)
        ∧ file_exists final_old (fs w') = false
        ∧ file_exists tmp (fs w') = false
        ∧ file_content final_new (fs w')
          = Some (formatAST env (attach_form (IStorage_getName calls h) (set_table m parsed))
                  +:+ newline)
        ∧ (∀ p, p ≠ tmp → p ≠ final_new → p ≠ final_old →
             file_content p (fs w') = file_content p (fs w)).
Proof.
  intros final_old tmp final_new Hn Hh Hm Hrename Hfo Hcontent Hparse Hft Het Hfn Hto Hno.
  destruct (moved_descriptor tmp final_new final_old
              (formatAST env (attach_form (IStorage_getName calls h) (set_table m parsed))
               +:+ newline) s (files (fs w)) (tmp_path_ne _ _) Hto Hno Het Hcontent)
    as (Hpresent & Hgone & Htmp & Hnew & Hother).
  eexists. unfold renameTable. cbn [to_database_concrete].
  erewrite renameTable_prepare_Ok by done.
  cbn [to_database_createTable].
  erewrite createTable_cases; [| by apply list_lookup_middle | exact Hm].
  fold tmp final_new.
  cbn [tables fs files faulty asts set_files set_fs set_tables set_asts].
  unfold is_faulty, file_exists in Hft, Het, Hfn, Hfo |- *.
  cbn [faulty files]. rewrite Hft, Het, Hfn. cbn [orb].
  cbn [tables fs files faulty asts set_files set_fs set_tables set_asts].
  erewrite removeTable_cases; cycle 1.
  { cbn [tables set_tables set_files set_fs]. exact Hn. }
  fold final_old.
  erewrite File_remove_present; cycle 1.
  { unfold is_faulty. cbn [fs faulty set_files set_fs set_tables]. exact Hfo. }
  { unfold file_exists. cbn [fs files set_files set_fs set_tables]. exact Hpresent. }
  split; [reflexivity|].
  cbn [tables fs files faulty asts set_files set_fs set_tables set_asts].
  split; [done|].
  unfold file_content. cbn [files]. done.
Qed.

Lemma renameTable_across_databases_witness :
  let w := world_of {[ "u" := Storage 1 ]}
             [("/m/u", "ATTACH TABLE u"); ("/o/v", "ATTACH TABLE v")] [] [] in
  ∃ w', renameTable plain_env plain_calls "db" "/m" "u"
          (ordinary "other" "/o" {[ "v" := Storage 2 ]}) "u" w
        = (Ok (), (w', ordinary "other" "/o" (<["u" := Storage 1]> {[ "v" := Storage 2 ]})))
        ∧ tables w' = delete "u" (tables w)
        ∧ file_exists "/m/u" (fs w') = false
        ∧ file_exists "/o/u.sql.tmp" (fs w') = false
        ∧ file_content "/o/u" (fs w') = Some ("ATTACH TABLE u" +:+ newline)
        ∧ (∀ p, p ≠ "/o/u.sql.tmp" → p ≠ "/o/u" → p ≠ "/m/u" →
             file_content p (fs w') = file_content p (fs w)).
Proof.
  intros w.
  apply (renameTable_across_databases plain_env plain_calls "db" "/m" "u" "u" "other" "/o"
           {[ "v" := Storage 2 ]} (Storage 1) "ATTACH TABLE u"
           {| attach := true; if_not_exists := false; is_populate := false;
              database := ""; table := "u"; as_database := ""; as_table := "";
              select := None; definition := "" |} w);
    try reflexivity; done.
Defined.

(** X22. The name in the target is looked at only after the table has
    carried out its own [rename] and the descriptor [<path>/<escaped>] of
    the old name has been read and parsed. When all that has gone well
    (the path has no I/O fault, the file is there and parses) and the
    new name is taken in the target, the same database or another (a
    rename of a table onto itself included), [createTable] throws
    [TABLE_ALREADY_EXISTS] in the target's name, and both table maps and
    all files are as before the call: the table is renamed, the catalog
    is not. *)
Theorem renameTable_name_taken (env : Environment) (calls : StorageCalls)
    (name path n : string) (to_database : IDatabase) (m to_name to_path : string)
    (h h' : StoragePtr) (s : string) (parsed : ASTCreateQuery) (w : World) :
  let final_old := path +:+ "/" +:+ escapeForFileName env n in
  to_database_concrete name path to_database = Some (to_name, to_path) →
  tables w !! n = Some h → h ≠ nullptr →
  match to_database with
  | ordinary _ _ to_tables => to_tables !! m
  | _ => tables w !! m
  end = Some h' →
  IStorage_rename calls h (path +:+ "data/" +:+ escapeForFileName env to_name +:+ "/")
    to_name m = None →
  is_faulty final_old (fs w) = false →
  file_content final_old (fs w) = Some s →
  parseQuery env s ("in file " +:+ final_old) = inr parsed →
  ∃ w', renameTable env calls name path n to_database m w
        = (Throw (Exception ("Table " +:+ to_name +:+ "." +:+ m +:+ " already exists.")
                            TABLE_ALREADY_EXISTS),
           (w', to_database))
        ∧ tables w' = tables w ∧ fs w' = fs w.
Proof.
  intros final_old Hto Hn Hh Hm Hrename Hfo Hcontent Hparse.
  unfold renameTable. rewrite Hto.
  erewrite renameTable_prepare_Ok by done.
  destruct to_database as [| |to_name' to_path' to_tables]; [done|..];
    injection Hto as <- <-; cbn [to_database_createTable];
    (erewrite createTable_taken; [| by apply list_lookup_middle | exact Hm]);
    eexists; (split; [reflexivity | done]).
Qed.

Lemma renameTable_name_taken_witness :
  let w := world_of {[ "u" := Storage 1 ]} [("/m/u", "ATTACH TABLE u")] [] [] in
  ∃ w', renameTable plain_env plain_calls "db" "/m" "u" this_database "u" w
        = (Throw (Exception "Table db.u already exists." TABLE_ALREADY_EXISTS),
           (w', this_database))
        ∧ tables w' = tables w ∧ fs w' = fs w.
Proof.
  intros w.
  apply (renameTable_name_taken plain_env plain_calls "db" "/m" "u" this_database "u"
           "db" "/m" (Storage 1) (Storage 1) "ATTACH TABLE u"
           {| attach := true; if_not_exists := false; is_populate := false;
              database := ""; table := "u"; as_database := ""; as_table := "";
              select := None; definition := "" |} w);
    try reflexivity; done.
Defined.

(** X23. [renameTable] reads the definition from [<path>/<escaped>],
    without [.sql]. For a table in the map with no file of that name (a
    table the constructor loaded from [<escaped>.sql], or one that was
    only attached), a rename the table itself has accepted ends in the
    exception of the file buffer, whatever the target and the new name:
    both table maps and all files are as before, the table is renamed,
    the catalog is not. *)
Theorem renameTable_descriptor_missing (env : Environment) (calls : StorageCalls)
    (name path n : string) (to_database : IDatabase) (m to_name to_path : string)
    (h : StoragePtr) (w : World) :
  let final_old := path +:+ "/" +:+ escapeForFileName env n in
  to_database_concrete name path to_database = Some (to_name, to_path) →
  tables w !! n = Some h → h ≠ nullptr →
  IStorage_rename calls h (path +:+ "data/" +:+ escapeForFileName env to_name +:+ "/")
    to_name m = None →
  file_exists final_old (fs w) = false →
  renameTable env calls name path n to_database m w
  = (Throw (Exception ("Cannot open file " +:+ final_old) CANNOT_OPEN_FILE),
     (w, to_database)).
Proof.
  intros final_old Hto Hn Hh Hrename Habsent.
  unfold renameTable. rewrite Hto. unfold renameTable_prepare.
  erewrite bind_Ok by by apply tryGetTable_present.
  destruct h as [|id]; [done|]. rewrite Hrename.
  erewrite bind_Ok by reflexivity.
  unfold getCreateQueryImpl. fold final_old.
  assert (Hread : read_file final_old w
                  = (Throw (Exception ("Cannot open file " +:+ final_old)
                                      CANNOT_OPEN_FILE), w)).
  { unfold read_file. unfold_monad.
    destruct (file_content final_old (fs w)) as [s|] eqn:Hcontent.
    - apply file_content_exists in Hcontent. congruence.
    - by destruct (is_faulty final_old (fs w)). }
  erewrite (bind_Throw (bind _ _)); [done|].
  by erewrite bind_Throw by exact Hread.
Qed.

Lemma renameTable_descriptor_missing_witness :
  let w := world_of ∅ [("/m/a.sql", "ATTACH TABLE a")] [] [] in
  let r := DatabaseOrdinary plain_env "db" "/m" None w in
  fst r = Ok ()
  ∧ renameTable plain_env plain_calls "db" "/m" "a" this_database "b" (snd r)
    = (Throw (Exception "Cannot open file /m/a" CANNOT_OPEN_FILE),
       (snd r, this_database)).
Proof.
  intros w r. split; [reflexivity|].
  apply (renameTable_descriptor_missing plain_env plain_calls "db" "/m" "a"
           this_database "b" "db" "/m" (Storage 1) (snd r));
    [reflexivity | reflexivity | done | reflexivity | reflexivity].
Defined.

(** * The constructor as a whole *)

(** ** The loop over the inner tables *)

(** The loop loads the whole list, or stops at the first table whose
    [loadTable] throws, with that exception. *)
Lemma load_first_cases env name path l w :
  (∃ w', load_first env name path l w = (Ok (), w')
         ∧ load_calls w' = load_calls w ++ l)
  ∨ (∃ pre t post e w0 w',
       l = pre ++ t :: post
       ∧ load_first env name path pre w = (Ok (), w0)
       ∧ loadTable env path name t w0 = (Throw e, w')
       ∧ load_first env name path l w = (Throw e, w')
       ∧ load_calls w' = load_calls w ++ pre ++ [t]).
Proof.
  revert w. induction l as [|t l IH]; intros w.
  { left. exists w. by rewrite app_nil_r. }
  cbn [load_first].
  pose proof (loadTable_defined env path name t w) as Hdef.
  pose proof (loadTable_load_calls env path name t w) as Hcalls.
  destruct (loadTable env path name t w) as [[[]|e|] w1] eqn:Hload;
    cbn [fst snd] in Hdef, Hcalls; [| |done].
  - destruct (IH w1) as [(w' & Hrest & Hlog)
                        |(pre & t' & post & e & w0 & w' & -> & Hpre & Ht & Hrest & Hlog)].
    + left. exists w'. split; [by erewrite bind_Ok by exact Hload|].
      by rewrite Hlog, Hcalls, <- app_assoc.
    + right. exists (t :: pre), t', post, e, w0, w'. split; [done|].
      split; [cbn [load_first]; by erewrite bind_Ok by exact Hload|].
      split; [done|]. split; [by erewrite bind_Ok by exact Hload|].
      by rewrite Hlog, Hcalls, <- !app_assoc.
  - right. exists [], t, l, e, w, w1. split; [done|]. split; [done|]. split; [done|].
    split; [by erewrite bind_Throw by exact Hload|]. by rewrite Hcalls.
Qed.

(** ** What the bunches have loaded *)

Section outcomes.

Context (env : Environment) (name path : string) (tables : list string).

Lemma task_outcome_finished t t' :
  task_state t = not_ready → task_bounds tables t →
  task_later t t' → task_finished env name path tables t' →
  task_outcome env name path tables t t'.
Proof.
  intros Hnr [Hle Hend] (Hend' & Hit & _) Hfin.
  unfold task_outcome, task_finished in *.
  destruct (task_state t') as [| |e] eqn:Hst; [done| |].
  - unfold attempted, bunch, progress. rewrite Hst, Hnr, !Nat.add_0_r.
    by rewrite Hfin, Hend'.
  - destruct Hfin as (Hlt & table & w & w' & Htable & Hload).
    exists (task_it t' - task_it t), table, w, w'.
    assert (Hk : drop (task_it t) tables !! (task_it t' - task_it t) = Some table).
    { rewrite lookup_drop, <- Htable. f_equal. lia. }
    split; [|split; [|done]].
    + unfold bunch. by rewrite lookup_take_lt by lia.
    + unfold attempted, bunch, progress. rewrite Hst, Hnr, Nat.add_0_r.
      replace (task_it t' + 1 - task_it t) with (S (task_it t' - task_it t)) by lia.
      rewrite (take_S_r _ _ _ Hk). f_equal.
      rewrite take_take. f_equal. lia.
Qed.

Lemma task_outcome_sublist t t' :
  task_outcome env name path tables t t' →
  attempted tables t t' `sublist_of` bunch tables t.
Proof.
  unfold task_outcome. destruct (task_state t') as [| |e]; [done| |].
  - by intros ->.
  - intros (k & table & w & w' & Hk & -> & _).
    rewrite <- (take_S_r _ _ _ Hk). apply sublist_take.
Qed.

Lemma task_outcomes_sublist ts ts' :
  Forall2 (task_outcome env name path tables) ts ts' →
  concat (zip_with (attempted tables) ts ts')
  `sublist_of` concat (bunch tables <$> ts).
Proof.
  induction 1 as [|t t' ts ts' Ht _ IH]; [done|].
  cbn [zip_with fmap list_fmap concat].
  apply sublist_app; [by apply task_outcome_sublist | done].
Qed.

(** A stored exception was thrown by [loadTable] for a table that is in
    the log. *)
Lemma task_outcomes_exception ts ts' i t' e :
  Forall2 (task_outcome env name path tables) ts ts' →
  ts' !! i = Some t' → task_state t' = has_exception e →
  ∃ table w w', table ∈ concat (zip_with (attempted tables) ts ts')
                ∧ loadTable env path name table w = (Throw e, w').
Proof.
  intros Hall. revert i. induction Hall as [|t0 t1 ts ts' Ht _ IH]; intros i Hi He; [done|].
  cbn [zip_with concat]. destruct i as [|i].
  - injection Hi as ->. unfold task_outcome in Ht. rewrite He in Ht.
    destruct Ht as (k & table & w & w' & _ & -> & Hload).
    exists table, w, w'. split; [|done].
    apply elem_of_app. left. apply elem_of_app. right. by left.
  - destruct (IH i Hi He) as (table & w & w' & Hin & Hload).
    exists table, w, w'. split; [|done]. apply elem_of_app. by right.
Qed.

End outcomes.

Lemma make_tasks_outcomes env name path thread_pool tables w tasks' w' :
  run_tasks env name path thread_pool tables (make_tasks (length tables)) w
  = (Ok tasks', w') →
  Forall2 task_later (make_tasks (length tables)) tasks'
  ∧ Forall (task_finished env name path tables) tasks'
  ∧ Forall2 (task_outcome env name path tables) (make_tasks (length tables)) tasks'.
Proof.
  intros Hrun.
  destruct (run_tasks_returns env name path tables thread_pool
              (make_tasks (length tables)) w (make_tasks_inv env name path tables))
    as (tasks'' & w'' & Hrun' & Hlater & Hfin & _).
  rewrite Hrun in Hrun'. injection Hrun' as <- <-.
  split; [done|]. split; [done|].
  apply Forall2_same_length_lookup_2; [by eapply Forall2_length|].
  intros i t0 t' Hi Hi'.
  destruct (make_tasks_lookup _ _ _ Hi) as (Hnr & _ & Hle & Hend).
  apply task_outcome_finished; [done | done | |].
  - by eapply Forall2_lookup_lr.
  - by eapply Forall_lookup_1.
Qed.

(** ** Reading the futures *)

Lemma get_futures_Throw ts w e w' :
  get_futures ts w = (Throw e, w') →
  ∃ i t, ts !! i = Some t ∧ task_state t = has_exception e
         ∧ ∀ j t', j < i → ts !! j = Some t' → task_state t' = has_value.
Proof.
  induction ts as [|t ts IH]; [done|]. cbn [get_futures].
  destruct (task_state t) as [| |e'] eqn:Hst; [done| |].
  - intros Hrest. destruct (IH Hrest) as (i & t' & Hi & He & Hbefore).
    exists (S i), t'. split; [done|]. split; [done|].
    intros [|j] t'' Hj Hlook; [by injection Hlook as <- | apply (Hbefore j); [lia | done]].
  - intros [= -> <-]. exists 0, t. split; [done|]. split; [done|]. intros j t' Hj. lia.
Qed.

Lemma get_futures_finished env name path tables ts w :
  Forall (task_finished env name path tables) ts →
  fst (get_futures ts w) ≠ Undefined.
Proof.
  induction 1 as [|t ts Ht _ IH]; [done|]. cbn [get_futures].
  unfold task_finished in Ht. by destruct (task_state t).
Qed.

(** ** The constructor, case by case *)

(** After the enumeration the constructor stops at the first inner
    table whose [loadTable] throws, or loads all of them, runs the
    bunches of the other tables to their ends and reads the futures. *)
Lemma DatabaseOrdinary_cases env name path thread_pool w file_names w1 :
  scan_directory path (directory_entries path (fs w)) [] (set_tables ∅ w)
  = (Ok file_names, w1) →
  let sorted := sort_names file_names in
  let inner := filter (λ f, is_inner f = true) sorted in
  let other := filter (λ f, is_inner f = false) sorted in
  let tasks := make_tasks (length other) in
  let r := DatabaseOrdinary env name path thread_pool w in
  (∃ pre t post e w0 w0',
     inner = pre ++ t :: post
     ∧ load_first env name path pre w1 = (Ok (), w0)
     ∧ loadTable env path name t w0 = (Throw e, w0')
     ∧ r = (Throw e, w0')
     ∧ load_calls w0' = load_calls w ++ pre ++ [t])
  ∨ (∃ w2 tasks' w3 l,
       load_first env name path inner w1 = (Ok (), w2)
       ∧ run_tasks env name path thread_pool other tasks w2 = (Ok tasks', w3)
       ∧ r = get_futures tasks' w3
       ∧ snd r = w3
       ∧ load_calls w3 = load_calls w ++ inner ++ l
       ∧ l ≡ₚ concat (zip_with (attempted other) tasks tasks')
       ∧ (thread_pool = None → l = concat (zip_with (attempted other) tasks tasks'))
       ∧ Forall2 task_later tasks tasks'
       ∧ Forall (task_finished env name path other) tasks'
       ∧ Forall2 (task_outcome env name path other) tasks tasks').
Proof.
  intros Hscan sorted inner other tasks r.
  assert (Hw1 : load_calls w1 = load_calls w).
  { by destruct (scan_directory_Ok _ _ _ _ _ _ Hscan) as (_ & _ & ->). }
  assert (Hr : r = bind (load_first env name path inner)
                     (λ _, bind (run_tasks env name path thread_pool other tasks)
                             get_futures) w1).
  { subst r. unfold DatabaseOrdinary.
    erewrite bind_Ok by reflexivity. erewrite bind_Ok by reflexivity.
    erewrite bind_Ok by exact Hscan.
    fold sorted. by rewrite split_tables_eq. }
  clearbody r.
  destruct (load_first_cases env name path inner w1)
    as [(w2 & Hfirst & Hlog)
       |(pre & t & post & e & w0 & w0' & Hinner & Hpre & Ht & Hfirst & Hlog)].
  - right.
    destruct (run_tasks_returns env name path other thread_pool tasks w2
                (make_tasks_inv env name path other))
      as (tasks' & w3 & Hrun & _).
    destruct (make_tasks_outcomes _ _ _ _ _ _ _ _ Hrun) as (Hlater & Hfin & Hout).
    destruct (run_tasks_attempted env name path other thread_pool tasks _ _ _
                (make_tasks_inv env name path other) Hrun) as (l & Hl & Hperm & Hexact).
    exists w2, tasks', w3, l. split; [done|]. split; [done|].
    assert (Hr' : r = get_futures tasks' w3).
    { rewrite Hr. erewrite bind_Ok by exact Hfirst. by erewrite bind_Ok by exact Hrun. }
    split; [done|]. split; [by rewrite Hr', get_futures_world|].
    split; [by rewrite Hl, Hlog, Hw1, <- app_assoc|]. done.
  - left. exists pre, t, post, e, w0, w0'. split; [done|]. split; [done|]. split; [done|].
    split; [rewrite Hr; by erewrite bind_Throw by exact Hfirst|].
    by rewrite Hlog, Hw1.
Qed.

(** The calls of [loadTable] the constructor has made when it ends, and
    how it ends. *)
Lemma DatabaseOrdinary_loads env name path thread_pool w file_names w1 :
  scan_directory path (directory_entries path (fs w)) [] (set_tables ∅ w)
  = (Ok file_names, w1) →
  let sorted := sort_names file_names in
  let inner := filter (λ f, is_inner f = true) sorted in
  let other := filter (λ f, is_inner f = false) sorted in
  let r := DatabaseOrdinary env name path thread_pool w in
  ∃ loaded_inner loaded_other,
    load_calls (snd r) = load_calls w ++ loaded_inner ++ loaded_other
    ∧ loaded_inner `prefix_of` inner
    ∧ loaded_other ⊆+ other
    ∧ (thread_pool = None → loaded_other `sublist_of` other)
    ∧ ((loaded_inner = inner
        ∧ (∃ w2, load_first env name path inner w1 = (Ok (), w2))
        ∧ ((fst r = Ok () ∧ loaded_other ≡ₚ other
            ∧ (thread_pool = None → loaded_other = other))
           ∨ (∃ t e w0 w0', t ∈ loaded_other
                            ∧ loadTable env path name t w0 = (Throw e, w0')
                            ∧ fst r = Throw e)))
       ∨ (∃ pre t post e w0 w0',
            inner = pre ++ t :: post
            ∧ loaded_inner = pre ++ [t]
            ∧ load_first env name path pre w1 = (Ok (), w0)
            ∧ loadTable env path name t w0 = (Throw e, w0')
            ∧ loaded_other = []
            ∧ r = (Throw e, w0'))).
Proof.
  intros Hscan. cbv zeta.
  destruct (DatabaseOrdinary_cases env name path thread_pool w file_names w1 Hscan)
    as [(pre & t & post & e & w0 & w0' & Hinner & Hpre & Ht & Hr & Hlog)
       |(w2 & tasks' & w3 & l & Hfirst & Hrun & Hr & Hsnd & Hlog & Hperm & Hexact
         & Hlater & Hfin & Hout)];
    set (sorted := sort_names file_names) in *;
    set (inner := filter (λ f, is_inner f = true) sorted) in *;
    set (other := filter (λ f, is_inner f = false) sorted) in *.
  - exists (pre ++ [t]), []. rewrite Hr. cbn [snd].
    split; [by rewrite Hlog, app_nil_r, app_assoc|].
    split; [rewrite Hinner; apply prefix_app, (prefix_cons t [] post), prefix_nil|].
    split; [apply submseteq_nil_l|]. split; [intros _; apply sublist_nil_l|].
    right. by exists pre, t, post, e, w0, w0'.
  - pose proof (task_outcomes_sublist env name path other _ _ Hout) as Hsub.
    rewrite make_tasks_bunches in Hsub.
    exists inner, l. rewrite Hsnd. split; [done|]. split; [done|].
    split; [rewrite Hperm; by apply sublist_submseteq|].
    split; [by intros ->%Hexact|].
    left. split; [done|]. split; [by exists w2|].
    pose proof (get_futures_finished env name path other tasks' w3 Hfin) as Hdef.
    rewrite Hr. destruct (get_futures tasks' w3) as [[[]|e|] w4] eqn:Hget; [| |done].
    + left. split; [done|].
      pose proof (get_futures_Ok _ _ _ Hget) as Hvalues.
      rewrite (attempted_whole_bunches env name path other _ _ Hlater
                 (make_tasks_not_ready _) Hfin Hvalues), make_tasks_bunches in Hperm, Hexact.
      done.
    + right. destruct (get_futures_Throw _ _ _ _ Hget) as (i & t' & Hi & He & _).
      destruct (task_outcomes_exception env name path other _ _ _ _ _ Hout Hi He)
        as (table & w0 & w0' & Hin & Hload).
      exists table, e, w0, w0'. split; [by rewrite Hperm | done].
Qed.

(** ** The order of loading *)



(** ** The bunches and what the constructor throws *)

(** C3. Once the enumeration and the inner tables are through, the
    constructor runs the bunches of the normal group, with or without a
    pool and under every schedule. Whatever [loadTable] throws in any
    bunch, the call that runs the bunches returns, and every task has
    then run to its end: it has called [loadTable] for its whole bunch,
    or for the tables of its bunch up to the one whose [loadTable] threw
    the exception it stores, and the log holds these calls of all
    bunches and no other. Only then the constructor reads the futures
    in index order: it throws the exception stored by the first task
    that has one, and returns if there is none. What [loadTable]
    throws: a [DB::Exception] of the parser or the interpreter leaves it
    wrapped, as [CANNOT_CREATE_TABLE_FROM_METADATA] with the descriptor
    path and the text of the cause in the message; an exception of any
    other class leaves it as it is, and so does the exception of a
    descriptor that cannot be read, and whatever the removal of an empty
    descriptor throws. *)
Theorem C3_deferred_failure (env : Environment) (name path : string)
    (thread_pool : option (list nat)) (w : World)
    (file_names : list string) (w1 w2 : World) :
  scan_directory path (directory_entries path (fs w)) [] (set_tables ∅ w)
  = (Ok file_names, w1) →
  load_first env name path (filter (λ f, is_inner f = true) (sort_names file_names)) w1
  = (Ok (), w2) →
  let tables := filter (λ f, is_inner f = false) (sort_names file_names) in
  let tasks := make_tasks (length tables) in
  (∃ tasks' w3 l,
     run_tasks env name path thread_pool tables tasks w2 = (Ok tasks', w3)
     ∧ length tasks' = length tasks
     ∧ (∀ i t0, tasks !! i = Some t0 →
          ∃ t', tasks' !! i = Some t'
                ∧ task_end t' = task_end t0 ∧ task_it t0 ≤ task_it t'
                ∧ task_finished env name path tables t')
     ∧ Forall2 (task_outcome env name path tables) tasks tasks'
     ∧ load_calls w3 = load_calls w2 ++ l
     ∧ l ≡ₚ concat (zip_with (attempted tables) tasks tasks')
     ∧ ((∀ t', t' ∈ tasks' → task_state t' = has_value) →
        DatabaseOrdinary env name path thread_pool w = (Ok (), w3))
     ∧ (∀ i t' e,
          tasks' !! i = Some t' → task_state t' = has_exception e →
          (∀ j t'', j < i → tasks' !! j = Some t'' → task_state t'' = has_value) →
          DatabaseOrdinary env name path thread_pool w = (Throw e, w3)))
  ∧ (∀ table_escaped w0 s w' msg code w'',
       let path_to_metadata := path +:+ "/" +:+ table_escaped in
       read_file path_to_metadata (log_load table_escaped w0) = (Ok s, w') →
       s ≠ "" →
       executeCreateQuery env s name path_to_metadata w'
       = (Throw (Exception msg code), w'') →
       loadTable env path name table_escaped w0
       = (Throw (Exception
                   ("Cannot create table from metadata file " +:+ path_to_metadata
                    +:+ ", error: " +:+ displayText env (Exception msg code)
                    +:+ ", stack trace:" +:+ newline
                    +:+ getStackTrace env (Exception msg code))
                   CANNOT_CREATE_TABLE_FROM_METADATA), w''))
  ∧ (∀ table_escaped w0 s w' e w'',
       let path_to_metadata := path +:+ "/" +:+ table_escaped in
       read_file path_to_metadata (log_load table_escaped w0) = (Ok s, w') →
       s ≠ "" →
       executeCreateQuery env s name path_to_metadata w' = (Throw e, w'') →
       (∀ msg code, e ≠ Exception msg code) →
       loadTable env path name table_escaped w0 = (Throw e, w''))
  ∧ (∀ table_escaped w0 e w',
       read_file (path +:+ "/" +:+ table_escaped) (log_load table_escaped w0)
       = (Throw e, w') →
       loadTable env path name table_escaped w0 = (Throw e, w'))
  ∧ (∀ table_escaped w0 w',
       read_file (path +:+ "/" +:+ table_escaped) (log_load table_escaped w0)
       = (Ok "", w') →
       loadTable env path name table_escaped w0
       = File_remove (path +:+ "/" +:+ table_escaped) w').
Proof.
  intros Hscan Hfirst tables tasks.
  split; [|split; [|split; [|split]]].
  - destruct (run_tasks_join env name path thread_pool tables w2)
      as (tasks' & w3 & Hrun & Hlen & Hfin & Hok & Hthrow).
    destruct (make_tasks_outcomes _ _ _ _ _ _ _ _ Hrun) as (_ & _ & Hout).
    destruct (run_tasks_attempted env name path tables thread_pool tasks _ _ _
                (make_tasks_inv env name path tables) Hrun) as (l & Hl & Hperm & _).
    exists tasks', w3, l. split; [done|]. split; [done|]. split; [done|].
    split; [done|]. split; [done|]. split; [done|].
    rewrite (DatabaseOrdinary_normal_group _ _ _ _ _ _ _ _ Hscan Hfirst).
    fold tables tasks. erewrite bind_Ok by exact Hrun. split; [done|].
    intros i t' e. apply Hthrow.
  - intros t w0 s w' msg code w'' p Hread Hs Hexec.
    by apply (loadTable_wraps env path name t w0 s w' msg code w'').
  - intros t w0 s w' e w'' p Hread Hs Hexec Hother.
    unfold loadTable. fold p.
    erewrite bind_Ok by reflexivity. erewrite bind_Ok by exact Hread.
    apply String.eqb_neq in Hs. rewrite Hs.
    unfold try_catch_Exception. rewrite Hexec.
    destruct e as [msg code| |]; [by destruct (Hother msg code) | done..].
  - intros t w0 e w' Hread. unfold loadTable.
    erewrite bind_Ok by reflexivity. by erewrite bind_Throw by exact Hread.
  - intros t w0 w' Hread. unfold loadTable.
    erewrite bind_Ok by reflexivity. by erewrite bind_Ok by exact Hread.
Qed.

Lemma C3_deferred_failure_witness :
  let w := world_of ∅ two_bunches [] [] in
  ∃ w3, DatabaseOrdinary plain_env "db" "/m" (Some [1; 1; 0; 1]) w
        = (Throw (Exception
                    ("Cannot create table from metadata file /m/t005.sql, error: "
                     +:+ "DB::Exception: Syntax error in file /m/t005.sql"
                     +:+ ", stack trace:" +:+ newline)
                    CANNOT_CREATE_TABLE_FROM_METADATA), w3)
        ∧ ("t119.sql" ∈ load_calls w3) ∧ ("t120.sql" ∈ load_calls w3)
        ∧ ("t121.sql" ∉ load_calls w3) ∧ ("t006.sql" ∉ load_calls w3).
Proof.
  intros w.
  destruct (C3_deferred_failure plain_env "db" "/m" (Some [1; 1; 0; 1]) w
              (directory_entries "/m" (fs w)) w
              (snd (load_first plain_env "db" "/m" [] w)))
    as [(tasks' & w3 & l & Hrun & _ & _ & _ & _ & _ & _ & Hthrow) _].
  - vm_compute. reflexivity.
  - vm_compute. reflexivity.
  - vm_compute in Hrun. injection Hrun as <- <-.
    eexists. split.
    + eapply (Hthrow 0); [reflexivity | reflexivity |]. intros j t'' Hj. lia.
    + cbn [load_calls].
      repeat split; apply (bool_decide_unpack _); vm_compute; exact I.
Defined.

(** A table whose construction fails with an exception that is no
    [DB::Exception], and a descriptor that cannot be opened: the
    constructor throws the exception as it is, not wrapped and, in the
    first case, without the path of the descriptor. *)
Lemma C3_unwrapped_failure_counterexample :
  let w := world_of ∅ [("/m/a.sql", "ATTACH TABLE a")] [] [] in
  let w' := world_of ∅ [("/m/a.sql", "ATTACH TABLE a")] ["/m/a.sql"] [] in
  fst (DatabaseOrdinary io_error_env "db" "/m" None w)
  = Throw (PocoException "Cannot create the data directory")
  ∧ load_calls (snd (DatabaseOrdinary io_error_env "db" "/m" None w)) = ["a.sql"]
  ∧ fst (DatabaseOrdinary plain_env "db" "/m" None w')
    = Throw (Exception "Cannot open file /m/a.sql" CANNOT_OPEN_FILE).
Proof. vm_compute. done. Qed.

(** ** The enumeration and the order of processing *)

Lemma directory_entries_NoDup (dir : string) (f : FileSystem) :
  NoDup (directory_entries dir f).
Proof. apply NoDup_remove_dups. Qed.

(** C2. The constructor on a metadata directory whose stale temporary
    files can be removed. Entries that start with a dot are hidden: they
    are neither collected, nor deleted, nor rejected, whatever their
    suffix. If a visible entry ends in none of [.sql], [.sql.bak],
    [.sql.tmp], the loop throws [INCORRECT_FILE_NAME], and so does the
    constructor, which has loaded no table. Otherwise the loop returns
    the visible [.sql] entries and has deleted exactly the visible
    [.sql.tmp] files (visible [.sql.bak] entries are skipped), and
    [std::sort] puts the names in byte order. They are not processed in
    that order: the names with the prefix [%2Einner%2E] come first, in
    sorted order, and no other name before all of them are through;
    then the other names, each at most once, in sorted order when there
    is no pool and in an order the pool decides when there is one; a
    constructor that returns has processed every name exactly once. *)
Theorem C2_enumeration (env : Environment) (name path : string)
    (thread_pool : option (list nat)) (w : World) :
  let dir_entries := directory_entries path (fs w) in
  let names := filter (λ nm, is_descriptor nm = true) dir_entries in
  let sorted := sort_names names in
  let inner := filter (λ f, is_inner f = true) sorted in
  let other := filter (λ f, is_inner f = false) sorted in
  let r := DatabaseOrdinary env name path thread_pool w in
  Forall (λ nm, nm ≠ "") dir_entries →
  removable path dir_entries (fs w) →
  (∀ nm, nm ∈ dir_entries → is_rejected nm = true →
     ∃ msg w', scan_directory path dir_entries [] (set_tables ∅ w)
               = (Throw (Exception msg INCORRECT_FILE_NAME), w')
               ∧ r = (Throw (Exception msg INCORRECT_FILE_NAME), w')
               ∧ load_calls w' = load_calls w)
  ∧ ((∀ nm, nm ∈ dir_entries → is_rejected nm = false) →
     ∃ w1, scan_directory path dir_entries [] (set_tables ∅ w) = (Ok names, w1)
           ∧ files (fs w1)
             = filter (λ e, fst e ∉ stale_paths path dir_entries) (files (fs w))
           ∧ (∀ nm, nm ∈ dir_entries → is_stale nm = true →
                file_exists (path +:+ "/" +:+ nm) (fs w1) = false)
           ∧ tables w1 = ∅
           ∧ Sorted string_le sorted ∧ sorted ≡ₚ names
           ∧ ∃ loaded_inner loaded_other,
               load_calls (snd r) = load_calls w ++ loaded_inner ++ loaded_other
               ∧ loaded_inner `prefix_of` inner
               ∧ loaded_other ⊆+ other
               ∧ (thread_pool = None → loaded_other `sublist_of` other)
               ∧ (loaded_other ≠ [] → loaded_inner = inner)
               ∧ (fst r = Ok () →
                  loaded_inner = inner ∧ loaded_other ≡ₚ other
                  ∧ (thread_pool = None → loaded_other = other))).
Proof.
  intros dir_entries names sorted inner other r Hne Hrm.
  pose proof (scan_directory_runs path dir_entries [] (set_tables ∅ w) Hne
                (directory_entries_NoDup path (fs w)) Hrm) as Hrun.
  assert (Hr : ∀ res w', scan_directory path dir_entries [] (set_tables ∅ w) = (res, w') →
                 r = bind (λ w0, (res, w0))
                       (λ file_names,
                          let file_names := sort_names file_names in
                          let '(tables_to_load_first, tables) := split_tables file_names in
                          bind (load_first env name path tables_to_load_first)
                            (λ _, bind (run_tasks env name path thread_pool tables
                                          (make_tasks (length tables))) get_futures)) w').
  { intros res w' Hscan. subst r. unfold DatabaseOrdinary.
    erewrite bind_Ok by reflexivity. erewrite bind_Ok by reflexivity.
    change (fs (set_tables ∅ w)) with (fs w). fold dir_entries.
    unfold bind at 1. rewrite Hscan. unfold bind at 3. done. }
  split.
  - intros nm Hin Hrej.
    destruct (find is_rejected dir_entries) as [nm0|] eqn:Hfind.
    + destruct Hrun as [w' Hscan]. eexists _, w'. split; [exact Hscan|].
      split; [by rewrite (Hr _ _ Hscan)|].
      pose proof (scan_directory_load_calls path dir_entries [] (set_tables ∅ w)) as Hlog.
      by rewrite Hscan in Hlog.
    + apply list_elem_of_In in Hin.
      pose proof (find_none _ _ Hfind _ Hin). congruence.
  - intros Hnone.
    destruct (find is_rejected dir_entries) as [nm0|] eqn:Hfind.
    { apply find_some in Hfind as [Hin Hrej]. apply list_elem_of_In in Hin.
      specialize (Hnone _ Hin). congruence. }
    destruct Hrun as (names' & w1 & Hscan).
    destruct (scan_directory_Ok _ _ _ _ _ _ Hscan) as (Hnames & _ & Hw).
    simpl in Hnames. subst names'. exists w1. split; [done|].
    split; [by subst w1|]. split.
    { intros nm Hin Hs. subst w1. cbn [fs files set_files set_fs set_tables].
      apply file_exists_filter_notin. unfold stale_paths.
      apply (list_elem_of_fmap_2 (λ nm, path +:+ "/" +:+ nm)).
      by apply list_elem_of_filter. }
    split; [by subst w1|].
    split; [apply sort_names_Sorted|]. split; [apply sort_names_Permutation|].
    destruct (DatabaseOrdinary_loads env name path thread_pool w names w1 Hscan)
      as (loaded_inner & loaded_other & Hlog & Hprefix & Hsub & Hsublist & Hcases).
    exists loaded_inner, loaded_other.
    split; [done|]. split; [done|]. split; [done|]. split; [done|].
    destruct Hcases as [(Hinner & _ & [(Hok & Hperm & Hexact)|(t & e & w0 & w0' & _ & _ & He)])
                       |(pre & t & post & e & w0 & w0' & _ & _ & _ & _ & Hnil & He)].
    + done.
    + split; [done|]. fold r in He. rewrite He. done.
    + split; [done|]. fold r in He. rewrite He. done.
Qed.

Lemma C2_enumeration_witness :
  let w := world_of ∅ [("/m/b.sql", "ATTACH TABLE b"); ("/m/x.sql.tmp", "ATT");
                       ("/m/.svn/entries", ""); ("/m/k.sql.bak", "ATTACH TABLE k");
                       ("/m/a.sql", "ATTACH TABLE a");
                       ("/m/%2Einner%2Ez.sql", "ATTACH TABLE .inner.z")] [] [] in
  let r := DatabaseOrdinary plain_env "db" "/m" None w in
  directory_entries "/m" (fs w)
  = ["b.sql"; "x.sql.tmp"; ".svn"; "k.sql.bak"; "a.sql"; "%2Einner%2Ez.sql"]
  ∧ ∃ w1, scan_directory "/m" (directory_entries "/m" (fs w)) [] (set_tables ∅ w)
          = (Ok ["b.sql"; "a.sql"; "%2Einner%2Ez.sql"], w1)
          ∧ files (fs w1) = [("/m/b.sql", "ATTACH TABLE b"); ("/m/.svn/entries", "");
                             ("/m/k.sql.bak", "ATTACH TABLE k");
                             ("/m/a.sql", "ATTACH TABLE a");
                             ("/m/%2Einner%2Ez.sql", "ATTACH TABLE .inner.z")]
          ∧ load_calls (snd r) = ["%2Einner%2Ez.sql"; "a.sql"; "b.sql"].
Proof.
  intros w r. split; [reflexivity|].
  destruct (C2_enumeration plain_env "db" "/m" None w) as (_ & Hok).
  - apply (bool_decide_unpack _). vm_compute. exact I.
  - intros nm Hin Hs.
    assert (Hnm : nm = "x.sql.tmp").
    { change (directory_entries "/m" (fs w))
        with ["b.sql"; "x.sql.tmp"; ".svn"; "k.sql.bak"; "a.sql"; "%2Einner%2Ez.sql"] in Hin.
      rewrite !elem_of_cons, elem_of_nil in Hin.
      destruct Hin as [->|[->|[->|[->|[->|[->|[]]]]]]]; try discriminate Hs; done. }
    subst nm. split; vm_compute; reflexivity.
  - destruct Hok as (w1 & Hscan & Hfiles & _ & _ & _ & _ & li & lo & Hlog & _ & _ & _ & _ & Hret).
    + intros nm Hin.
      change (directory_entries "/m" (fs w))
        with ["b.sql"; "x.sql.tmp"; ".svn"; "k.sql.bak"; "a.sql"; "%2Einner%2Ez.sql"] in Hin.
      rewrite !elem_of_cons, elem_of_nil in Hin.
      destruct Hin as [->|[->|[->|[->|[->|[->|[]]]]]]]; reflexivity.
    + destruct Hret as (-> & _ & Hlo); [reflexivity|].
      rewrite (Hlo eq_refl) in Hlog.
      exists w1. split; [exact Hscan|]. split; [rewrite Hfiles; reflexivity|].
      fold r in Hlog. rewrite Hlog. reflexivity.
Defined.

(** The collected names are not processed in sorted order. Without a
    pool: [%2Ea.sql] sorts before [%2Einner%2Eb.sql] and is loaded after
    it. With a pool: of 150 names in two bunches, the schedule that lets
    the second bunch start loads [t100.sql] before [t000.sql]. *)
Lemma C2_processing_order_counterexample :
  let w := world_of ∅ [("/m/%2Ea.sql", "ATTACH TABLE .a");
                       ("/m/%2Einner%2Eb.sql", "ATTACH TABLE .inner.b")] [] [] in
  let r := DatabaseOrdinary plain_env "db" "/m" None w in
  let r' := DatabaseOrdinary plain_env "db" "/m" (Some [1]) (world_of ∅ two_bunches [] []) in
  sort_names (directory_entries "/m" (fs w)) = ["%2Ea.sql"; "%2Einner%2Eb.sql"]
  ∧ fst r = Ok ()
  ∧ load_calls (snd r) = ["%2Einner%2Eb.sql"; "%2Ea.sql"]
  ∧ take 2 (load_calls (snd r')) = ["t100.sql"; "t000.sql"].
Proof. vm_compute. done. Qed.

(** A subdirectory of the metadata directory is an entry like any
    other: hidden when its name starts with a dot, rejected when it has
    none of the suffixes. *)
Example subdirectory_is_an_entry :
  let w := world_of ∅ [("/m/sub/x.sql", "ATTACH TABLE x"); ("/m/sub/y.sql", "");
                       ("/m/a.sql", "ATTACH TABLE a")] [] [] in
  directory_entries "/m" (fs w) = ["sub"; "a.sql"]
  ∧ DatabaseOrdinary plain_env "db" "/m" None w
    = (Throw (Exception "Incorrect file extension: sub in metadata directory /m"
                        INCORRECT_FILE_NAME), w).
Proof. vm_compute. done. Qed.
